(** * Solver: a shallow embedding of [nnet/solver.py]

    The training driver of the repository is embedded as a state-and-exception
    monad over the mutable attributes of a [Solver] instance.  The model, the
    update rule, the augmentation function and the custom decay schedule are
    external collaborators and appear as fallible functions in the
    configuration.  Python floats are idealised as rationals ([Q]); [nan] is
    not represented. *)

From Stdlib Require Import ZArith QArith Qround List String Ascii DecimalString
  DecimalPos DecimalZ Lia.
From stdpp Require Import gmap strings list fin_maps.

(** ** Exceptions and results *)

Inductive exn : Type :=
  | AttributeError
  | AssertionError
  | IndexError
  | KeyError
  | TypeError
  | ValueError
  | ZeroDivisionError
  | OSError
  | IOError
  | ExternalError (tag : nat).

Inductive result (A : Type) : Type :=
  | Ok (a : A)
  | Raise (e : exn).
Arguments Ok {A} a.
Arguments Raise {A} e.

Definition is_ok {A} (r : result A) : bool :=
  match r with Ok _ => true | Raise _ => false end.

Definition result_bind {A B} (r : result A) (k : A → result B) : result B :=
  match r with Ok a => k a | Raise e => Raise e end.

Fixpoint result_mapM {A B} (f : A → result B) (l : list A) : result (list B) :=
  match l with
  | [] => Ok []
  | x :: l' =>
      match f x with
      | Raise e => Raise e
      | Ok y => match result_mapM f l' with
                | Raise e => Raise e
                | Ok ys => Ok (y :: ys)
                end
      end
  end.

(** ** Python integers *)

(** [a / b] and [a % b] on Python 2 integers: floor division, the remainder
    takes the sign of the divisor, a zero divisor raises. *)
Definition py_floordiv (a b : Z) : result Z :=
  if (b =? 0)%Z then Raise ZeroDivisionError else Ok (a / b)%Z.

Definition py_mod (a b : Z) : result Z :=
  if (b =? 0)%Z then Raise ZeroDivisionError else Ok (a mod b)%Z.

(** [int(x)] on a number: truncation toward zero. *)
Definition py_int (x : Q) : Z := Z.quot (Qnum x) (Z.pos (Qden x)).

(** [xrange(n)]. *)
Definition xrange (n : Z) : list Z := map Z.of_nat (seq 0 (Z.to_nat n)).

(** ** numpy *)

(** A numeric array, flattened. *)
Abbreviation array := (list Q).

Definition Qsum (l : list Q) : Q := fold_right Qplus 0%Q l.

(** [np.mean(l)] of a list of scalars. *)
Definition np_mean (l : list Q) : Q := (Qsum l / inject_Z (Z.of_nat (length l)))%Q.

(** Elementwise sum of two arrays of the same shape. *)
Fixpoint array_add (a b : array) : array :=
  match a, b with
  | x :: a', y :: b' => (x + y)%Q :: array_add a' b'
  | _, _ => []
  end.

(** [np.mean(ls, axis=0)] of a list of arrays: the arrays must have one shape. *)
Definition np_mean_axis0 (ls : list array) : result array :=
  match ls with
  | [] => Ok []
  | a0 :: rest =>
      if forallb (λ a, Nat.eqb (length a) (length a0)) rest then
        let total := fold_left array_add rest a0 in
        Ok (map (λ x, (x / inject_Z (Z.of_nat (length ls)))%Q) total)
      else Raise ValueError
  end.

(** Index of the first maximum of a non-empty row. *)
Fixpoint argmax_from (best : Q) (besti i : Z) (row : list Q) : Z :=
  match row with
  | [] => besti
  | x :: row' =>
      if Qle_bool x best then argmax_from best besti (i + 1)%Z row'
      else argmax_from x i (i + 1)%Z row'
  end.

Definition np_argmax (row : list Q) : result Z :=
  match row with
  | [] => Raise ValueError
  | x :: row' => Ok (argmax_from x 0%Z 1%Z row')
  end.

(** [np.argmax(scores, axis=1)]. *)
Definition np_argmax_axis1 (scores : list (list Q)) : result (list Z) :=
  result_mapM np_argmax scores.

(** [np.hstack(ls)]: an empty list of arrays is refused. *)
Definition np_hstack {A} (ls : list (list A)) : result (list A) :=
  match ls with
  | [] => Raise ValueError
  | _ => Ok (concat ls)
  end.

(** [a[i]] for one index of a fancy-index mask; negative indices wrap. *)
Definition np_index {A} (l : list A) (i : Z) : result A :=
  let len := Z.of_nat (length l) in
  let j := if (i <? 0)%Z then (i + len)%Z else i in
  if ((0 <=? j) && (j <? len))%Z then
    match nth_error l (Z.to_nat j) with
    | Some x => Ok x
    | None => Raise IndexError
    end
  else Raise IndexError.

(** [a[mask]]. *)
Definition np_take {A} (l : list A) (mask : list Z) : result (list A) :=
  result_mapM (np_index l) mask.

(** [a[start:end]] for bounds that are not negative. *)
Definition py_slice {A} (l : list A) (start stop : Z) : list A :=
  firstn (Z.to_nat stop - Z.to_nat start) (skipn (Z.to_nat start) l).

Fixpoint chunks {A} (l : list A) (sizes : list nat) : list (list A) :=
  match sizes with
  | [] => []
  | k :: sizes' => firstn k l :: chunks (skipn k l) sizes'
  end.

(** [np.array_split(l, n)]: the first [len % n] sections hold [len // n + 1]
    items, the others [len // n]. *)
Definition array_split {A} (l : list A) (n : Z) : result (list (list A)) :=
  if (n <=? 0)%Z then Raise ValueError
  else
    let len := Z.of_nat (length l) in
    let each := (len / n)%Z in
    let extras := (len mod n)%Z in
    Ok (chunks l (repeat (Z.to_nat (each + 1)) (Z.to_nat extras)
                  ++ repeat (Z.to_nat each) (Z.to_nat (n - extras)))).

(** [np.mean(y_pred == y)].  Equal lengths compare elementwise; a length-one
    side is broadcast; any other mismatch, and [y is None], compares to the
    scalar [False]. *)
Definition count_eq (a b : list Z) : nat :=
  length (filter (λ p : Z * Z, bool_decide (p.1 = p.2)) (combine a b)).

Definition accuracy_of (y_pred : list Z) (y : option (list Z)) : Q :=
  match y with
  | None => 0%Q
  | Some yy =>
      if Nat.eqb (length y_pred) (length yy) then
        (inject_Z (Z.of_nat (count_eq y_pred yy))
         / inject_Z (Z.of_nat (length yy)))%Q
      else
        match y_pred, yy with
        | [p], _ =>
            (inject_Z (Z.of_nat (count_eq (repeat p (length yy)) yy))
             / inject_Z (Z.of_nat (length yy)))%Q
        | _, [t] =>
            (inject_Z (Z.of_nat (count_eq y_pred (repeat t (length y_pred))))
             / inject_Z (Z.of_nat (length y_pred)))%Q
        | _, _ => 0%Q
        end
  end.

(** ** Strings and paths *)

(** [s.split('_')]. *)
Fixpoint split_underscore_go (cur : string) (s : string) : list string :=
  match s with
  | EmptyString => [String.rev cur]
  | String c s' =>
      if Ascii.eqb c "_"%char then String.rev cur :: split_underscore_go EmptyString s'
      else split_underscore_go (String c cur) s'
  end.

Definition py_split_underscore (s : string) : list string :=
  split_underscore_go EmptyString s.

Definition is_py_space (c : ascii) : bool :=
  let n := nat_of_ascii c in
  Nat.eqb n 32 || (Nat.leb 9 n && Nat.leb n 13).

Definition digit_of (c : ascii) : option Z :=
  let n := nat_of_ascii c in
  if Nat.leb 48 n && Nat.leb n 57 then Some (Z.of_nat (n - 48)) else None.

Fixpoint lstrip (s : string) : string :=
  match s with
  | String c s' => if is_py_space c then lstrip s' else s
  | EmptyString => EmptyString
  end.

Definition py_strip (s : string) : string :=
  String.rev (lstrip (String.rev (lstrip s))).

Fixpoint parse_digits (acc : Z) (s : string) : option Z :=
  match s with
  | EmptyString => Some acc
  | String c s' =>
      match digit_of c with
      | Some d => parse_digits (10 * acc + d)%Z s'
      | None => None
      end
  end.

Definition parse_unsigned (s : string) : result Z :=
  match s with
  | EmptyString => Raise ValueError
  | _ => match parse_digits 0%Z s with
         | Some z => Ok z
         | None => Raise ValueError
         end
  end.

(** [int(s)] on a Python 2 string: surrounding white space, an optional
    sign, then at least one decimal digit. *)
Definition py_int_of_string (s : string) : result Z :=
  match py_strip s with
  | String "-"%char s' => result_bind (parse_unsigned s') (λ z, Ok (- z)%Z)
  | String "+"%char s' => parse_unsigned s'
  | s' => parse_unsigned s'
  end.

(** [str(z)]. *)
Definition py_str (z : Z) : string := NilZero.string_of_int (Z.to_int z).

Definition ends_with_slash (s : string) : bool :=
  match String.rev s with
  | String "/"%char _ => true
  | _ => false
  end.

Definition starts_with_slash (s : string) : bool :=
  match s with
  | String "/"%char _ => true
  | _ => false
  end.

(** [os.path.join(a, b)] on a POSIX system. *)
Definition path_join2 (a b : string) : string :=
  if starts_with_slash b then b
  else if String.eqb a EmptyString || ends_with_slash a then (a ++ b)%string
  else (a ++ "/" ++ b)%string.

Definition path_join3 (a b c : string) : string := path_join2 (path_join2 a b) c.

(** [max(l)] of a list of integers; the empty list raises. *)
Definition py_max (l : list Z) : result Z :=
  match l with
  | [] => Raise ValueError
  | x :: l' => Ok (fold_left Z.max l' x)
  end.

(** ** Data model *)

(** A hyperparameter value: a float is immutable and held by value, an
    [ndarray] is a mutable object held by reference into the heap. *)
Inductive pyval : Type :=
  | PyFloat (q : Q)
  | PyArr (l : positive).

(** The model capability: [loss(X, y)] gives the loss and the gradients,
    [loss(X)] the class scores.  Both read the parameter store. *)
Record Model : Type := {
  loss : gmap string array → list array → list Z → result (Q * gmap string array);
  loss_scores : gmap string array → list array → result (list (list Q));
}.

(** An update rule of [optim.py]: [(w, dw, config) -> (next_w, next_config)];
    it may read and allocate arrays. *)
Definition update_rule_t : Type :=
  gmap positive array → array → array → gmap string pyval →
  result (array * gmap string pyval * gmap positive array).

(** What [joblib.load] gives back: a dictionary in which any key may be
    missing. *)
Record Checkpoint : Type := {
  cp_model : option (gmap string array);
  cp_epoch : option Z;
  cp_best_params : option (gmap string array);
  cp_best_val_acc : option Q;
  cp_loss_history : option (list Q);
  cp_train_acc_history : option (list Q);
  cp_val_acc_history : option (list Q);
}.

(** The part of the file system the solver touches: the directories that
    can be listed, with their entries, and the checkpoint files that can be
    loaded, with their content.  A directory that is missing or unreadable
    has no entry list; a file that is missing or corrupt has no content. *)
Record FileSystem : Type := {
  fs_dirs : gmap string (list string);
  fs_files : gmap string Checkpoint;
}.

Inductive pool_state : Type := PoolRun | PoolTerminated.

(** The attributes of a solver that are fixed once it is constructed. *)
Record Config : Type := {
  model : Model;
  X_train : list array;
  y_train : list Z;
  X_val : list array;
  y_val : list Z;
  update_rule : update_rule_t;
  optim_config : gmap string pyval;
  batch_size : Z;
  num_epochs : Q;
  print_every : Z;
  verbose : bool;
  load_dir : option string;
  path_checkpoints : string;
  check_point_every : Z;
  custom_update_ld : option (Z → result Q);
  batch_augment_func : option (list array → result (list array));
  num_processes : Z;
  rand : nat → nat;
}.

(** The attributes that change: the model's parameter store, the training
    state, the optimizer configs, the worker pool, and the world around them
    (array heap, random generator position, file system). *)
Record Solver : Type := {
  params : gmap string array;
  epoch : Z;
  best_val_acc : Q;
  best_params : gmap string array;
  loss_history : list Q;
  train_acc_history : list Q;
  val_acc_history : list Q;
  optim_configs : gmap string (gmap string pyval);
  lr_decay : Q;
  multiprocessing : bool;
  pool : option pool_state;
  heap : gmap positive array;
  rng : nat;
  fs : FileSystem;
}.

(** [self.f = v], one setter per attribute. *)

Definition set_params (v : gmap string array) (s : Solver) : Solver :=
  {| params := v; epoch := epoch s; best_val_acc := best_val_acc s;
     best_params := best_params s; loss_history := loss_history s;
     train_acc_history := train_acc_history s; val_acc_history := val_acc_history s;
     optim_configs := optim_configs s; lr_decay := lr_decay s;
     multiprocessing := multiprocessing s; pool := pool s; heap := heap s;
     rng := rng s; fs := fs s |}.

Definition set_epoch (v : Z) (s : Solver) : Solver :=
  {| params := params s; epoch := v; best_val_acc := best_val_acc s;
     best_params := best_params s; loss_history := loss_history s;
     train_acc_history := train_acc_history s; val_acc_history := val_acc_history s;
     optim_configs := optim_configs s; lr_decay := lr_decay s;
     multiprocessing := multiprocessing s; pool := pool s; heap := heap s;
     rng := rng s; fs := fs s |}.

Definition set_best_val_acc (v : Q) (s : Solver) : Solver :=
  {| params := params s; epoch := epoch s; best_val_acc := v;
     best_params := best_params s; loss_history := loss_history s;
     train_acc_history := train_acc_history s; val_acc_history := val_acc_history s;
     optim_configs := optim_configs s; lr_decay := lr_decay s;
     multiprocessing := multiprocessing s; pool := pool s; heap := heap s;
     rng := rng s; fs := fs s |}.

Definition set_best_params (v : gmap string array) (s : Solver) : Solver :=
  {| params := params s; epoch := epoch s; best_val_acc := best_val_acc s;
     best_params := v; loss_history := loss_history s;
     train_acc_history := train_acc_history s; val_acc_history := val_acc_history s;
     optim_configs := optim_configs s; lr_decay := lr_decay s;
     multiprocessing := multiprocessing s; pool := pool s; heap := heap s;
     rng := rng s; fs := fs s |}.

Definition set_loss_history (v : list Q) (s : Solver) : Solver :=
  {| params := params s; epoch := epoch s; best_val_acc := best_val_acc s;
     best_params := best_params s; loss_history := v;
     train_acc_history := train_acc_history s; val_acc_history := val_acc_history s;
     optim_configs := optim_configs s; lr_decay := lr_decay s;
     multiprocessing := multiprocessing s; pool := pool s; heap := heap s;
     rng := rng s; fs := fs s |}.

Definition set_train_acc_history (v : list Q) (s : Solver) : Solver :=
  {| params := params s; epoch := epoch s; best_val_acc := best_val_acc s;
     best_params := best_params s; loss_history := loss_history s;
     train_acc_history := v; val_acc_history := val_acc_history s;
     optim_configs := optim_configs s; lr_decay := lr_decay s;
     multiprocessing := multiprocessing s; pool := pool s; heap := heap s;
     rng := rng s; fs := fs s |}.

Definition set_val_acc_history (v : list Q) (s : Solver) : Solver :=
  {| params := params s; epoch := epoch s; best_val_acc := best_val_acc s;
     best_params := best_params s; loss_history := loss_history s;
     train_acc_history := train_acc_history s; val_acc_history := v;
     optim_configs := optim_configs s; lr_decay := lr_decay s;
     multiprocessing := multiprocessing s; pool := pool s; heap := heap s;
     rng := rng s; fs := fs s |}.

Definition set_optim_configs (v : gmap string (gmap string pyval)) (s : Solver) : Solver :=
  {| params := params s; epoch := epoch s; best_val_acc := best_val_acc s;
     best_params := best_params s; loss_history := loss_history s;
     train_acc_history := train_acc_history s; val_acc_history := val_acc_history s;
     optim_configs := v; lr_decay := lr_decay s;
     multiprocessing := multiprocessing s; pool := pool s; heap := heap s;
     rng := rng s; fs := fs s |}.

Definition set_lr_decay (v : Q) (s : Solver) : Solver :=
  {| params := params s; epoch := epoch s; best_val_acc := best_val_acc s;
     best_params := best_params s; loss_history := loss_history s;
     train_acc_history := train_acc_history s; val_acc_history := val_acc_history s;
     optim_configs := optim_configs s; lr_decay := v;
     multiprocessing := multiprocessing s; pool := pool s; heap := heap s;
     rng := rng s; fs := fs s |}.

Definition set_multiprocessing (v : bool) (s : Solver) : Solver :=
  {| params := params s; epoch := epoch s; best_val_acc := best_val_acc s;
     best_params := best_params s; loss_history := loss_history s;
     train_acc_history := train_acc_history s; val_acc_history := val_acc_history s;
     optim_configs := optim_configs s; lr_decay := lr_decay s; multiprocessing := v;
     pool := pool s; heap := heap s; rng := rng s; fs := fs s |}.

Definition set_pool (v : option pool_state) (s : Solver) : Solver :=
  {| params := params s; epoch := epoch s; best_val_acc := best_val_acc s;
     best_params := best_params s; loss_history := loss_history s;
     train_acc_history := train_acc_history s; val_acc_history := val_acc_history s;
     optim_configs := optim_configs s; lr_decay := lr_decay s;
     multiprocessing := multiprocessing s; pool := v; heap := heap s; rng := rng s;
     fs := fs s |}.

Definition set_heap (v : gmap positive array) (s : Solver) : Solver :=
  {| params := params s; epoch := epoch s; best_val_acc := best_val_acc s;
     best_params := best_params s; loss_history := loss_history s;
     train_acc_history := train_acc_history s; val_acc_history := val_acc_history s;
     optim_configs := optim_configs s; lr_decay := lr_decay s;
     multiprocessing := multiprocessing s; pool := pool s; heap := v; rng := rng s;
     fs := fs s |}.

Definition set_rng (v : nat) (s : Solver) : Solver :=
  {| params := params s; epoch := epoch s; best_val_acc := best_val_acc s;
     best_params := best_params s; loss_history := loss_history s;
     train_acc_history := train_acc_history s; val_acc_history := val_acc_history s;
     optim_configs := optim_configs s; lr_decay := lr_decay s;
     multiprocessing := multiprocessing s; pool := pool s; heap := heap s; rng := v;
     fs := fs s |}.

Definition set_fs (v : FileSystem) (s : Solver) : Solver :=
  {| params := params s; epoch := epoch s; best_val_acc := best_val_acc s;
     best_params := best_params s; loss_history := loss_history s;
     train_acc_history := train_acc_history s; val_acc_history := val_acc_history s;
     optim_configs := optim_configs s; lr_decay := lr_decay s;
     multiprocessing := multiprocessing s; pool := pool s; heap := heap s;
     rng := rng s; fs := v |}.

(** ** The solver monad: mutable attributes and exceptions

    A raised exception keeps every attribute assignment made before it. *)

Definition M (A : Type) : Type := Solver → Solver * result A.

Definition ret {A} (a : A) : M A := λ s, (s, Ok a).

Definition bind {A B} (m : M A) (k : A → M B) : M B :=
  λ s, match m s with
       | (s', Ok a) => k a s'
       | (s', Raise e) => (s', Raise e)
       end.

Definition raise {A} (e : exn) : M A := λ s, (s, Raise e).

Definition lift {A} (r : result A) : M A := λ s, (s, r).

Definition get : M Solver := λ s, (s, Ok s).

Definition modify (f : Solver → Solver) : M unit := λ s, (f s, Ok tt).

(** [try: m except: h]. *)
Definition try_except {A} (m : M A) (h : exn → M A) : M A :=
  λ s, match m s with
       | (s', Raise e) => h e s'
       | r => r
       end.

#[global] Instance M_ret : MRet M := @ret.
#[global] Instance M_bind : MBind M := λ A B k m, bind m k.

(** [if b: m]. *)
Definition when (b : bool) (m : M unit) : M unit :=
  if b then m else ret tt.

(** [for x in l: body(x)]. *)
Fixpoint for_each {A} (l : list A) (body : A → M unit) : M unit :=
  match l with
  | [] => ret tt
  | x :: l' => body x;; for_each l' body
  end.

(** [for x in l: acc.extend(body(x))]. *)
Fixpoint collect {A B} (l : list A) (body : A → M (list B)) : M (list B) :=
  match l with
  | [] => ret []
  | x :: l' => ys ← body x; zs ← collect l' body; ret (ys ++ zs)
  end.

(** [d[k]]. *)
Definition dict_get {V} (d : gmap string V) (k : string) : result V :=
  match d !! k with
  | Some v => Ok v
  | None => Raise KeyError
  end.

(** [l[i]] for an index that is not negative. *)
Definition list_get {A} (l : list A) (i : nat) : result A :=
  match nth_error l i with
  | Some x => Ok x
  | None => Raise IndexError
  end.

(** *** Worker pool *)

(** [mp.Pool(n, init_worker)]. *)
Definition mp_Pool (n : Z) : M unit :=
  if (n <? 1)%Z then raise ValueError
  else modify (set_pool (Some PoolRun)).

(** [self.pool.terminate()]. *)
Definition pool_terminate : M unit :=
  s ← get;
  match pool s with
  | None => raise AttributeError
  | Some _ => modify (set_pool (Some PoolTerminated))
  end.

(** [self.pool.join()]. *)
Definition pool_join : M unit :=
  s ← get;
  match pool s with
  | None => raise AttributeError
  | Some PoolRun => raise AssertionError
  | Some PoolTerminated => ret tt
  end.

(** [self.pool.map_async(f, jobs).get()]: one result per job, in order; a
    failing job raises. *)
Definition pool_map {A B} (f : A → result B) (jobs : list A) : M (list B) :=
  s ← get;
  match pool s with
  | None => raise AttributeError
  | Some PoolTerminated => raise AssertionError
  | Some PoolRun => lift (result_mapM f jobs)
  end.

(** *** File system *)

Definition os_listdir (f : FileSystem) (d : string) : result (list string) :=
  match fs_dirs f !! d with
  | Some l => Ok l
  | None => Raise OSError
  end.

Definition joblib_load (f : FileSystem) (path : string) : result Checkpoint :=
  match fs_files f !! path with
  | Some cp => Ok cp
  | None => Raise IOError
  end.

Definition os_path_exists (f : FileSystem) (path : string) : bool :=
  bool_decide (is_Some (fs_dirs f !! path)) || bool_decide (is_Some (fs_files f !! path)).

Definition add_entry (name : string) (entries : list string) : list string :=
  if bool_decide (name ∈ entries) then entries else name :: entries.

(** [os.makedirs(os.path.join(root, name))]: the directory is created empty
    and entered in its parent, which is created when missing. *)
Definition os_makedirs (f : FileSystem) (root name : string) : FileSystem :=
  {| fs_dirs := <[path_join2 root name := []]>
                  (<[root := add_entry name (default [] (fs_dirs f !! root))]> (fs_dirs f));
     fs_files := fs_files f |}.

(** [joblib.dump(cp, os.path.join(directory, file))]. *)
Definition joblib_dump (f : FileSystem) (directory file : string) (cp : Checkpoint)
    : FileSystem :=
  {| fs_dirs := <[directory := add_entry file (default [] (fs_dirs f !! directory))]> (fs_dirs f);
     fs_files := <[path_join2 directory file := cp]> (fs_files f) |}.

(** ** Gradient aggregation (the parallel path of [_step], lines 283-286) *)

(** [grads[p] = np.mean([grad[p] for grad in gradses], axis=0)] for every
    parameter name, in iteration order. *)
Fixpoint mean_grads (keys : list string) (gradses : list (gmap string array))
    (grads : gmap string array) : result (gmap string array) :=
  match keys with
  | [] => Ok grads
  | p :: keys' =>
      match result_mapM (λ grad : gmap string array, dict_get grad p) gradses with
      | Raise e => Raise e
      | Ok arrs =>
          match np_mean_axis0 arrs with
          | Raise e => Raise e
          | Ok m => mean_grads keys' gradses (<[p := m]> grads)
          end
      end
  end.

Definition aggregate (ps : gmap string array) (results : list (Q * gmap string array))
    : result (Q * gmap string array) :=
  let losses := map fst results in
  let gradses := map snd results in
  let loss := np_mean losses in
  match mean_grads (map fst (map_to_list ps)) gradses ∅ with
  | Raise e => Raise e
  | Ok grads => Ok (loss, grads)
  end.

(** What [check_accuracy] returns: the accuracy, or the predictions. *)
Inductive eval_result : Type :=
  | Acc (q : Q)
  | Preds (l : list Z).

Definition is_None {A} (o : option A) : bool :=
  match o with None => true | Some _ => false end.

(** [len(secs_per_batch[-print_every:])] when [n] timings were recorded. *)
Definition secs_slice_len (n pe : Z) : Z :=
  if (0 <? pe)%Z then Z.min pe n
  else if (pe =? 0)%Z then n
  else Z.max (n + pe) 0.

(** ** The solver *)

Section Solver.

Variable c : Config.

(** [np.random.choice(a, size)]: [size] indices below [a], read off the
    generator's stream. *)
Definition np_random_choice (a size : Z) : M (list Z) :=
  if ((a <=? 0) || (size <? 0))%Z then raise ValueError
  else
    s ← get;
    modify (set_rng (rng s + Z.to_nat size));;
    ret (map (λ i, (Z.of_nat (rand c (rng s + i)) mod a)%Z) (seq 0 (Z.to_nat size))).

(** [{k: v for k, v in self.optim_config.iteritems()}]: a new dictionary
    holding the same values. *)
Definition copy_items (d : gmap string pyval) : gmap string pyval :=
  list_to_map (map_to_list d).

(** Lines 221-242. *)
Definition _reset : M unit :=
  modify (set_epoch 0);;
  modify (set_best_val_acc 0);;
  modify (set_best_params ∅);;
  modify (set_loss_history []);;
  modify (set_train_acc_history []);;
  modify (set_val_acc_history []);;
  modify (set_optim_configs ∅);;
  s ← get;
  for_each (map fst (map_to_list (params s)))
    (λ p, modify (λ s, set_optim_configs
                         (<[p := copy_items (optim_config c)]> (optim_configs s)) s));;
  modify (set_multiprocessing (negb (num_processes c - 1 =? 0)%Z));;
  s ← get;
  if multiprocessing s then mp_Pool (num_processes c) else ret tt.

(** The parallel branch of [_step] (lines 263-286). *)
Definition parallel_loss (X_batch : list array) (y_batch : list Z)
    : M (Q * gmap string array) :=
  let n := num_processes c in
  s ← get;
  match pool s with None => raise AttributeError | Some _ => ret tt end;;
  X_batches ← lift (array_split X_batch n);
  y_batches ← lift (array_split y_batch n);
  results ← try_except
    (job_args ← lift (result_mapM
                       (λ i, result_bind (list_get X_batches i) (λ x,
                             result_bind (list_get y_batches i) (λ y, Ok (x, y))))
                       (seq 0 (Z.to_nat n)));
     pool_map (λ job : list array * list Z, loss (model c) (params s) job.1 job.2) job_args)
    (λ e, pool_terminate;; pool_join;; raise e);
  lift (aggregate (params s) results).

(** One pass of the update loop of [_step] (lines 291-296). *)
Definition update_param (grads : gmap string array) (pw : string * array) : M unit :=
  dw ← lift (dict_get grads pw.1);
  s ← get;
  config ← lift (dict_get (optim_configs s) pw.1);
  r ← lift (update_rule c (heap s) pw.2 dw config);
  modify (set_heap r.2);;
  modify (λ s, set_params (<[pw.1 := r.1.1]> (params s)) s);;
  modify (λ s, set_optim_configs (<[pw.1 := r.1.2]> (optim_configs s)) s).

(** Lines 250-286: draw the minibatch, compute the loss and the gradients. *)
Definition compute_loss : M (Q * gmap string array) :=
  let num_train := Z.of_nat (length (X_train c)) in
  batch_mask ← np_random_choice num_train (batch_size c);
  X_batch ← lift (np_take (X_train c) batch_mask);
  y_batch ← lift (np_take (y_train c) batch_mask);
  X_batch ← match batch_augment_func c with
            | Some f => lift (f X_batch)
            | None => ret X_batch
            end;
  s ← get;
  if negb (multiprocessing s)
  then lift (loss (model c) (params s) X_batch y_batch)
  else parallel_loss X_batch y_batch.

(** Lines 291-296: the parameter update. *)
Definition apply_updates (grads : gmap string array) : M unit :=
  s ← get;
  for_each (map_to_list (params s)) (update_param grads).

(** Lines 244-296. *)
Definition _step : M unit :=
  lg ← compute_loss;
  modify (λ s, set_loss_history (loss_history s ++ [lg.1]) s);;
  apply_updates lg.2.

(** Predictions for one chunk (lines 376-389): one array in the single
    path, one per worker in the parallel path. *)
Definition predict_chunk (chunk : list array) : M (list (list Z)) :=
  s ← get;
  if negb (multiprocessing s) then
    scores ← lift (loss_scores (model c) (params s) chunk);
    p ← lift (np_argmax_axis1 scores);
    ret [p]
  else
    X_subs ← lift (array_split chunk (num_processes c));
    try_except
      (results ← pool_map (loss_scores (model c) (params s)) X_subs;
       lift (result_mapM np_argmax_axis1 results))
      (λ e, pool_terminate;; pool_join;; raise e).

(** The condition of the [assert] on line 355. *)
Definition labels_contract (y : option (list Z)) (return_preds : bool) : bool :=
  (is_None y && return_preds) || negb (is_None y && return_preds).

(** Lines 357-363: maybe subsample the data. *)
Definition subsample (X : list array) (y : option (list Z)) (num_samples : option Z)
    : M (Z * list array * option (list Z)) :=
  let N := Z.of_nat (length X) in
  match num_samples with
  | Some ns =>
      if (N >? ns)%Z then
        mask ← np_random_choice N ns;
        X' ← lift (np_take X mask);
        y' ← match y with
             | None => raise TypeError
             | Some yy => yy' ← lift (np_take yy mask); ret (Some yy')
             end;
        ret (ns, X', y')
      else ret (N, X, y)
  | None => ret (N, X, y)
  end.

(** Lines 365-391: compute the predictions in batches. *)
Definition predictions (N : Z) (X : list array) (bs : Z) : M (list Z) :=
  q ← lift (py_floordiv N bs);
  r ← lift (py_mod N bs);
  let num_batches := if negb (r =? 0)%Z then (q + 1)%Z else q in
  y_pred ← collect (xrange num_batches)
             (λ i, predict_chunk (py_slice X (i * bs) ((i + 1) * bs)));
  lift (np_hstack y_pred).

(** Lines 339-396.  [bs] is the [batch_size] argument. *)
Definition check_accuracy (X : list array) (y : option (list Z))
    (num_samples : option Z) (bs : Z) (return_preds : bool) : M eval_result :=
  (if labels_contract y return_preds then ret tt else raise AssertionError);;
  sub ← subsample X y num_samples;
  y_pred ← predictions sub.1.1 sub.1.2 bs;
  if return_preds then ret (Preds y_pred)
  else ret (Acc (accuracy_of y_pred sub.2)).

(** Lines 319-337. *)
Definition make_check_point : M unit :=
  s ← get;
  let checkpoints :=
    {| cp_model := Some (params s);
       cp_epoch := Some (epoch s);
       cp_best_params := Some (best_params s);
       cp_best_val_acc := Some (best_val_acc s);
       cp_loss_history := Some (loss_history s);
       cp_train_acc_history := Some (train_acc_history s);
       cp_val_acc_history := Some (val_acc_history s) |} in
  let name := ("check_" ++ py_str (epoch s))%string in
  let directory := path_join2 (path_checkpoints c) name in
  (if negb (os_path_exists (fs s) directory)
   then modify (λ s, set_fs (os_makedirs (fs s) (path_checkpoints c) name) s)
   else ret tt);;
  modify (λ s, set_fs (joblib_dump (fs s) directory (name ++ ".pkl") checkpoints) s).

(** [cp[key]] on the loaded dictionary. *)
Definition cp_get {A} (o : option A) : result A :=
  match o with Some v => Ok v | None => Raise KeyError end.

(** Lines 298-317.  The listing of the directory precedes the [try]. *)
Definition load_current_checkpoint : M unit :=
  s ← get;
  checkpoints ← lift (match load_dir c with
                      | Some d => os_listdir (fs s) d
                      | None => Raise TypeError
                      end);
  try_except
    (nums ← lift (result_mapM
                   (λ f, result_bind (list_get (py_split_underscore f) 1) py_int_of_string)
                   checkpoints);
     num ← lift (py_max nums);
     let name := ("check_" ++ py_str num)%string in
     cp ← lift (joblib_load (fs s) (path_join3 (path_checkpoints c) name (name ++ ".pkl")));
     v ← lift (cp_get (cp_epoch cp)); modify (set_epoch v);;
     v ← lift (cp_get (cp_best_val_acc cp)); modify (set_best_val_acc v);;
     v ← lift (cp_get (cp_best_params cp)); modify (set_best_params v);;
     v ← lift (cp_get (cp_loss_history cp)); modify (set_loss_history v);;
     v ← lift (cp_get (cp_train_acc_history cp)); modify (set_train_acc_history v);;
     v ← lift (cp_get (cp_val_acc_history cp)); modify (set_val_acc_history v))
    (λ _, _reset).

(** [epoch_end] of line 414. *)
Definition is_epoch_end (iterations_per_epoch it : Z) : result bool :=
  result_bind (py_mod (it + 1) iterations_per_epoch) (λ r, Ok (r =? 0)%Z).

(** The evaluation gate of lines 414-421. *)
Definition gate (iterations_per_epoch num_iterations it : Z) : result bool :=
  result_bind (is_epoch_end iterations_per_epoch it) (λ epoch_end,
  let first_it := (it =? 0)%Z in
  let last_it := (it =? num_iterations + 1)%Z in
  result_bind (if verbose c
               then result_bind (py_mod (it + 1) (print_every c)) (λ r, Ok (r =? 0)%Z)
               else Ok false) (λ verb,
  Ok (first_it || last_it || epoch_end || verb))).

(** Lines 437-441: keep the parameters when the accuracy improves. *)
Definition keep_best (val_acc : Q) : M unit :=
  s ← get;
  if negb (Qle_bool val_acc (best_val_acc s)) then
    modify (set_best_val_acc val_acc);;
    modify (set_best_params ∅);;
    s ← get;
    for_each (map_to_list (params s))
      (λ kv, modify (λ s, set_best_params (<[kv.1 := kv.2]> (best_params s)) s))
  else ret tt.

(** Lines 422-445, run when the gate is open.  Both calls ask for the
    accuracy, so the last branch is never taken. *)
Definition evaluate (it : Z) : M unit :=
  r1 ← check_accuracy (X_train c) (Some (y_train c)) (Some 1000%Z) 100 false;
  r2 ← check_accuracy (X_val c) (Some (y_val c)) None 100 false;
  match r1, r2 with
  | Acc train_acc, Acc val_acc =>
      (if verbose c && (secs_slice_len (it + 1) (print_every c) =? 0)%Z
       then raise ZeroDivisionError else ret tt);;
      modify (λ s, set_train_acc_history (train_acc_history s ++ [train_acc]) s);;
      modify (λ s, set_val_acc_history (val_acc_history s ++ [val_acc]) s);;
      keep_best val_acc
  | _, _ => raise TypeError
  end.

(** [self.optim_configs[k]['learning_rate'] *= self.lr_decay]: a float is
    replaced in the dictionary, an array is scaled in place. *)
Definition decay_learning_rate (k : string) : M unit :=
  s ← get;
  config ← lift (dict_get (optim_configs s) k);
  lr ← lift (dict_get config "learning_rate");
  match lr with
  | PyFloat q =>
      modify (set_optim_configs
                (<[k := <["learning_rate" := PyFloat (q * lr_decay s)]> config]>
                   (optim_configs s)))
  | PyArr l =>
      modify (set_heap (alter (map (λ x, (x * lr_decay s)%Q)) l (heap s)))
  end.

(** Line 451-453: a custom schedule replaces the decay factor. *)
Definition update_decay : M unit :=
  match custom_update_ld c with
  | Some f => s ← get; d ← lift (f (epoch s)); modify (set_lr_decay d)
  | None => ret tt
  end.

(** Lines 454-458: every config's learning rate is decayed. *)
Definition decay_all : M unit :=
  s ← get;
  for_each (map fst (map_to_list (optim_configs s))) decay_learning_rate.

(** Lines 459-460. *)
Definition maybe_check_point : M unit :=
  s ← get;
  when (negb (check_point_every c =? 0)%Z && (epoch s mod check_point_every c =? 0)%Z)
       make_check_point.

(** Lines 447-460, run at the end of an epoch. *)
Definition end_epoch : M unit :=
  modify (λ s, set_epoch (epoch s + 1) s);;
  update_decay;;
  decay_all;;
  maybe_check_point.

(** The body of the loop of [train]. *)
Definition train_iteration (iterations_per_epoch num_iterations it : Z) : M unit :=
  _step;;
  epoch_end ← lift (is_epoch_end iterations_per_epoch it);
  g ← lift (gate iterations_per_epoch num_iterations it);
  when g (evaluate it);;
  when epoch_end end_epoch.

(** Line 403. *)
Definition iterations_per_epoch_of (num_train bs : Z) : result Z :=
  result_bind (py_floordiv num_train bs) (λ q, Ok (Z.max q 1)).

(** Line 404. *)
Definition num_iterations_of (ipe : Z) : Z :=
  py_int (num_epochs c * inject_Z ipe).

(** Lines 402-460: the loop of [train].  It hands back
    [iterations_per_epoch] and [num_iterations], which the statements about
    a run refer to. *)
Definition train_loop : M (Z * Z) :=
  let num_train := Z.of_nat (length (X_train c)) in
  iterations_per_epoch ← lift (iterations_per_epoch_of num_train (batch_size c));
  let num_iterations := num_iterations_of iterations_per_epoch in
  for_each (xrange num_iterations) (train_iteration iterations_per_epoch num_iterations);;
  ret (iterations_per_epoch, num_iterations).

(** Lines 398-465: the loop, then the swap of the best snapshot into the
    model and the release of the pool. *)
Definition train : M unit :=
  train_loop;;
  modify (λ s, set_params (best_params s) s);;
  pool_terminate;;
  pool_join.

End Solver.

(** ** Construction *)

(** The keyword arguments of the constructor; [kw_extra] lists the names of
    the keywords it does not know. *)
Record Kwargs : Type := {
  kw_update_rule : option string;
  kw_optim_config : option (gmap string pyval);
  kw_lr_decay : option Q;
  kw_batch_size : option Z;
  kw_num_epochs : option Q;
  kw_print_every : option Z;
  kw_verbose : option bool;
  kw_load_dir : option string;
  kw_path_checkpoints : option string;
  kw_check_point_every : option Z;
  kw_custom_update_ld : option (Z → result Q);
  kw_batch_augment_func : option (list array → result (list array));
  kw_num_processes : option Z;
  kw_extra : list string;
}.

Record Data : Type := {
  data_X_train : list array;
  data_y_train : list Z;
  data_X_val : list array;
  data_y_val : list Z;
}.

(** Lines 166-198: unpack the keywords, refuse unknown ones, resolve the
    update rule in the registry [optim]. *)
Definition unpack (optim : gmap string update_rule_t) (m : Model) (data : Data)
    (kw : Kwargs) (rnd : nat → nat) : result Config :=
  if negb (Nat.eqb (length (kw_extra kw)) 0) then Raise ValueError
  else
    match optim !! default "sgd"%string (kw_update_rule kw) with
    | None => Raise ValueError
    | Some rule =>
        Ok {| model := m;
              X_train := data_X_train data;
              y_train := data_y_train data;
              X_val := data_X_val data;
              y_val := data_y_val data;
              update_rule := rule;
              optim_config := default ∅ (kw_optim_config kw);
              batch_size := default 100%Z (kw_batch_size kw);
              num_epochs := default 10%Q (kw_num_epochs kw);
              print_every := default 10%Z (kw_print_every kw);
              verbose := default true (kw_verbose kw);
              load_dir := kw_load_dir kw;
              path_checkpoints := default "checkpoints"%string (kw_path_checkpoints kw);
              check_point_every := default 0%Z (kw_check_point_every kw);
              custom_update_ld := kw_custom_update_ld kw;
              batch_augment_func := kw_batch_augment_func kw;
              num_processes := default 1%Z (kw_num_processes kw);
              rand := rnd |}
    end.

(** The attributes before [_reset] has run. *)
Definition blank (ps : gmap string array) (kw : Kwargs)
    (h : gmap positive array) (f : FileSystem) : Solver :=
  {| params := ps; epoch := 0; best_val_acc := 0; best_params := ∅;
     loss_history := []; train_acc_history := []; val_acc_history := [];
     optim_configs := ∅; lr_decay := default 1%Q (kw_lr_decay kw);
     multiprocessing := false; pool := None; heap := h; rng := 0; fs := f |}.

(** [if self.load_dir:] — [False] and the empty string are falsy. *)
Definition load_dir_set (c : Config) : bool :=
  match load_dir c with
  | Some d => negb (String.eqb d "")
  | None => false
  end.

(** Lines 200-202. *)
Definition start (c : Config) : M unit :=
  _reset c;;
  when (load_dir_set c) (load_current_checkpoint c).

(** Lines 118-202. *)
Definition __init__ (optim : gmap string update_rule_t) (m : Model)
    (ps : gmap string array) (data : Data) (kw : Kwargs)
    (h : gmap positive array) (f : FileSystem) (rnd : nat → nat)
    : result (Config * Solver) :=
  match unpack optim m data kw rnd with
  | Raise e => Raise e
  | Ok c =>
      match start c (blank ps kw h f) with
      | (s, Ok _) => Ok (c, s)
      | (_, Raise e) => Raise e
      end
  end.

(** ** Observations and side conditions used by the statements below *)

(** The learning rate a parameter's config yields when read: a float as it
    is, an array through the heap. *)
Definition read_learning_rate (s : Solver) (p : string) : option array :=
  match optim_configs s !! p with
  | None => None
  | Some config =>
      match config !! "learning_rate"%string with
      | Some (PyFloat q) => Some [q]
      | Some (PyArr l) => heap s !! l
      | None => None
      end
  end.

(** Whether the gate of iteration [it] is open. *)
Definition gate_open (c : Config) (ipe num_iterations it : Z) : bool :=
  match gate c ipe num_iterations it with
  | Ok true => true
  | _ => false
  end.

(** The number of iterations of a run whose gate is open. *)
Definition gate_triggers (c : Config) (ipe num_iterations : Z) : nat :=
  length (filter (λ it, gate_open c ipe num_iterations it = true) (xrange num_iterations)).

(** The collaborators keep their contracts: the model gives a gradient of
    the parameter's shape for every parameter and a non-empty score row per
    item it scores, the update rule gives back a config with a learning
    rate, and none of them raises. *)
Record collaborators_ok (c : Config) : Prop := {
  loss_ok : ∀ ps X y, ∃ l g,
      loss (model c) ps X y = Ok (l, g)
      ∧ ∀ p w, ps !! p = Some w → ∃ a, g !! p = Some a ∧ length a = length w;
  scores_ok : ∀ ps X, ∃ sc,
      loss_scores (model c) ps X = Ok sc ∧ Forall (λ row, row ≠ []) sc;
  rule_ok : ∀ h w dw config, ∃ w' config' h',
      update_rule c h w dw config = Ok (w', config', h')
      ∧ is_Some (config' !! "learning_rate"%string);
  augment_ok : ∀ f, batch_augment_func c = Some f → ∀ X, ∃ X', f X = Ok X';
  decay_ok : ∀ f, custom_update_ld c = Some f → ∀ e, ∃ d, f e = Ok d;
}.

(** A configuration train() can run on: a positive batch size, a training
    set that is not empty and has a label per item, a validation set that is
    not empty, a positive printing cadence when verbose, at least one
    process. *)
Record config_ok (c : Config) : Prop := {
  batch_size_pos : (0 < batch_size c)%Z;
  train_nonempty : X_train c ≠ [];
  train_labelled : length (y_train c) = length (X_train c);
  val_nonempty : X_val c ≠ [];
  print_every_pos : verbose c = true → (0 < print_every c)%Z;
  num_processes_pos : (1 ≤ num_processes c)%Z;
}.

(** The pool is usable whenever the solver is set to use it. *)
Definition pool_ready (s : Solver) : Prop :=
  multiprocessing s = true → pool s = Some PoolRun.

(** What [_reset] establishes and every step keeps: one optimizer config per
    parameter, and a running pool when the pool is in use. *)
Record ready (s : Solver) : Prop := {
  configs_cover : dom (optim_configs s) = dom (params s);
  pool_runs : pool_ready s;
}.

(** ** Concrete inputs *)

(** The number a hyperparameter stands for: a float itself, an array's first
    entry. *)
Definition scalar_of (h : gmap positive array) (v : pyval) : Q :=
  match v with
  | PyFloat q => q
  | PyArr l => match h !! l with
               | Some (q :: _) => q
               | _ => 0
               end
  end.

(** Vanilla SGD of [optim.py]: [config.setdefault('learning_rate', 1e-2)],
    then [next_w = w - learning_rate * dw]. *)
Definition sgd : update_rule_t := λ h w dw config,
  let config' :=
    match config !! "learning_rate"%string with
    | Some _ => config
    | None => <["learning_rate"%string := PyFloat (1 # 100)]> config
    end in
  let lr := scalar_of h (default (PyFloat (1 # 100)) (config' !! "learning_rate"%string)) in
  Ok (map (λ p : Q * Q, Qred (p.1 - lr * p.2)) (combine w dw), config', h).

Definition optim_registry : gmap string update_rule_t := {[ "sgd"%string := sgd ]}.

(** The scores of an item are its features; an item without features gets
    one score. *)
Definition feature_scores (x : array) : list Q :=
  match x with
  | [] => [0%Q]
  | _ => x
  end.

(** A model that classifies an item by its largest feature.  Its loss is
    constant with unit gradients. *)
Definition feature_model : Model :=
  {| loss := λ ps X y, Ok ((1 # 2)%Q, (λ w : array, map (λ _, 1%Q) w) <$> ps);
     loss_scores := λ ps X, Ok (map feature_scores X) |}.

(** A model that classifies every two-class item as the other class. *)
Definition contrary_model : Model :=
  {| loss := λ ps X y, Ok ((1 # 2)%Q, (λ w : array, map (λ _, 1%Q) w) <$> ps);
     loss_scores := λ ps X, Ok (map (λ x, feature_scores (rev x)) X) |}.

Definition item0 : array := [1%Q; 0%Q].
Definition item1 : array := [0%Q; 1%Q].

(** Eight training items and two validation items of two classes. *)
Definition two_class_data : Data :=
  {| data_X_train := [item0; item1; item0; item1; item0; item1; item0; item1];
     data_y_train := [0; 1; 0; 1; 0; 1; 0; 1]%Z;
     data_X_val := [item0; item1];
     data_y_val := [0; 1]%Z |}.

Definition two_params : gmap string array :=
  {[ "W1"%string := [1%Q; 2%Q]; "W2"%string := [0%Q] ]}.

(** Keywords [batch_size=4, verbose=False] with the given epoch count,
    process count, optimizer config, decay and resume directory. *)
Definition keywords (epochs : Q) (processes : option Z)
    (config : option (gmap string pyval)) (decay : option Q)
    (resume : option string) : Kwargs :=
  {| kw_update_rule := None; kw_optim_config := config; kw_lr_decay := decay;
     kw_batch_size := Some 4%Z; kw_num_epochs := Some epochs;
     kw_print_every := None; kw_verbose := Some false; kw_load_dir := resume;
     kw_path_checkpoints := None; kw_check_point_every := None;
     kw_custom_update_ld := None; kw_batch_augment_func := None;
     kw_num_processes := processes; kw_extra := [] |}.

Definition empty_fs : FileSystem := {| fs_dirs := ∅; fs_files := ∅ |}.

(** The configuration the constructor derives from the keywords. *)
Definition config_of (m : Model) (kw : Kwargs) : Config :=
  match unpack optim_registry m two_class_data kw (λ n, n) with
  | Ok c => c
  | Raise _ =>
      {| model := m; X_train := []; y_train := []; X_val := []; y_val := [];
         update_rule := sgd; optim_config := ∅; batch_size := 0; num_epochs := 0;
         print_every := 0; verbose := false; load_dir := None;
         path_checkpoints := ""; check_point_every := 0; custom_update_ld := None;
         batch_augment_func := None; num_processes := 0; rand := λ n, n |}
  end.

(** The solver right after construction. *)
Definition fresh (m : Model) (kw : Kwargs) (h : gmap positive array)
    (f : FileSystem) : Solver :=
  (start (config_of m kw) (blank two_params kw h f)).1.

(** One epoch with the default single process. *)
Definition single_kw : Kwargs := keywords 1 None None None None.

(** No epoch at all, single process. *)
Definition degenerate_kw : Kwargs := keywords 0 None None None None.

(** One epoch on a pool of two processes. *)
Definition pooled_kw : Kwargs := keywords 1 (Some 2%Z) None None None.

(** One epoch and a half on a pool of two processes. *)
Definition fractional_kw : Kwargs := keywords (3 # 2) (Some 2%Z) None None None.

(** The learning rate is handed over as a one-entry array at address 1. *)
Definition shared_lr_kw : Kwargs :=
  keywords 1 (Some 2%Z) (Some {[ "learning_rate"%string := PyArr 1 ]}) (Some (1 # 2)) None.

Definition shared_lr_heap : gmap positive array := {[ 1%positive := [1 # 10] ]}.

(** Resume from the directory [runs]. *)
Definition resume_kw : Kwargs := keywords 1 None None None (Some "runs"%string).

(** A file system in which [runs] exists and is empty. *)
Definition fs_empty_runs : FileSystem :=
  {| fs_dirs := {[ "runs"%string := [] ]}; fs_files := ∅ |}.

(** A minibatch of four items, its two shards, and what the two workers
    report for them under [feature_model]. *)
Definition batch_X : list array := [item0; item1; item0; item1].
Definition batch_y : list Z := [0; 1; 0; 1]%Z.
Definition shards_X : list (list array) := [[item0; item1]; [item0; item1]].
Definition shards_y : list (list Z) := [[0; 1]; [0; 1]]%Z.
Definition unit_gradients : gmap string array :=
  (λ w : array, map (λ _, 1%Q) w) <$> two_params.
Definition shard_reports : list (Q * gmap string array) :=
  [((1 # 2)%Q, unit_gradients); ((1 # 2)%Q, unit_gradients)].

(** The evaluation gate as the specification words it: the very first
    iteration, or the final iteration, or an iteration that completes an
    epoch, or a verbose reporting boundary. *)
Definition gate_as_specified (c : Config) (ipe num_iterations it : Z) : bool :=
  (it =? 0)%Z || (it =? num_iterations - 1)%Z || ((it + 1) mod ipe =? 0)%Z
  || (verbose c && ((it + 1) mod print_every c =? 0)%Z).

(** The elementwise arithmetic mean, as the specification words it: entry
    [i] of the mean of [arrs] is the sum of the entries [i] divided by the
    number of arrays. *)
Definition elementwise_mean (arrs : list array) (i : nat) : Q :=
  (Qsum (map (λ a, nth i a 0%Q) arrs) / inject_Z (Z.of_nat (length arrs)))%Q.

(** The gradient arrays the shards report for parameter [p]. *)
Definition shard_gradients (p : string) (results : list (Q * gmap string array))
    : list array :=
  map (λ r : Q * gmap string array, default [] (r.2 !! p)) results.

(** ** Frames *)

(** [m] relates every state it is run in to the state it leaves, whether it
    returns or raises. *)
Definition keeps {A} (R : Solver → Solver → Prop) (m : M A) : Prop :=
  ∀ s, R s (m s).1.

(** Nothing but the generator position and the pool has changed. *)
Record same_training (s s' : Solver) : Prop := {
  st_params : params s' = params s;
  st_epoch : epoch s' = epoch s;
  st_best_val_acc : best_val_acc s' = best_val_acc s;
  st_best_params : best_params s' = best_params s;
  st_loss_history : loss_history s' = loss_history s;
  st_train_acc_history : train_acc_history s' = train_acc_history s;
  st_val_acc_history : val_acc_history s' = val_acc_history s;
  st_optim_configs : optim_configs s' = optim_configs s;
  st_lr_decay : lr_decay s' = lr_decay s;
  st_multiprocessing : multiprocessing s' = multiprocessing s;
  st_heap : heap s' = heap s;
  st_fs : fs s' = fs s;
}.

(** The value of one attribute is as it was. *)
Definition agree_on {X} (f : Solver → X) (s s' : Solver) : Prop := f s' = f s.

(** Every optimizer config holds a learning rate. *)
Definition configs_have_lr (s : Solver) : Prop :=
  ∀ k config, optim_configs s !! k = Some config → is_Some (config !! "learning_rate"%string).

(** The histories, the epoch counter and the pool are as they were. *)
Record book_kept (s s' : Solver) : Prop := {
  bk_epoch : epoch s' = epoch s;
  bk_loss_history : loss_history s' = loss_history s;
  bk_train_acc_history : train_acc_history s' = train_acc_history s;
  bk_val_acc_history : val_acc_history s' = val_acc_history s;
  bk_multiprocessing : multiprocessing s' = multiprocessing s;
  bk_pool : pool s' = pool s;
}.

(** The histories have only been appended to, the two accuracy histories by
    as many entries. *)
Definition histories_grow (s s' : Solver) : Prop :=
  ∃ losses ta va,
    loss_history s' = loss_history s ++ losses
    ∧ train_acc_history s' = train_acc_history s ++ ta
    ∧ val_acc_history s' = val_acc_history s ++ va
    ∧ length ta = length va.

(** A pool that was never created is still missing. *)
Definition pool_absent (s s' : Solver) : Prop :=
  pool s = None → pool s' = None.

(** ** Checkpoint names *)

(** The name [make_check_point] gives the checkpoint of epoch [e]
    (line 332). *)
Definition checkpoint_name (e : Z) : string := "check_" +:+ py_str e.


(** Every character of the string passes the test. *)
Fixpoint all_chars (p : ascii → bool) (s : string) : bool :=
  match s with
  | EmptyString => true
  | String c s' => p c && all_chars p s'
  end.

(** The test holds of the ten digits. *)
Definition passes_digits (p : ascii → bool) : bool :=
  p "0"%char && p "1"%char && p "2"%char && p "3"%char && p "4"%char
  && p "5"%char && p "6"%char && p "7"%char && p "8"%char && p "9"%char.

(** Any character but the path separator. *)
Definition not_slash (c : ascii) : bool := negb (c =? "/")%char.

(** ** Restored states and decayed configs *)

(** The state with the six attributes a checkpoint records set
    (lines 309-314). *)
Definition restored (e : Z) (a : Q) (bp : gmap string array) (lh th vh : list Q)
    (s : Solver) : Solver :=
  set_val_acc_history vh (set_train_acc_history th (set_loss_history lh
    (set_best_params bp (set_best_val_acc a (set_epoch e s))))).

(** The config holds a float learning rate. *)
Definition has_float_lr (config : gmap string pyval) : bool :=
  match config !! "learning_rate"%string with
  | Some (PyFloat _) => true
  | _ => false
  end.

(** Every parameter's learning rate is a float. *)
Definition float_learning_rates (s : Solver) : Prop :=
  map_Forall (λ _ config, has_float_lr config = true) (optim_configs s).

(** The config with its float learning rate multiplied by [d]. *)
Definition decayed (d : Q) (config : gmap string pyval) : gmap string pyval :=
  match config !! "learning_rate"%string with
  | Some (PyFloat q) => <["learning_rate"%string := PyFloat (q * d)]> config
  | _ => config
  end.

(** ** More concrete inputs *)

(** A float learning rate of 0.1 and a decay factor of 0.5. *)
Definition float_lr_kw : Kwargs :=
  keywords 1 None (Some {[ "learning_rate"%string := PyFloat (1 # 10) ]}) (Some (1 # 2)) None.

(** The class [feature_model] predicts for an item. *)
Definition feature_class (x : array) : Z :=
  match np_argmax (feature_scores x) with
  | Ok k => k
  | Raise _ => 0
  end.


(** ** Invariants of the training loop *)

(** The parameter store and the optimizer configs have the names they
    had. *)
Definition names_kept (s s' : Solver) : Prop :=
  dom (params s') = dom (params s) ∧ dom (optim_configs s') = dom (optim_configs s).

(** The best accuracy has not decreased, bounds every validation accuracy
    appended since, and is the value it had or one of those appended. *)
Definition best_tracked (s s' : Solver) : Prop :=
  ∃ va, val_acc_history s' = val_acc_history s ++ va
    ∧ Forall (λ v, (v <= best_val_acc s')%Q) va
    ∧ (best_val_acc s <= best_val_acc s')%Q
    ∧ (best_val_acc s' = best_val_acc s ∨ best_val_acc s' ∈ va).

(** * Properties *)

(** ** The monad *)

Lemma bind_ok {A B} (m : M A) (k : A → M B) s s1 a :
  m s = (s1, Ok a) → (m ≫= k) s = k a s1.
Proof. intros H. unfold mbind, M_bind, bind. by rewrite H. Qed.

Section Frame.

Context (R : Solver → Solver → Prop).
Context (R_refl : ∀ s, R s s).
Context (R_trans : ∀ s1 s2 s3, R s1 s2 → R s2 s3 → R s1 s3).

Lemma keeps_ret {A} (a : A) : keeps R (ret a).
Proof. intros s. apply R_refl. Qed.

Lemma keeps_mret {A} (a : A) : keeps R (mret a : M A).
Proof. intros s. apply R_refl. Qed.

Lemma keeps_raise {A} e : keeps R (raise e : M A).
Proof. intros s. apply R_refl. Qed.

Lemma keeps_lift {A} (r : result A) : keeps R (lift r).
Proof. intros s. apply R_refl. Qed.

Lemma keeps_get : keeps R get.
Proof. intros s. apply R_refl. Qed.

Lemma keeps_modify f : (∀ s, R s (f s)) → keeps R (modify f).
Proof. intros H s. apply H. Qed.

Lemma keeps_bind {A B} (m : M A) (k : A → M B) :
  keeps R m → (∀ a, keeps R (k a)) → keeps R (m ≫= k).
Proof.
  intros Hm Hk s. unfold mbind, M_bind, bind.
  specialize (Hm s). destruct (m s) as [s1 [a|e]]; simpl in *.
  - eapply R_trans; [exact Hm | apply Hk].
  - exact Hm.
Qed.

Lemma keeps_when b m : keeps R m → keeps R (when b m).
Proof. intros Hm. destruct b; simpl; [exact Hm | apply keeps_ret]. Qed.

Lemma keeps_for_each {A} (l : list A) body :
  (∀ x, keeps R (body x)) → keeps R (for_each l body).
Proof.
  intros Hb. induction l as [|x l IH]; simpl.
  - apply keeps_ret.
  - apply keeps_bind; [apply Hb | intros _; exact IH].
Qed.

Lemma keeps_collect {A B} (l : list A) (body : A → M (list B)) :
  (∀ x, keeps R (body x)) → keeps R (collect l body).
Proof.
  intros Hb. induction l as [|x l IH]; simpl.
  - apply keeps_ret.
  - apply keeps_bind; [apply Hb | intros ys].
    apply keeps_bind; [exact IH | intros zs; apply keeps_ret].
Qed.

Lemma keeps_try_except {A} (m : M A) h :
  keeps R m → (∀ e, keeps R (h e)) → keeps R (try_except m h).
Proof.
  intros Hm Hh s. unfold try_except. specialize (Hm s).
  destruct (m s) as [s1 [a|e]]; simpl in *.
  - exact Hm.
  - eapply R_trans; [exact Hm | apply Hh].
Qed.


Lemma keeps_modify2 f g (k : M unit) :
  (∀ s, R s (g (f s))) → keeps R k → keeps R (modify f;; modify g;; k).
Proof.
  intros Hfg Hk s. unfold mbind, M_bind, bind, modify. simpl.
  specialize (Hk (g (f s))). destruct (k (g (f s))) as [s1 r] eqn:E; simpl in *.
  assert (R s s1) by (eapply R_trans; [apply Hfg | exact Hk]).
  by destruct r.
Qed.

Ltac frame_step :=
  lazymatch goal with
  | |- keeps _ (mret _) => apply keeps_mret
  | |- keeps _ (ret _) => apply keeps_ret
  | |- keeps _ (raise _) => apply keeps_raise
  | |- keeps _ (lift _) => apply keeps_lift
  | |- keeps _ get => apply keeps_get
  | |- keeps _ (modify _) => apply keeps_modify; intros ?
  | |- keeps _ (mbind _ _) => apply keeps_bind; [| intros ?]
  | |- keeps _ (when _ _) => apply keeps_when
  | |- keeps _ (for_each _ _) => apply keeps_for_each; intros ?
  | |- keeps _ (collect _ _) => apply keeps_collect; intros ?
  | |- keeps _ (try_except _ _) => apply keeps_try_except; [| intros ?]
  | |- keeps _ (match ?x with _ => _ end) => destruct x
  end.

Ltac frame := repeat frame_step; try solve [eauto].

(** *** What each method writes *)

Context (c : Config).

Context (R_rng : ∀ v s, R s (set_rng v s)).
Context (R_pool_terminate : ∀ s, is_Some (pool s) → R s (set_pool (Some PoolTerminated) s)).

Lemma keeps_np_random_choice a size : keeps R (np_random_choice c a size).
Proof. unfold np_random_choice. frame. Qed.

Lemma keeps_pool_terminate : keeps R pool_terminate.
Proof.
  intros s. unfold pool_terminate, mbind, M_bind, bind, get. simpl.
  destruct (pool s) eqn:E; simpl.
  - apply R_pool_terminate. rewrite E. eauto.
  - apply R_refl.
Qed.

Lemma keeps_pool_join : keeps R pool_join.
Proof. unfold pool_join. frame. Qed.

Lemma keeps_pool_map {A B} (f : A → result B) jobs : keeps R (pool_map f jobs).
Proof. unfold pool_map. frame. Qed.

Lemma keeps_predict_chunk chunk : keeps R (predict_chunk c chunk).
Proof.
  unfold predict_chunk. pose proof @keeps_pool_map. pose proof keeps_pool_terminate.
  pose proof keeps_pool_join. frame.
Qed.

Lemma keeps_subsample X y ns : keeps R (subsample c X y ns).
Proof. unfold subsample. pose proof keeps_np_random_choice. frame. Qed.

Lemma keeps_predictions N X bs : keeps R (predictions c N X bs).
Proof. unfold predictions. pose proof keeps_predict_chunk. frame. Qed.

Lemma keeps_check_accuracy X y ns bs rp : keeps R (check_accuracy c X y ns bs rp).
Proof.
  unfold check_accuracy. pose proof keeps_subsample. pose proof keeps_predictions. frame.
Qed.

Lemma keeps_parallel_loss X y : keeps R (parallel_loss c X y).
Proof.
  unfold parallel_loss. pose proof @keeps_pool_map. pose proof keeps_pool_terminate.
  pose proof keeps_pool_join. frame.
Qed.

Lemma keeps_compute_loss : keeps R (compute_loss c).
Proof.
  unfold compute_loss.
  pose proof keeps_np_random_choice. pose proof keeps_parallel_loss. frame.
Qed.

Context (R_heap : ∀ v s, R s (set_heap v s)).
Context (R_params : ∀ v s, R s (set_params v s)).
Context (R_optim_configs : ∀ v s, R s (set_optim_configs v s)).
Context (R_loss_append : ∀ x s, R s (set_loss_history (loss_history s ++ [x]) s)).
Context (R_acc_append : ∀ a b s,
  R s (set_val_acc_history (val_acc_history s ++ [b])
         (set_train_acc_history (train_acc_history s ++ [a]) s))).
Context (R_best_val_acc : ∀ v s, R s (set_best_val_acc v s)).
Context (R_best_params : ∀ v s, R s (set_best_params v s)).
Context (R_epoch : ∀ v s, R s (set_epoch v s)).
Context (R_lr_decay : ∀ v s, R s (set_lr_decay v s)).
Context (R_fs : ∀ v s, R s (set_fs v s)).

Lemma keeps_update_param grads pw : keeps R (update_param c grads pw).
Proof. unfold update_param. frame. Qed.

Lemma keeps_apply_updates grads : keeps R (apply_updates c grads).
Proof. unfold apply_updates. pose proof keeps_update_param. frame. Qed.

Lemma keeps__step : keeps R (_step c).
Proof.
  unfold _step. pose proof keeps_compute_loss. pose proof keeps_apply_updates. frame.
Qed.

Lemma keeps_keep_best v : keeps R (keep_best v).
Proof. unfold keep_best. frame. Qed.

Lemma keeps_evaluate it : keeps R (evaluate c it).
Proof.
  unfold evaluate. pose proof keeps_check_accuracy.
  apply keeps_bind; [auto | intros r1]. apply keeps_bind; [auto | intros r2].
  destruct r1, r2; try (apply keeps_raise; auto).
  apply keeps_bind; [frame | intros _].
  apply keeps_modify2; [intros s; cbn; apply R_acc_append | apply keeps_keep_best].
Qed.

Lemma keeps_decay_learning_rate k : keeps R (decay_learning_rate k).
Proof. unfold decay_learning_rate. frame. Qed.

Lemma keeps_make_check_point : keeps R (make_check_point c).
Proof. unfold make_check_point. frame. Qed.

Lemma keeps_update_decay : keeps R (update_decay c).
Proof. unfold update_decay. frame. Qed.

Lemma keeps_decay_all : keeps R decay_all.
Proof. unfold decay_all. pose proof keeps_decay_learning_rate. frame. Qed.

Lemma keeps_maybe_check_point : keeps R (maybe_check_point c).
Proof. unfold maybe_check_point. pose proof keeps_make_check_point. frame. Qed.

Lemma keeps_end_epoch : keeps R (end_epoch c).
Proof.
  unfold end_epoch. pose proof keeps_update_decay. pose proof keeps_decay_all.
  pose proof keeps_maybe_check_point. frame.
Qed.

Lemma keeps_train_iteration ipe n it : keeps R (train_iteration c ipe n it).
Proof.
  unfold train_iteration. pose proof keeps__step. pose proof keeps_evaluate.
  pose proof keeps_end_epoch. frame.
Qed.

Lemma keeps_train_loop : keeps R (train_loop c).
Proof. unfold train_loop. pose proof keeps_train_iteration. frame. Qed.

Lemma keeps_train : keeps R (train c).
Proof.
  unfold train. pose proof keeps_train_loop. pose proof keeps_pool_terminate.
  pose proof keeps_pool_join. frame.
Qed.

End Frame.

(** Reduce the reads of attributes that were just written. *)
Ltac fields :=
  cbn [params epoch best_val_acc best_params loss_history train_acc_history val_acc_history optim_configs lr_decay multiprocessing pool heap rng fs
       set_params set_epoch set_best_val_acc set_best_params set_loss_history set_train_acc_history set_val_acc_history set_optim_configs set_lr_decay set_multiprocessing set_pool set_heap set_rng set_fs] in *.

(** *** Running a computation step by step *)

Lemma run_get {B} (k : Solver → M B) s : (get ≫= k) s = k s s.
Proof. reflexivity. Qed.

Lemma run_modify {B} f (k : unit → M B) s : (modify f ≫= k) s = k tt (f s).
Proof. reflexivity. Qed.

Lemma run_ret {A B} (a : A) (k : A → M B) s : (ret a ≫= k) s = k a s.
Proof. reflexivity. Qed.

Lemma run_lift {A B} (a : A) (k : A → M B) s : (lift (Ok a) ≫= k) s = k a s.
Proof. reflexivity. Qed.

Lemma run_lift_raise {A B} e (k : A → M B) s : (lift (Raise e) ≫= k) s = (s, Raise e).
Proof. reflexivity. Qed.

Lemma try_except_ok {A} (m : M A) h s s1 a :
  m s = (s1, Ok a) → try_except m h s = (s1, Ok a).
Proof. intros H. unfold try_except. by rewrite H. Qed.

(** *** The relations are preorders closed under the writes they allow *)

Lemma same_training_refl s : same_training s s.
Proof. by constructor. Qed.

Lemma same_training_trans s1 s2 s3 :
  same_training s1 s2 → same_training s2 s3 → same_training s1 s3.
Proof. intros [] []. constructor; congruence. Qed.

Lemma book_kept_refl s : book_kept s s.
Proof. by constructor. Qed.

Lemma book_kept_trans s1 s2 s3 : book_kept s1 s2 → book_kept s2 s3 → book_kept s1 s3.
Proof. intros [] []. constructor; congruence. Qed.

Lemma histories_grow_refl s : histories_grow s s.
Proof. exists [], [], []. by rewrite !app_nil_r. Qed.

Lemma histories_grow_trans s1 s2 s3 :
  histories_grow s1 s2 → histories_grow s2 s3 → histories_grow s1 s3.
Proof.
  intros (l1 & ta1 & va1 & H1 & H2 & H3 & H4) (l2 & ta2 & va2 & G1 & G2 & G3 & G4).
  exists (l1 ++ l2), (ta1 ++ ta2), (va1 ++ va2).
  rewrite G1, G2, G3, H1, H2, H3, !length_app, <- !app_assoc. auto.
Qed.

Lemma histories_grow_same s s' :
  loss_history s' = loss_history s →
  train_acc_history s' = train_acc_history s →
  val_acc_history s' = val_acc_history s →
  histories_grow s s'.
Proof. intros H1 H2 H3. exists [], [], []. by rewrite !app_nil_r. Qed.

Lemma pool_absent_refl s : pool_absent s s.
Proof. by intros ?. Qed.

Lemma pool_absent_trans s1 s2 s3 : pool_absent s1 s2 → pool_absent s2 s3 → pool_absent s1 s3.
Proof. unfold pool_absent. auto. Qed.

(** Every method of the training loop leaves a missing pool missing. *)
Lemma train_loop_pool_absent c s : pool s = None → pool (train_loop c s).1 = None.
Proof.
  apply (keeps_train_loop pool_absent pool_absent_refl pool_absent_trans c);
    try (by intros ? ? ?); try (by intros ? ? ? ?).
  intros s' [x Hx] Hn. congruence.
Qed.

(** X9.  Every run of [train], returning or raising, only appends to the
    histories, and appends as many train accuracies as val accuracies. *)
Lemma train_histories_grow c s : histories_grow s (train c s).1.
Proof.
  apply (keeps_train histories_grow histories_grow_refl histories_grow_trans c);
    try (intros; by apply histories_grow_same).
  - intros x s'. exists [x], [], []. by rewrite !app_nil_r.
  - intros a b s'. exists [], [a], [b]. by rewrite !app_nil_r.
Qed.

(** ** numpy means *)

Lemma array_add_length a b : length a = length b → length (array_add a b) = length a.
Proof.
  revert b. induction a as [|x a IH]; intros [|y b]; simpl; try done.
  intros H. f_equal. apply IH. lia.
Qed.

Lemma array_add_nth a b i :
  length a = length b → nth i (array_add a b) 0%Q = (nth i a 0 + nth i b 0)%Q ∨ length a ≤ i.
Proof.
  revert b i. induction a as [|x a IH]; intros [|y b] i; simpl; try done.
  - intros _. right. lia.
  - intros H. destruct i as [|i]; [by left|].
    destruct (IH b i) as [E|E]; [lia | by left | right; lia].
Qed.

Lemma fold_array_add rest : ∀ a0,
  Forall (λ a, length a = length a0) rest →
  length (fold_left array_add rest a0) = length a0
  ∧ ∀ i, i < length a0 →
      nth i (fold_left array_add rest a0) 0%Q
      == nth i a0 0%Q + Qsum (map (λ a, nth i a 0%Q) rest).
Proof.
  induction rest as [|a rest IH]; intros a0 Hall; simpl.
  - split; [done|]. intros i _. ring.
  - inversion Hall as [|? ? Ha Hrest]; subst.
    assert (Hlen : length (array_add a0 a) = length a0) by (apply array_add_length; lia).
    destruct (IH (array_add a0 a)) as [IH1 IH2].
    { eapply Forall_impl; [exact Hrest|]. simpl. intros b Hb. lia. }
    split; [lia|]. intros i Hi. rewrite IH2 by lia.
    destruct (array_add_nth a0 a i) as [E|E]; [lia | | lia].
    rewrite E. ring.
Qed.

Lemma np_mean_axis0_ok a0 rest :
  Forall (λ a, length a = length a0) rest →
  ∃ m, np_mean_axis0 (a0 :: rest) = Ok m
       ∧ length m = length a0
       ∧ ∀ i, i < length a0 → nth i m 0%Q == elementwise_mean (a0 :: rest) i.
Proof.
  intros Hall. unfold np_mean_axis0.
  assert (forallb (λ a : array, Nat.eqb (length a) (length a0)) rest = true) as ->.
  { apply forallb_forall. intros a Ha. apply Nat.eqb_eq.
    rewrite Forall_forall in Hall. apply Hall. by apply list_elem_of_In. }
  destruct (fold_array_add rest a0 Hall) as [H1 H2].
  eexists. split; [reflexivity|]. split; [by rewrite length_map|].
  intros i Hi. unfold elementwise_mean.
  set (N := inject_Z (Z.of_nat (length (a0 :: rest)))).
  rewrite (nth_indep _ 0%Q ((λ x, x / N)%Q 0%Q)) by (rewrite length_map; lia).
  rewrite (map_nth (λ x, (x / N)%Q)). rewrite H2 by lia. reflexivity.
Qed.

Lemma result_mapM_ok {A B} (f : A → result B) (g : A → B) l :
  Forall (λ x, f x = Ok (g x)) l → result_mapM f l = Ok (map g l).
Proof.
  induction 1 as [|x l Hx _ IH]; simpl; [done|]. by rewrite Hx, IH.
Qed.

Lemma result_mapM_length {A B} (f : A → result B) l r :
  result_mapM f l = Ok r → length r = length l.
Proof.
  revert r. induction l as [|x l IH]; simpl; intros r H.
  - by inversion H.
  - destruct (f x); [|done]. destruct (result_mapM f l); [|done].
    inversion H; subst. simpl. f_equal. by apply IH.
Qed.

(** ** Aggregation *)

Lemma mean_grads_ok (dim : string → nat) gradses keys : ∀ acc,
  gradses ≠ [] →
  (∀ p, p ∈ keys →
     Forall (λ g : gmap string array, ∃ a, g !! p = Some a ∧ length a = dim p) gradses) →
  ∃ grads, mean_grads keys gradses acc = Ok grads
    ∧ (∀ p, p ∈ keys → ∃ m, grads !! p = Some m ∧ length m = dim p
         ∧ ∀ i, i < dim p →
             nth i m 0%Q
             == elementwise_mean (map (λ g : gmap string array, default [] (g !! p)) gradses) i)
    ∧ (∀ p, p ∉ keys → grads !! p = acc !! p).
Proof.
  induction keys as [|p0 keys IH]; intros acc Hne Hall; simpl.
  - exists acc. split; [done|]. split; [|done]. intros p Hp. by apply not_elem_of_nil in Hp.
  - assert (Hp0 := Hall p0 (list_elem_of_here _ _)).
    rewrite (result_mapM_ok _ (λ g : gmap string array, default [] (g !! p0))).
    2:{ eapply Forall_impl; [exact Hp0|]. simpl. intros g (a & Ha & _).
        unfold dict_get. by rewrite Ha. }
    destruct gradses as [|g0 gs]; [done|]. cbn [map].
    assert (Hd0 : length (default [] (g0 !! p0)) = dim p0).
    { inversion Hp0 as [|? ? (a & Ha & Hl) _]; subst. by rewrite Ha. }
    destruct (np_mean_axis0_ok (default [] (g0 !! p0))
                (map (λ g : gmap string array, default [] (g !! p0)) gs)) as (m & Hm & Hlen & Hnth).
    { apply Forall_map. inversion Hp0 as [|? ? _ Hgs]; subst.
      eapply Forall_impl; [exact Hgs|]. simpl. intros g (a & Ha & Hl).
      rewrite Ha. simpl. lia. }
    rewrite Hm.
    destruct (IH (<[p0 := m]> acc)) as (grads & Hg & Hin & Hout); [done | |].
    { intros p Hp. apply Hall. by apply list_elem_of_further. }
    exists grads. split; [exact Hg|]. split.
    + intros p Hp. destruct (decide (p ∈ keys)) as [Hk|Hk]; [by apply Hin|].
      apply elem_of_cons in Hp as [->|Hp]; [|done].
      exists m. split; [by rewrite (Hout p0 Hk), lookup_insert_eq|].
      split; [lia|]. intros i Hi. apply Hnth. lia.
    + intros p Hp. apply not_elem_of_cons in Hp as [Hne0 Hk].
      rewrite (Hout p Hk). by rewrite lookup_insert_ne.
Qed.

Lemma aggregate_ok ps results :
  results ≠ [] →
  (∀ p w, ps !! p = Some w →
     Forall (λ r : Q * gmap string array, ∃ a, r.2 !! p = Some a ∧ length a = length w)
            results) →
  ∃ g, aggregate ps results = Ok (np_mean (map fst results), g)
    ∧ ∀ p w, ps !! p = Some w →
        ∃ a, g !! p = Some a ∧ length a = length w
          ∧ ∀ i, i < length w → nth i a 0%Q == elementwise_mean (shard_gradients p results) i.
Proof.
  intros Hne Hall. unfold aggregate.
  destruct (mean_grads_ok (λ p, length (default [] (ps !! p))) (map snd results)
              (map fst (map_to_list ps)) ∅) as (g & Hg & Hin & _).
  { by destruct results. }
  { intros p Hp. apply list_elem_of_In, in_map_iff in Hp as ([p' w] & <- & Hpw).
    apply list_elem_of_In, elem_of_map_to_list in Hpw. simpl. rewrite Hpw. simpl.
    apply Forall_map. exact (Hall _ _ Hpw). }
  rewrite Hg. exists g. split; [done|]. intros p w Hpw.
  destruct (Hin p) as (m & Hm & Hlen & Hnth).
  { apply list_elem_of_In, in_map_iff. exists (p, w). split; [done|].
    by apply list_elem_of_In, elem_of_map_to_list. }
  rewrite Hpw in Hlen, Hnth. simpl in Hlen, Hnth.
  exists m. split; [done|]. split; [done|]. intros i Hi.
  rewrite (Hnth i Hi). unfold shard_gradients. by rewrite map_map.
Qed.

Lemma result_mapM_map {A B C} (f : B → result C) (g : A → B) l :
  result_mapM f (map g l) = result_mapM (λ x, f (g x)) l.
Proof. induction l as [|x l IH]; simpl; [done|]. by rewrite IH. Qed.

Lemma chunks_length {A} (l : list A) sizes : length (chunks l sizes) = length sizes.
Proof. revert l. induction sizes as [|k sizes IH]; intros l; simpl; [done|]. by rewrite IH. Qed.

Lemma array_split_length {A} (l : list A) n parts :
  array_split l n = Ok parts → length parts = Z.to_nat n.
Proof.
  unfold array_split. destruct (n <=? 0)%Z eqn:E; [done|]. intros H. inversion H; subst.
  apply Z.leb_gt in E.
  rewrite chunks_length, length_app, !repeat_length.
  pose proof (Z.mod_pos_bound (Z.of_nat (length l)) n E). lia.
Qed.

Lemma array_split_ok {A} (l : list A) n :
  (1 ≤ n)%Z → ∃ parts, array_split l n = Ok parts ∧ length parts = Z.to_nat n.
Proof.
  intros Hn. unfold array_split. destruct (n <=? 0)%Z eqn:E.
  - apply Z.leb_le in E. lia.
  - eexists. split; [reflexivity|]. apply (array_split_length l n).
    unfold array_split. by rewrite E.
Qed.

Lemma result_mapM_ext {A B} (f g : A → result B) l :
  (∀ x, f x = g x) → result_mapM f l = result_mapM g l.
Proof. intros H. induction l as [|x l IH]; simpl; [done|]. by rewrite H, IH. Qed.

(** [[(X_batches[i], y_batches[i]) for i in range(n)]] pairs the shards up. *)
Lemma job_args_ok {A B} (Xs : list A) : ∀ (ys : list B) n,
  length Xs = n → length ys = n →
  result_mapM (λ i, result_bind (list_get Xs i) (λ x,
                    result_bind (list_get ys i) (λ y, Ok (x, y)))) (seq 0 n)
  = Ok (combine Xs ys).
Proof.
  induction Xs as [|x Xs IH]; intros ys n HX Hy; simpl in HX; subst n.
  - reflexivity.
  - destruct ys as [|y ys]; [done|]. simpl in Hy.
    cbn [length seq]. rewrite <- seq_shift. cbn [result_mapM].
    rewrite result_mapM_map.
    rewrite (result_mapM_ext _
               (λ i, result_bind (list_get Xs i) (λ x,
                     result_bind (list_get ys i) (λ y, Ok (x, y))))) by done.
    rewrite (IH ys (length Xs)); [done | done | lia].
Qed.

Lemma pool_map_ok {A B} (f : A → result B) jobs s r :
  pool s = Some PoolRun → result_mapM f jobs = Ok r → pool_map f jobs s = (s, Ok r).
Proof. intros Hp Hr. unfold pool_map. rewrite run_get, Hp. unfold lift. by rewrite Hr. Qed.

(** The parallel path returns the means of what the shards report. *)
Lemma parallel_loss_ok c s X_batch y_batch X_batches y_batches results :
  pool s = Some PoolRun →
  array_split X_batch (num_processes c) = Ok X_batches →
  array_split y_batch (num_processes c) = Ok y_batches →
  result_mapM (λ job : list array * list Z, loss (model c) (params s) job.1 job.2)
              (combine X_batches y_batches) = Ok results →
  (∀ p w, params s !! p = Some w →
     Forall (λ r : Q * gmap string array, ∃ a, r.2 !! p = Some a ∧ length a = length w)
            results) →
  ∃ l g,
    parallel_loss c X_batch y_batch s = (s, Ok (l, g))
    ∧ length results = Z.to_nat (num_processes c)
    ∧ l == Qsum (map fst results) / inject_Z (Z.of_nat (length results))
    ∧ ∀ p w, params s !! p = Some w →
        ∃ a, g !! p = Some a ∧ length a = length w
          ∧ ∀ i, i < length w → nth i a 0%Q == elementwise_mean (shard_gradients p results) i.
Proof.
  intros Hpool HX Hy Hres Hshape.
  assert (HlX := array_split_length _ _ _ HX).
  assert (Hly := array_split_length _ _ _ Hy).
  assert (Hlen : length results = Z.to_nat (num_processes c)).
  { rewrite (result_mapM_length _ _ _ Hres), length_combine. lia. }
  assert (Hne : results ≠ []).
  { intros ->. simpl in Hlen. unfold array_split in HX.
    destruct (num_processes c <=? 0)%Z eqn:E; [done|]. apply Z.leb_gt in E. lia. }
  destruct (aggregate_ok (params s) results Hne Hshape) as (g & Hg & Hmean).
  exists (np_mean (map fst results)), g.
  split; [|split; [done|split; [|done]]].
  - unfold parallel_loss. rewrite run_get, Hpool, run_ret, HX, run_lift, Hy, run_lift.
    erewrite bind_ok.
    2:{ apply try_except_ok. rewrite (job_args_ok _ _ _ HlX Hly), run_lift.
        by apply pool_map_ok. }
    unfold lift. by rewrite Hg.
  - unfold np_mean. by rewrite length_map.
Qed.

(** ** Runs that do not raise *)

Lemma bind_assoc {A B C} (m : M A) (k1 : A → M B) (k2 : B → M C) s :
  ((m ≫= k1) ≫= k2) s = (m ≫= λ a, k1 a ≫= k2) s.
Proof.
  unfold mbind, M_bind, bind. destruct (m s) as [s1 [a|e]]; reflexivity.
Qed.

Lemma np_random_choice_ok c a size s :
  (0 < a)%Z → (0 ≤ size)%Z →
  ∃ mask, np_random_choice c a size s = (set_rng (rng s + Z.to_nat size) s, Ok mask)
          ∧ Forall (λ i, (0 ≤ i < a)%Z) mask.
Proof.
  intros Ha Hs. unfold np_random_choice.
  assert (((a <=? 0) || (size <? 0))%Z = false) as ->.
  { apply orb_false_iff. split; [apply Z.leb_gt | apply Z.ltb_ge]; lia. }
  rewrite run_get, run_modify. eexists. split; [reflexivity|].
  apply Forall_map, Forall_forall. intros i _. simpl. apply Z.mod_pos_bound. lia.
Qed.

Lemma np_index_ok {A} (l : list A) i :
  (0 ≤ i < Z.of_nat (length l))%Z → ∃ x, np_index l i = Ok x.
Proof.
  intros Hi. unfold np_index.
  assert ((i <? 0)%Z = false) as -> by (apply Z.ltb_ge; lia).
  assert (((0 <=? i) && (i <? Z.of_nat (length l)))%Z = true) as ->.
  { apply andb_true_iff. split; [apply Z.leb_le | apply Z.ltb_lt]; lia. }
  destruct (nth_error l (Z.to_nat i)) eqn:E; [eauto|].
  apply nth_error_None in E. lia.
Qed.

Lemma np_take_ok {A} (l : list A) mask :
  Forall (λ i, (0 ≤ i < Z.of_nat (length l))%Z) mask → ∃ r, np_take l mask = Ok r.
Proof.
  unfold np_take. induction 1 as [|i mask Hi _ [r IH]]; simpl; [eauto|].
  destruct (np_index_ok l i Hi) as [x ->]. rewrite IH. eauto.
Qed.

Lemma np_argmax_axis1_ok scores :
  Forall (λ row, row ≠ []) scores → ∃ p, np_argmax_axis1 scores = Ok p.
Proof.
  unfold np_argmax_axis1. induction 1 as [|row scores Hrow _ [p IH]]; simpl; [eauto|].
  destruct row; [done|]. simpl. rewrite IH. eauto.
Qed.

Lemma result_mapM_total_on {A B} (P : A → Prop) (f : A → result B) l :
  (∀ x, P x → ∃ y, f x = Ok y) → Forall P l → ∃ r, result_mapM f l = Ok r.
Proof.
  intros Hf. induction 1 as [|x l Hx _ [r IH]]; simpl; [eauto|].
  destruct (Hf x Hx) as [y ->]. rewrite IH. eauto.
Qed.

Lemma result_mapM_Forall2_total {A B} (f : A → result B) l (Q : B → Prop) :
  (∀ x, ∃ y, f x = Ok y ∧ Q y) → ∃ r, result_mapM f l = Ok r ∧ Forall Q r.
Proof.
  intros Hf. induction l as [|x l (r & IH & HQ)]; simpl; [eauto|].
  destruct (Hf x) as (y & -> & Hy). rewrite IH. eauto.
Qed.

Lemma predict_chunk_ok c chunk s :
  collaborators_ok c → (1 ≤ num_processes c)%Z → pool_ready s →
  ∃ ps, predict_chunk c chunk s = (s, Ok ps) ∧ ps ≠ [].
Proof.
  intros Hc Hn Hp. unfold predict_chunk. rewrite run_get.
  destruct (multiprocessing s) eqn:Emp; cbn [negb].
  - destruct (array_split_ok chunk (num_processes c) Hn) as (parts & Hparts & Hlen).
    rewrite Hparts, run_lift.
    destruct (result_mapM_Forall2_total (loss_scores (model c) (params s)) parts
                (λ sc, Forall (λ row, row ≠ []) sc)) as (results & Hres & Hrows).
    { intros x. destruct (scores_ok c Hc (params s) x) as (sc & ? & ?). eauto. }
    destruct (result_mapM_total_on _ np_argmax_axis1 results np_argmax_axis1_ok Hrows)
      as (preds & Hpreds).
    exists preds. split.
    + apply try_except_ok. erewrite bind_ok; [|apply pool_map_ok; [by apply Hp | exact Hres]].
      unfold lift. by rewrite Hpreds.
    + intros ->. apply result_mapM_length in Hpreds, Hres. simpl in Hpreds. lia.
  - destruct (scores_ok c Hc (params s) chunk) as (sc & Hsc & Hrows).
    rewrite Hsc, run_lift. destruct (np_argmax_axis1_ok sc Hrows) as [p Hp'].
    rewrite Hp', run_lift. by exists [p].
Qed.

Lemma collect_ok {A B} (l : list A) (body : A → M (list B)) s :
  (∀ x, ∃ ys, body x s = (s, Ok ys) ∧ ys ≠ []) →
  ∃ zs, collect l body s = (s, Ok zs) ∧ (l ≠ [] → zs ≠ []).
Proof.
  intros Hb. induction l as [|x l (zs & Hz & _)]; simpl.
  - by exists [].
  - destruct (Hb x) as (ys & Hy & Hne). exists (ys ++ zs). split.
    + erewrite bind_ok by exact Hy. erewrite bind_ok by exact Hz. reflexivity.
    + intros _ Happ. apply app_eq_nil in Happ as [? _]. done.
Qed.

Lemma set_rng_same s : set_rng (rng s) s = s.
Proof. by destruct s. Qed.

Lemma subsample_ok c X y num_samples s :
  X ≠ [] →
  (∀ ns, num_samples = Some ns → (0 < ns)%Z ∧ length y = length X) →
  ∃ k N X' y', subsample c X (Some y) num_samples s = (set_rng k s, Ok (N, X', Some y'))
               ∧ (0 < N)%Z.
Proof.
  intros HX Hns. unfold subsample.
  assert (HN : (0 < Z.of_nat (length X))%Z) by (destruct X; [done | simpl; lia]).
  destruct num_samples as [ns|].
  - destruct (Hns ns eq_refl) as [Hpos Hlen].
    destruct (Z.of_nat (length X) >? ns)%Z.
    + destruct (np_random_choice_ok c (Z.of_nat (length X)) ns s) as (mask & Hm & Hr);
        [lia | lia |].
      erewrite bind_ok by exact Hm.
      destruct (np_take_ok X mask Hr) as [X' HX']. rewrite HX', run_lift.
      destruct (np_take_ok y mask) as [y' Hy']; [by rewrite Hlen|].
      rewrite bind_assoc, Hy', run_lift, run_ret.
      by exists (rng s + Z.to_nat ns), ns, X', y'.
    + exists (rng s), (Z.of_nat (length X)), X, y. by rewrite set_rng_same.
  - exists (rng s), (Z.of_nat (length X)), X, y. by rewrite set_rng_same.
Qed.

Lemma num_batches_pos N bs :
  (0 < N)%Z → (0 < bs)%Z →
  xrange (if negb (N mod bs =? 0)%Z then (N / bs + 1)%Z else (N / bs)%Z) ≠ [].
Proof.
  intros HN Hbs.
  assert (1 ≤ (if negb (N mod bs =? 0)%Z then (N / bs + 1)%Z else (N / bs)%Z))%Z as Hnb.
  { pose proof (Z.div_pos N bs ltac:(lia) Hbs).
    destruct (N mod bs =? 0)%Z eqn:E; simpl; [|lia].
    apply Z.eqb_eq in E. pose proof (Z.div_mod N bs ltac:(lia)). nia. }
  unfold xrange. destruct (Z.to_nat _) eqn:E; [lia | done].
Qed.

Lemma predictions_ok c N X bs s :
  collaborators_ok c → (1 ≤ num_processes c)%Z → pool_ready s →
  (0 < N)%Z → (0 < bs)%Z →
  ∃ y_pred, predictions c N X bs s = (s, Ok y_pred).
Proof.
  intros Hc Hn Hp HN Hbs. unfold predictions, py_floordiv, py_mod.
  assert ((bs =? 0)%Z = false) as -> by (apply Z.eqb_neq; lia).
  rewrite !run_lift.
  edestruct (collect_ok (xrange (if negb (N mod bs =? 0)%Z then (N / bs + 1)%Z else (N / bs)%Z))
               (λ i, predict_chunk c (py_slice X (i * bs) ((i + 1) * bs))) s)
    as (zs & Hz & Hne).
  { intros i. by apply predict_chunk_ok. }
  erewrite bind_ok by exact Hz.
  specialize (Hne (num_batches_pos N bs HN Hbs)).
  destruct zs; [done|]. by eexists.
Qed.

Lemma check_accuracy_ok c X y num_samples bs s :
  collaborators_ok c → (1 ≤ num_processes c)%Z → pool_ready s →
  X ≠ [] → (0 < bs)%Z →
  (∀ ns, num_samples = Some ns → (0 < ns)%Z ∧ length y = length X) →
  ∃ k q, check_accuracy c X (Some y) num_samples bs false s = (set_rng k s, Ok (Acc q)).
Proof.
  intros Hc Hn Hp HX Hbs Hns. unfold check_accuracy.
  change (labels_contract (Some y) false) with true. cbv iota. rewrite run_ret.
  destruct (subsample_ok c X y num_samples s HX Hns) as (k & N & X' & y' & Hsub & HN).
  erewrite bind_ok by exact Hsub. cbn [fst snd].
  destruct (predictions_ok c N X' bs (set_rng k s) Hc Hn Hp HN Hbs) as (y_pred & Hpred).
  erewrite bind_ok by exact Hpred. by eexists _, _.
Qed.

Lemma agree_on_refl {X} (f : Solver → X) s : agree_on f s s.
Proof. reflexivity. Qed.

Lemma agree_on_trans {X} (f : Solver → X) s1 s2 s3 :
  agree_on f s1 s2 → agree_on f s2 s3 → agree_on f s1 s3.
Proof. unfold agree_on. congruence. Qed.

Lemma compute_loss_ok c s :
  config_ok c → collaborators_ok c → pool_ready s →
  ∃ k l g, compute_loss c s = (set_rng k s, Ok (l, g))
           ∧ ∀ p w, params s !! p = Some w → is_Some (g !! p).
Proof.
  intros Hc Hm Hp. unfold compute_loss.
  assert (HN : (0 < Z.of_nat (length (X_train c)))%Z).
  { pose proof (train_nonempty c Hc). destruct (X_train c); [done | simpl; lia]. }
  destruct (np_random_choice_ok c (Z.of_nat (length (X_train c))) (batch_size c) s)
    as (mask & Hmask & Hr); [lia | pose proof (batch_size_pos c Hc); lia |].
  erewrite bind_ok by exact Hmask.
  destruct (np_take_ok (X_train c) mask Hr) as [Xb HXb]. rewrite HXb, run_lift.
  destruct (np_take_ok (y_train c) mask) as [yb Hyb]; [by rewrite (train_labelled c Hc)|].
  rewrite Hyb, run_lift.
  set (s1 := set_rng (rng s + Z.to_nat (batch_size c)) s).
  assert (∃ Xa, (match batch_augment_func c with
                 | Some f => lift (f Xb)
                 | None => ret Xb
                 end) s1 = (s1, Ok Xa)) as [Xa HXa].
  { destruct (batch_augment_func c) as [f|] eqn:E; [|by eexists].
    destruct (augment_ok c Hm f E Xb) as [Xa HXa]. exists Xa. unfold lift. by rewrite HXa. }
  erewrite bind_ok by exact HXa. rewrite run_get.
  destruct (multiprocessing s1) eqn:Emp; cbn [negb].
  - destruct (array_split_ok Xa (num_processes c) (num_processes_pos c Hc)) as (Xs & HXs & _).
    destruct (array_split_ok yb (num_processes c) (num_processes_pos c Hc)) as (ys & Hys & _).
    destruct (result_mapM_Forall2_total
                (λ job : list array * list Z, loss (model c) (params s1) job.1 job.2)
                (combine Xs ys)
                (λ r, ∀ p w, params s1 !! p = Some w →
                        ∃ a, r.2 !! p = Some a ∧ length a = length w))
      as (results & Hres & Hshape).
    { intros job. destruct (loss_ok c Hm (params s1) job.1 job.2) as (l & g & Hl & Hg).
      exists (l, g). by split. }
    destruct (parallel_loss_ok c s1 Xa yb Xs ys results) as (l & g & Hpl & _ & _ & Hg);
      [by apply Hp | done | done | done | |].
    { intros p w Hpw. eapply Forall_impl; [exact Hshape|]. simpl. intros r Hr'. by apply Hr'. }
    exists (rng s + Z.to_nat (batch_size c)), l, g. split; [exact Hpl|].
    intros p w Hpw. destruct (Hg p w Hpw) as (a & Ha & _). by rewrite Ha.
  - destruct (loss_ok c Hm (params s1) Xa yb) as (l & g & Hl & Hg).
    exists (rng s + Z.to_nat (batch_size c)), l, g. split; [unfold lift; by rewrite Hl|].
    intros p w Hpw. destruct (Hg p w Hpw) as (a & Ha & _). by rewrite Ha.
Qed.

Lemma update_param_ok c g pw s :
  collaborators_ok c → is_Some (g !! pw.1) → is_Some (optim_configs s !! pw.1) →
  ∃ w' config' h',
    update_param c g pw s
    = (set_optim_configs (<[pw.1 := config']> (optim_configs s))
         (set_params (<[pw.1 := w']> (params s)) (set_heap h' s)), Ok tt)
    ∧ is_Some (config' !! "learning_rate"%string).
Proof.
  intros Hm [dw Hdw] [config Hcfg]. unfold update_param, dict_get.
  rewrite Hdw, run_lift, run_get, Hcfg, run_lift.
  destruct (rule_ok c Hm (heap s) pw.2 dw config) as (w' & config' & h' & Hr & Hlr).
  rewrite Hr, run_lift, !run_modify. by exists w', config', h'.
Qed.

Lemma update_loop_ok c g l : ∀ s,
  collaborators_ok c →
  (∀ pw, pw ∈ l →
     is_Some (g !! pw.1) ∧ pw.1 ∈ dom (optim_configs s) ∧ pw.1 ∈ dom (params s)) →
  ∃ s', for_each l (update_param c g) s = (s', Ok tt)
    ∧ dom (optim_configs s') = dom (optim_configs s)
    ∧ dom (params s') = dom (params s)
    ∧ (∀ k, k ∈ map fst l →
         ∃ config, optim_configs s' !! k = Some config
                   ∧ is_Some (config !! "learning_rate"%string))
    ∧ (∀ k, k ∉ map fst l → optim_configs s' !! k = optim_configs s !! k).
Proof.
  induction l as [|pw l IH]; intros s Hm Hl; simpl.
  - exists s. repeat split; try done. intros k Hk. by apply not_elem_of_nil in Hk.
  - destruct (Hl pw (list_elem_of_here _ _)) as (Hg & Hoc & Hps).
    destruct (update_param_ok c g pw s Hm Hg) as (w' & config' & h' & Hup & Hlr).
    { by apply elem_of_dom. }
    erewrite bind_ok by exact Hup.
    set (s1 := set_optim_configs _ _) in *.
    assert (Hd1 : dom (optim_configs s1) = dom (optim_configs s)).
    { subst s1. fields. rewrite dom_insert_L.
      by apply subseteq_union_1_L, singleton_subseteq_l. }
    assert (Hd2 : dom (params s1) = dom (params s)).
    { subst s1. fields. rewrite dom_insert_L.
      by apply subseteq_union_1_L, singleton_subseteq_l. }
    destruct (IH s1 Hm) as (s' & Hrun & Hdo & Hdp & Hin & Hout).
    { intros pw' Hpw'. rewrite Hd1, Hd2. apply Hl. by apply list_elem_of_further. }
    exists s'. split; [exact Hrun|]. split; [congruence|]. split; [congruence|]. split.
    + intros k Hk. destruct (decide (k ∈ map fst l)) as [Hkl|Hkl]; [by apply Hin|].
      apply elem_of_cons in Hk as [->|Hk]; [|done].
      exists config'. split; [|done]. rewrite (Hout _ Hkl). subst s1. simpl.
      apply lookup_insert_eq.
    + intros k Hk. apply not_elem_of_cons in Hk as [Hne Hkl].
      rewrite (Hout _ Hkl). subst s1. simpl. by rewrite lookup_insert_ne.
Qed.

Lemma book_kept_apply_updates c g s : book_kept s (apply_updates c g s).1.
Proof.
  apply (keeps_apply_updates book_kept book_kept_refl book_kept_trans c);
    intros; by constructor.
Qed.

Lemma apply_updates_ok c g s :
  collaborators_ok c →
  dom (optim_configs s) = dom (params s) →
  (∀ p w, params s !! p = Some w → is_Some (g !! p)) →
  ∃ s', apply_updates c g s = (s', Ok tt)
    ∧ dom (optim_configs s') = dom (params s')
    ∧ configs_have_lr s'
    ∧ book_kept s s'.
Proof.
  intros Hm Hdom Hg. pose proof (book_kept_apply_updates c g s) as Hbk.
  unfold apply_updates in *. rewrite run_get in *.
  destruct (update_loop_ok c g (map_to_list (params s)) s Hm)
    as (s' & Hrun & Hdo & Hdp & Hin & _).
  { intros [p w] Hpw. apply elem_of_map_to_list in Hpw. simpl.
    split; [by eapply Hg|]. rewrite Hdom. split; apply elem_of_dom; eauto. }
  rewrite Hrun in Hbk. exists s'. split; [exact Hrun|]. split; [congruence|].
  split; [|exact Hbk].
  intros k config Hk. destruct (Hin k) as (config' & Hk' & Hlr).
  - assert (k ∈ dom (params s)) as Hkd.
    { rewrite <- Hdom, <- Hdo. apply elem_of_dom. eauto. }
    apply elem_of_dom in Hkd as [w Hw].
    apply list_elem_of_In, in_map_iff. exists (k, w). split; [done|].
    by apply list_elem_of_In, elem_of_map_to_list.
  - congruence.
Qed.

Lemma snapshot_loop_ok (l : list (string * array)) : ∀ B s,
  for_each l (λ kv, modify (λ s, set_best_params (<[kv.1 := kv.2]> (best_params s)) s))
    (set_best_params B s)
  = (set_best_params (foldl (λ B kv, <[kv.1 := kv.2]> B) B l) s, Ok tt).
Proof.
  induction l as [|kv l IH]; intros B s; simpl.
  - reflexivity.
  - rewrite run_modify. apply (IH (<[kv.1 := kv.2]> B) s).
Qed.

Lemma foldl_insert_lookup (l : list (string * array)) : ∀ (B : gmap string array) k,
  NoDup (l.*1) →
  foldl (λ B kv, <[kv.1 := kv.2]> B) B l !! k
  = match (list_to_map l : gmap string array) !! k with
    | Some v => Some v
    | None => B !! k
    end.
Proof.
  induction l as [|[k0 v0] l IH]; intros B k Hnd; simpl.
  - by rewrite lookup_empty.
  - apply NoDup_cons in Hnd as [Hk0 Hnd]. rewrite IH by done.
    destruct (decide (k0 = k)) as [->|Hne].
    + rewrite !lookup_insert_eq. by rewrite (not_elem_of_list_to_map_1 _ _ Hk0).
    + by rewrite !lookup_insert_ne.
Qed.

(** Copying the items of a dictionary one by one into an empty dictionary
    gives the dictionary back. *)
Lemma foldl_insert_map_to_list (m : gmap string array) :
  foldl (λ B kv, <[kv.1 := kv.2]> B) ∅ (map_to_list m) = m.
Proof.
  apply map_eq. intros k.
  rewrite foldl_insert_lookup by apply NoDup_fst_map_to_list.
  rewrite list_to_map_to_list, lookup_empty. by destruct (m !! k).
Qed.

(** On a strict improvement [keep_best] records the accuracy and a copy of
    the parameter store. *)
Lemma keep_best_improves v s :
  Qle_bool v (best_val_acc s) = false →
  keep_best v s = (set_best_params (params s) (set_best_val_acc v s), Ok tt).
Proof.
  intros Hv. unfold keep_best. rewrite run_get, Hv. cbn [negb].
  rewrite !run_modify, run_get. fields.
  rewrite (snapshot_loop_ok (map_to_list (params s)) ∅ (set_best_val_acc v s)).
  by rewrite foldl_insert_map_to_list.
Qed.

(** Without a strict improvement, a tie included, it changes nothing. *)
Lemma keep_best_otherwise v s :
  Qle_bool v (best_val_acc s) = true → keep_best v s = (s, Ok tt).
Proof. intros Hv. unfold keep_best. by rewrite run_get, Hv. Qed.

(** [keep_best] returns, and writes the best accuracy and snapshot only. *)
Lemma keep_best_ok v s :
  ∃ a B, keep_best v s = (set_best_params B (set_best_val_acc a s), Ok tt).
Proof.
  destruct (Qle_bool v (best_val_acc s)) eqn:Hv.
  - exists (best_val_acc s), (best_params s).
    rewrite (keep_best_otherwise v s Hv). by destruct s.
  - exists v, (params s). by apply keep_best_improves.
Qed.

Lemma secs_slice_len_pos n pe : (0 < n)%Z → (0 < pe)%Z → (secs_slice_len n pe =? 0)%Z = false.
Proof.
  intros Hn Hpe. unfold secs_slice_len.
  assert ((0 <? pe)%Z = true) as -> by (apply Z.ltb_lt; lia).
  apply Z.eqb_neq. lia.
Qed.

Lemma evaluate_ok c it s :
  config_ok c → collaborators_ok c → pool_ready s → (0 ≤ it)%Z →
  ∃ k ta va a B,
    evaluate c it s
    = (set_best_params B (set_best_val_acc a
         (set_val_acc_history (val_acc_history s ++ [va])
            (set_train_acc_history (train_acc_history s ++ [ta]) (set_rng k s)))), Ok tt).
Proof.
  intros Hc Hm Hp Hit. unfold evaluate.
  destruct (check_accuracy_ok c (X_train c) (y_train c) (Some 1000%Z) 100 s)
    as (k1 & ta & H1); try done.
  { apply (num_processes_pos c Hc). }
  { apply (train_nonempty c Hc). }
  { intros ns [= <-]. split; [lia | apply (train_labelled c Hc)]. }
  erewrite bind_ok by exact H1.
  destruct (check_accuracy_ok c (X_val c) (y_val c) None 100 (set_rng k1 s))
    as (k2 & va & H2); try done.
  { apply (num_processes_pos c Hc). }
  { apply (val_nonempty c Hc). }
  erewrite bind_ok by exact H2.
  assert (verbose c && (secs_slice_len (it + 1) (print_every c) =? 0)%Z = false) as ->.
  { destruct (verbose c) eqn:Ev; [|done]. simpl.
    apply secs_slice_len_pos; [lia | by apply (print_every_pos c Hc)]. }
  rewrite run_ret, !run_modify.
  match goal with |- ∃ _ _ _ _ _, keep_best ?v ?s0 = _ =>
    destruct (keep_best_ok v s0) as (a & B & HB) end.
  exists k2, ta, va, a, B. exact HB.
Qed.

Lemma is_epoch_end_ok ipe it :
  (1 ≤ ipe)%Z → is_epoch_end ipe it = Ok ((it + 1) mod ipe =? 0)%Z.
Proof.
  intros H. unfold is_epoch_end, py_mod.
  by assert ((ipe =? 0)%Z = false) as -> by (apply Z.eqb_neq; lia).
Qed.

Lemma gate_ok c ipe n it :
  config_ok c → (1 ≤ ipe)%Z → ∃ b, gate c ipe n it = Ok b.
Proof.
  intros Hc Hipe. unfold gate. rewrite is_epoch_end_ok by done. simpl.
  destruct (verbose c) eqn:Ev; [|by eexists].
  unfold py_mod. pose proof (print_every_pos c Hc Ev).
  assert ((print_every c =? 0)%Z = false) as -> by (apply Z.eqb_neq; lia).
  by eexists.
Qed.

Lemma decay_learning_rate_ok k s :
  k ∈ dom (optim_configs s) → configs_have_lr s →
  ∃ s', decay_learning_rate k s = (s', Ok tt)
    ∧ dom (optim_configs s') = dom (optim_configs s)
    ∧ configs_have_lr s'.
Proof.
  intros Hk Hlr. apply elem_of_dom in Hk as [config Hcfg].
  destruct (Hlr k config Hcfg) as [lr Hlr'].
  unfold decay_learning_rate, dict_get.
  rewrite run_get, Hcfg, run_lift, Hlr', run_lift.
  destruct lr as [q|l].
  - eexists. split; [reflexivity|]. fields. split.
    + rewrite dom_insert_L. apply subseteq_union_1_L, singleton_subseteq_l.
      apply elem_of_dom. eauto.
    + intros k' config'. fields. destruct (decide (k = k')) as [->|Hne].
      * rewrite lookup_insert_eq. intros [= <-]. rewrite lookup_insert_eq. eauto.
      * rewrite lookup_insert_ne by done. apply Hlr.
  - eexists. split; [reflexivity|]. by split.
Qed.

Lemma decay_loop_ok l : ∀ s,
  (∀ k, k ∈ l → k ∈ dom (optim_configs s)) → configs_have_lr s →
  ∃ s', for_each l decay_learning_rate s = (s', Ok tt)
    ∧ dom (optim_configs s') = dom (optim_configs s)
    ∧ configs_have_lr s'.
Proof.
  induction l as [|k l IH]; intros s Hl Hlr; simpl.
  - by exists s.
  - destruct (decay_learning_rate_ok k s) as (s1 & H1 & Hd1 & Hlr1);
      [apply Hl, list_elem_of_here | done |].
    erewrite bind_ok by exact H1.
    destruct (IH s1) as (s' & H' & Hd' & Hlr'); [|done|].
    { intros k' Hk'. rewrite Hd1. by apply Hl, list_elem_of_further. }
    exists s'. split; [done|]. split; [congruence | done].
Qed.

Lemma decay_all_ok s :
  configs_have_lr s →
  ∃ s', decay_all s = (s', Ok tt)
    ∧ dom (optim_configs s') = dom (optim_configs s)
    ∧ params s' = params s
    ∧ book_kept s s'.
Proof.
  intros Hlr.
  pose proof (keeps_decay_all book_kept book_kept_refl book_kept_trans
                ltac:(by constructor) ltac:(by constructor) s) as Hbk.
  pose proof (keeps_decay_all (agree_on params) (agree_on_refl _) (agree_on_trans _)
                ltac:(done) ltac:(done) s) as Hps.
  unfold decay_all in *. rewrite run_get in *.
  destruct (decay_loop_ok (map fst (map_to_list (optim_configs s))) s) as (s' & H' & Hd & _);
    [|done|].
  { intros k Hk. apply list_elem_of_In, in_map_iff in Hk as ([k' config] & <- & Hk).
    apply list_elem_of_In, elem_of_map_to_list in Hk. apply elem_of_dom. eauto. }
  rewrite H' in Hbk, Hps. by exists s'.
Qed.

Lemma set_lr_decay_same s : set_lr_decay (lr_decay s) s = s.
Proof. by destruct s. Qed.

Lemma update_decay_ok c s :
  collaborators_ok c → ∃ d, update_decay c s = (set_lr_decay d s, Ok tt).
Proof.
  intros Hm. unfold update_decay. destruct (custom_update_ld c) as [f|] eqn:E.
  - destruct (decay_ok c Hm f E (epoch s)) as [d Hd].
    rewrite run_get, Hd, run_lift. by exists d.
  - exists (lr_decay s). by rewrite set_lr_decay_same.
Qed.

Lemma set_fs_same s : set_fs (fs s) s = s.
Proof. by destruct s. Qed.

Lemma make_check_point_ok c s : ∃ F, make_check_point c s = (set_fs F s, Ok tt).
Proof.
  unfold make_check_point. rewrite run_get.
  destruct (negb (os_path_exists (fs s) _)); by eexists.
Qed.

Lemma maybe_check_point_ok c s : ∃ F, maybe_check_point c s = (set_fs F s, Ok tt).
Proof.
  unfold maybe_check_point. rewrite run_get.
  destruct (negb (check_point_every c =? 0)%Z && (epoch s mod check_point_every c =? 0)%Z).
  - apply make_check_point_ok.
  - exists (fs s). by rewrite set_fs_same.
Qed.

Lemma end_epoch_ok c s :
  collaborators_ok c → configs_have_lr s →
  ∃ s', end_epoch c s = (s', Ok tt)
    ∧ epoch s' = (epoch s + 1)%Z
    ∧ params s' = params s
    ∧ dom (optim_configs s') = dom (optim_configs s)
    ∧ loss_history s' = loss_history s
    ∧ train_acc_history s' = train_acc_history s
    ∧ val_acc_history s' = val_acc_history s
    ∧ multiprocessing s' = multiprocessing s
    ∧ pool s' = pool s.
Proof.
  intros Hm Hlr. unfold end_epoch. rewrite run_modify.
  destruct (update_decay_ok c (set_epoch (epoch s + 1) s) Hm) as [d Hd].
  erewrite bind_ok by exact Hd.
  destruct (decay_all_ok (set_lr_decay d (set_epoch (epoch s + 1) s)) Hlr)
    as (s3 & H3 & Hd3 & Hp3 & [? ? ? ? ? ?]).
  erewrite bind_ok by exact H3.
  destruct (maybe_check_point_ok c s3) as [F HF]. rewrite HF.
  eexists. split; [reflexivity|]. simpl in *. by repeat split.
Qed.

Lemma pool_ready_same s s' :
  multiprocessing s' = multiprocessing s → pool s' = pool s → pool_ready s → pool_ready s'.
Proof. unfold pool_ready. intros -> ->. done. Qed.

Lemma _step_ok c s :
  config_ok c → collaborators_ok c → ready s →
  ∃ s' l, _step c s = (s', Ok tt)
    ∧ ready s'
    ∧ configs_have_lr s'
    ∧ loss_history s' = loss_history s ++ [l]
    ∧ train_acc_history s' = train_acc_history s
    ∧ val_acc_history s' = val_acc_history s
    ∧ epoch s' = epoch s.
Proof.
  intros Hc Hm [Hdom Hp]. unfold _step.
  destruct (compute_loss_ok c s Hc Hm Hp) as (k & l & g & Hcl & Hg).
  erewrite bind_ok by exact Hcl. rewrite run_modify. cbn [fst snd].
  destruct (apply_updates_ok c g (set_loss_history (loss_history (set_rng k s) ++ [l])
                                    (set_rng k s)) Hm Hdom Hg)
    as (s' & Hup & Hdom' & Hlr & [He Hl Hta Hva Hmp Hpool]).
  exists s', l. fields. split; [exact Hup|]. split.
  - constructor; [done|]. by apply (pool_ready_same s).
  - by repeat split.
Qed.

Lemma train_iteration_ok c ipe n it s :
  config_ok c → collaborators_ok c → ready s → (1 ≤ ipe)%Z → (0 ≤ it)%Z →
  ∃ s' l ta va,
    train_iteration c ipe n it s = (s', Ok tt)
    ∧ ready s'
    ∧ loss_history s' = loss_history s ++ [l]
    ∧ train_acc_history s' = train_acc_history s ++ ta
    ∧ val_acc_history s' = val_acc_history s ++ va
    ∧ length ta = (if gate_open c ipe n it then 1 else 0)
    ∧ length va = (if gate_open c ipe n it then 1 else 0)
    ∧ epoch s' = (epoch s + if ((it + 1) mod ipe =? 0)%Z then 1 else 0)%Z.
Proof.
  intros Hc Hm Hr Hipe Hit. unfold train_iteration.
  destruct (_step_ok c s Hc Hm Hr) as (s1 & l & H1 & [Hdom1 Hp1] & Hlr1 & Hl1 & Hta1 & Hva1 & He1).
  erewrite bind_ok by exact H1.
  rewrite is_epoch_end_ok, run_lift by done.
  destruct (gate_ok c ipe n it Hc Hipe) as [g Hg].
  unfold gate_open. rewrite Hg, run_lift.
  assert (∃ s2 ta va, when g (evaluate c it) s1 = (s2, Ok tt)
            ∧ train_acc_history s2 = train_acc_history s1 ++ ta
            ∧ val_acc_history s2 = val_acc_history s1 ++ va
            ∧ length ta = (if g then 1 else 0) ∧ length va = (if g then 1 else 0)
            ∧ params s2 = params s1 ∧ optim_configs s2 = optim_configs s1
            ∧ multiprocessing s2 = multiprocessing s1 ∧ pool s2 = pool s1
            ∧ loss_history s2 = loss_history s1 ∧ epoch s2 = epoch s1)
    as (s2 & ta & va & H2 & Hta2 & Hva2 & Hlta & Hlva & Hps2 & Hoc2 & Hmp2 & Hpool2 & Hl2 & He2).
  { destruct g; simpl.
    - destruct (evaluate_ok c it s1 Hc Hm Hp1 Hit) as (k & ta & va & a & B & Hev).
      rewrite Hev. eexists _, [ta], [va]. split; [reflexivity|]. by fields.
    - exists s1, [], []. by rewrite !app_nil_r. }
  erewrite bind_ok by exact H2.
  assert (∃ s3, when ((it + 1) mod ipe =? 0)%Z (end_epoch c) s2 = (s3, Ok tt)
            ∧ epoch s3 = (epoch s2 + if ((it + 1) mod ipe =? 0)%Z then 1 else 0)%Z
            ∧ params s3 = params s2
            ∧ dom (optim_configs s3) = dom (optim_configs s2)
            ∧ loss_history s3 = loss_history s2
            ∧ train_acc_history s3 = train_acc_history s2
            ∧ val_acc_history s3 = val_acc_history s2
            ∧ multiprocessing s3 = multiprocessing s2
            ∧ pool s3 = pool s2)
    as (s3 & H3 & He3 & Hps3 & Hoc3 & Hl3 & Hta3 & Hva3 & Hmp3 & Hpool3).
  { destruct ((it + 1) mod ipe =? 0)%Z; simpl.
    - apply end_epoch_ok; [done|]. unfold configs_have_lr in *. by rewrite Hoc2.
    - exists s2. repeat split; try done. lia. }
  exists s3, l, ta, va. split; [exact H3|]. split.
  { constructor; [by rewrite Hoc3, Hoc2, Hps3, Hps2|]. apply (pool_ready_same s1); [congruence | congruence | done]. }
  repeat split; try congruence; destruct g; simpl; congruence.
Qed.

Lemma xrange_S m : xrange (Z.of_nat (S m)) = xrange (Z.of_nat m) ++ [Z.of_nat m].
Proof. unfold xrange. rewrite !Nat2Z.id, seq_S, map_app. reflexivity. Qed.

Lemma xrange_nonneg n : Forall (λ it, (0 ≤ it)%Z) (xrange n).
Proof. unfold xrange. apply Forall_map, Forall_forall. intros i _. simpl. lia. Qed.

Lemma xrange_length n : length (xrange n) = Z.to_nat n.
Proof. unfold xrange. by rewrite length_map, length_seq. Qed.

Lemma div_succ a ipe :
  (0 ≤ a)%Z → (1 ≤ ipe)%Z →
  ((a + 1) / ipe = a / ipe + if decide ((a + 1) mod ipe = 0) then 1 else 0)%Z.
Proof.
  intros Ha Hipe.
  pose proof (Z.div_mod (a + 1) ipe ltac:(lia)) as Hdm.
  pose proof (Z.mod_pos_bound (a + 1) ipe ltac:(lia)) as Hb.
  destruct (decide ((a + 1) mod ipe = 0)%Z) as [E|E].
  - symmetry. assert (a / ipe = (a + 1) / ipe - 1)%Z as ->; [|lia].
    symmetry. apply (Z.div_unique a ipe _ (ipe - 1)); [lia | nia].
  - symmetry. rewrite Z.add_0_r. symmetry.
    apply (Z.div_unique a ipe _ ((a + 1) mod ipe - 1)); [lia | nia].
Qed.

(** Among the first [n] iterations, [n // ipe] complete an epoch. *)
Lemma epoch_ends_count ipe m :
  (1 ≤ ipe)%Z →
  Z.of_nat (length (filter (λ it, ((it + 1) mod ipe = 0)%Z) (xrange (Z.of_nat m))))
  = (Z.of_nat m / ipe)%Z.
Proof.
  intros Hipe. induction m as [|m IH].
  - simpl. by rewrite Z.div_0_l by lia.
  - rewrite xrange_S, filter_app, length_app, Nat2Z.inj_add, IH.
    rewrite Nat2Z.inj_succ, <- Z.add_1_r, (div_succ (Z.of_nat m) ipe) by lia.
    rewrite filter_cons, filter_nil. by destruct (decide _).
Qed.

Lemma py_int_inject a b : py_int (inject_Z a * inject_Z b) = (a * b)%Z.
Proof. unfold py_int. simpl. apply Z.quot_1_r. Qed.

Lemma for_each_train_ok c ipe n its : ∀ s,
  config_ok c → collaborators_ok c → ready s → (1 ≤ ipe)%Z →
  Forall (λ it, (0 ≤ it)%Z) its →
  ∃ s' losses ta va,
    for_each its (train_iteration c ipe n) s = (s', Ok tt)
    ∧ ready s'
    ∧ loss_history s' = loss_history s ++ losses
    ∧ length losses = length its
    ∧ train_acc_history s' = train_acc_history s ++ ta
    ∧ val_acc_history s' = val_acc_history s ++ va
    ∧ length ta = length (filter (λ it, gate_open c ipe n it = true) its)
    ∧ length va = length (filter (λ it, gate_open c ipe n it = true) its)
    ∧ epoch s' = (epoch s
                  + Z.of_nat (length (filter (λ it, ((it + 1) mod ipe = 0)%Z) its)))%Z.
Proof.
  induction its as [|it its IH]; intros s Hc Hm Hr Hipe Hits; simpl.
  - exists s, [], [], []. rewrite !app_nil_r. split; [done|]. split; [exact Hr|].
    repeat split; try done. lia.
  - inversion Hits as [|? ? Hit Hits']; subst.
    destruct (train_iteration_ok c ipe n it s Hc Hm Hr Hipe Hit)
      as (s1 & l & ta1 & va1 & H1 & Hr1 & Hl1 & Hta1 & Hva1 & Hlta1 & Hlva1 & He1).
    erewrite bind_ok by exact H1.
    destruct (IH s1 Hc Hm Hr1 Hipe Hits')
      as (s' & losses & ta & va & H' & Hr' & Hl' & Hll & Hta' & Hva' & Hlta & Hlva & He').
    exists s', (l :: losses), (ta1 ++ ta), (va1 ++ va).
    split; [exact H'|]. split; [exact Hr'|].
    rewrite Hl', Hl1, Hta', Hta1, Hva', Hva1, He', He1, <- !app_assoc, !length_app.
    rewrite !filter_cons. cbn [length app].
    repeat split; try done.
    + by rewrite Hll.
    + rewrite Hlta1, Hlta. by destruct (gate_open c ipe n it).
    + rewrite Hlva1, Hlva. by destruct (gate_open c ipe n it).
    + destruct (decide ((it + 1) mod ipe = 0)%Z) as [E|E].
      * apply Z.eqb_eq in E. rewrite E. simpl length. lia.
      * apply Z.eqb_neq in E. rewrite E. lia.
Qed.

Lemma train_loop_ok c s :
  config_ok c → collaborators_ok c → ready s →
  let ipe := Z.max (Z.of_nat (length (X_train c)) / batch_size c) 1 in
  let n := num_iterations_of c ipe in
  ∃ s1 losses ta va,
    train_loop c s = (s1, Ok (ipe, n))
    ∧ ready s1
    ∧ loss_history s1 = loss_history s ++ losses
    ∧ length losses = Z.to_nat n
    ∧ train_acc_history s1 = train_acc_history s ++ ta
    ∧ val_acc_history s1 = val_acc_history s ++ va
    ∧ length ta = gate_triggers c ipe n
    ∧ length va = gate_triggers c ipe n
    ∧ epoch s1 = (epoch s + Z.of_nat (Z.to_nat n) / ipe)%Z.
Proof.
  intros Hc Hm Hr ipe n. unfold train_loop, iterations_per_epoch_of, py_floordiv.
  pose proof (batch_size_pos c Hc) as Hbs.
  assert ((batch_size c =? 0)%Z = false) as -> by (apply Z.eqb_neq; lia).
  cbn [result_bind]. rewrite run_lift. fold ipe. fold n.
  assert (Hipe : (1 ≤ ipe)%Z) by (unfold ipe; lia).
  destruct (for_each_train_ok c ipe n (xrange n) s Hc Hm Hr Hipe (xrange_nonneg n))
    as (s1 & losses & ta & va & H1 & Hr1 & Hl & Hll & Hta & Hva & Hlta & Hlva & He).
  erewrite bind_ok by exact H1.
  exists s1, losses, ta, va. rewrite xrange_length in Hll.
  split; [reflexivity|]. split; [exact Hr1|]. repeat split; try done.
  rewrite He. f_equal. rewrite <- (epoch_ends_count ipe (Z.to_nat n) Hipe).
  destruct (Z_le_gt_dec 0 n) as [Hn|Hn].
  - by rewrite Z2Nat.id.
  - unfold xrange. by replace (Z.to_nat n) with 0 by lia.
Qed.

(** Once the loop has returned, the end of [train] swaps the best snapshot
    in and touches no history. *)
Lemma train_after_loop c s s1 r :
  train_loop c s = (s1, Ok r) →
  params (train c s).1 = best_params s1
  ∧ loss_history (train c s).1 = loss_history s1
  ∧ train_acc_history (train c s).1 = train_acc_history s1
  ∧ val_acc_history (train c s).1 = val_acc_history s1
  ∧ epoch (train c s).1 = epoch s1
  ∧ best_params (train c s).1 = best_params s1.
Proof.
  intros H. unfold train. erewrite bind_ok by exact H.
  unfold pool_terminate, pool_join, mbind, M_bind, bind, modify, get, raise, ret. fields.
  destruct (pool s1) as [[]|]; done.
Qed.

(** ** What [_reset] establishes *)

Lemma copy_items_same d : copy_items d = d.
Proof. unfold copy_items. apply list_to_map_to_list. Qed.

Lemma config_loop_ok d (l : list string) : ∀ s,
  ∃ oc,
    for_each l (λ p, modify (λ s, set_optim_configs (<[p := d]> (optim_configs s)) s)) s
    = (set_optim_configs oc s, Ok tt)
    ∧ (∀ p, p ∈ l → oc !! p = Some d)
    ∧ (∀ p, p ∉ l → oc !! p = optim_configs s !! p).
Proof.
  induction l as [|p0 l IH]; intros s; simpl.
  - exists (optim_configs s). split; [by destruct s|]. split; [|done].
    intros p Hp. by apply not_elem_of_nil in Hp.
  - rewrite run_modify.
    destruct (IH (set_optim_configs (<[p0 := d]> (optim_configs s)) s)) as (oc & Hrun & Hin & Hout).
    exists oc. split; [exact Hrun|]. fields. split.
    + intros p Hp. destruct (decide (p ∈ l)) as [Hl|Hl]; [by apply Hin|].
      apply elem_of_cons in Hp as [->|Hp]; [|done].
      by rewrite (Hout _ Hl), lookup_insert_eq.
    + intros p Hp. apply not_elem_of_cons in Hp as [Hne Hl].
      by rewrite (Hout _ Hl), lookup_insert_ne.
Qed.

(** With at least one process [_reset] returns a fresh training state: epoch
    0, best accuracy 0, no snapshot, empty histories, and for every
    parameter a config holding the items of the solver-level config; the
    parameter store is untouched and the solver is ready to train. *)
Lemma _reset_ok c s :
  (1 ≤ num_processes c)%Z →
  ∃ s', _reset c s = (s', Ok tt)
    ∧ ready s'
    ∧ params s' = params s
    ∧ epoch s' = 0%Z ∧ best_val_acc s' = 0%Q ∧ best_params s' = ∅
    ∧ loss_history s' = [] ∧ train_acc_history s' = [] ∧ val_acc_history s' = []
    ∧ ∀ p, p ∈ dom (params s) → optim_configs s' !! p = Some (optim_config c).
Proof.
  intros Hn. unfold _reset. rewrite !run_modify, run_get. fields.
  set (s0 := set_optim_configs ∅ _).
  destruct (config_loop_ok (copy_items (optim_config c)) (map fst (map_to_list (params s))) s0)
    as (oc & Hrun & Hin & Hout).
  erewrite bind_ok by exact Hrun. rewrite run_modify, run_get. fields.
  assert (Hkeys : ∀ p, p ∈ map fst (map_to_list (params s)) ↔ p ∈ dom (params s)).
  { intros p. rewrite list_elem_of_In, in_map_iff, elem_of_dom. split.
    - intros ([p' w] & <- & Hpw). apply list_elem_of_In, elem_of_map_to_list in Hpw. eauto.
    - intros [w Hw]. exists (p, w). split; [done|].
      by apply list_elem_of_In, elem_of_map_to_list. }
  assert (Hdom : dom oc = dom (params s)).
  { apply set_eq. intros p. rewrite <- Hkeys, elem_of_dom. split.
    - intros Hsome. destruct (decide (p ∈ map fst (map_to_list (params s)))) as [|Hp]; [done|].
      rewrite (Hout p Hp) in Hsome. subst s0. fields. rewrite lookup_empty in Hsome.
      by destruct Hsome.
    - intros Hp. rewrite (Hin p Hp). eauto. }
  assert (Hcfg : ∀ p, p ∈ dom (params s) → oc !! p = Some (optim_config c)).
  { intros p Hp. rewrite (Hin p) by by apply Hkeys. by rewrite copy_items_same. }
  destruct (negb (num_processes c - 1 =? 0)%Z) eqn:Emp.
  - unfold mp_Pool. assert ((num_processes c <? 1)%Z = false) as -> by (apply Z.ltb_ge; lia).
    eexists. split; [reflexivity|]. subst s0. fields.
    split; [by constructor|]. by repeat split.
  - eexists. split; [reflexivity|]. subst s0. fields.
    split; [constructor; [done | by intros ?]|]. by repeat split.
Qed.

(** ** The concrete collaborators keep their contracts *)

Lemma feature_sgd_ok c :
  model c = feature_model → update_rule c = sgd →
  batch_augment_func c = None → custom_update_ld c = None →
  collaborators_ok c.
Proof.
  intros Hmodel Hrule Haug Hld. constructor.
  - intros ps X y. rewrite Hmodel. simpl. eexists _, _. split; [reflexivity|].
    intros p w Hp. exists (map (λ _, 1%Q) w). rewrite lookup_fmap, Hp.
    split; [done | by rewrite length_map].
  - intros ps X. rewrite Hmodel. simpl. eexists. split; [reflexivity|].
    apply Forall_map, Forall_forall. intros x _. by destruct x.
  - intros h w dw config. rewrite Hrule. unfold sgd. eexists _, _, _.
    split; [reflexivity|].
    destruct (config !! "learning_rate"%string) eqn:E; [by rewrite E|].
    by rewrite lookup_insert_eq.
  - intros f Hf. congruence.
  - intros f Hf. congruence.
Qed.

(** ** Main results *)

(** C10.  [check_accuracy] is read-only with respect to the training state:
    whatever the dataset and the arguments, and whether it returns or
    raises, the parameter store, the epoch counter, the best accuracy and
    snapshot, the three histories, the optimizer configs (and the arrays
    they refer to), the decay factor and the file system are afterwards what
    they were before; only the random generator and the pool may differ. *)
Theorem check_accuracy_read_only c X y num_samples bs return_preds s :
  same_training s (check_accuracy c X y num_samples bs return_preds s).1.
Proof.
  apply (keeps_check_accuracy same_training same_training_refl same_training_trans c).
  - intros v s'. by constructor.
  - intros s' _. by constructor.
Qed.

(** C2.  The condition asserted on line 355 holds for every combination of
    labels and [return_preds], so the assertion never fires: a call with
    labels and [return_preds=True] returns the predictions, and a call
    without labels and with [return_preds=False] returns the accuracy 0. *)
Theorem labels_contract_never_fails :
  (∀ y return_preds, labels_contract y return_preds = true)
  ∧ (let c := config_of feature_model single_kw in
     let s := fresh feature_model single_kw ∅ empty_fs in
     (check_accuracy c (X_val c) (Some (y_val c)) None 100 true s).2
       = Ok (Preds [0; 1]%Z)
     ∧ (check_accuracy c (X_val c) None None 100 false s).2 = Ok (Acc 0)).
Proof.
  split.
  - intros y return_preds. unfold labels_contract. by destruct (is_None y && return_preds).
  - split; vm_compute; reflexivity.
Qed.

(** C3.  [os.listdir] runs before the [try]: when the resume directory does
    not exist, [load_current_checkpoint] raises [OSError] to its caller and
    leaves the state as it found it. *)
Theorem load_from_missing_directory_raises c s d :
  load_dir c = Some d → fs_dirs (fs s) !! d = None →
  load_current_checkpoint c s = (s, Raise OSError).
Proof.
  intros Hd Hf. unfold load_current_checkpoint, os_listdir.
  rewrite run_get, Hd, Hf. reflexivity.
Qed.

Lemma load_from_missing_directory_raises_witness :
  load_current_checkpoint (config_of feature_model resume_kw)
    (blank two_params resume_kw ∅ empty_fs)
  = (blank two_params resume_kw ∅ empty_fs, Raise OSError).
Proof.
  apply (load_from_missing_directory_raises _ _ "runs"%string); reflexivity.
Defined.

(** The constructor lets the error through. *)
Lemma constructor_missing_directory_raises :
  __init__ optim_registry feature_model two_params two_class_data resume_kw ∅ empty_fs (λ n, n)
  = Raise OSError.
Proof. vm_compute. reflexivity. Qed.

(** A directory that is listed but holds no entry, or an entry that does not
    parse, sends the solver back to a fresh state. *)
Lemma load_without_checkpoints_resets c s d entries :
  load_dir c = Some d → fs_dirs (fs s) !! d = Some entries →
  is_ok (result_bind
           (result_mapM (λ f, result_bind (list_get (py_split_underscore f) 1) py_int_of_string)
                        entries)
           py_max) = false →
  load_current_checkpoint c s = _reset c s.
Proof.
  intros Hd Hf Hparse. unfold load_current_checkpoint, os_listdir.
  rewrite run_get, Hd, Hf, run_lift. unfold try_except.
  destruct (result_mapM _ entries) as [nums|e]; simpl in Hparse.
  - rewrite run_lift. destruct (py_max nums); [done|]. by rewrite run_lift_raise.
  - by rewrite run_lift_raise.
Qed.

(** A resume directory without a usable checkpoint gives the fresh state. *)
Lemma load_without_checkpoints_fresh c s d entries :
  (1 ≤ num_processes c)%Z →
  load_dir c = Some d → fs_dirs (fs s) !! d = Some entries →
  is_ok (result_bind
           (result_mapM (λ f, result_bind (list_get (py_split_underscore f) 1) py_int_of_string)
                        entries)
           py_max) = false →
  ∃ s', load_current_checkpoint c s = (s', Ok tt)
    ∧ epoch s' = 0%Z ∧ best_val_acc s' = 0%Q ∧ best_params s' = ∅
    ∧ loss_history s' = [] ∧ train_acc_history s' = [] ∧ val_acc_history s' = [].
Proof.
  intros Hn Hd Hf Hparse. rewrite (load_without_checkpoints_resets c s d entries Hd Hf Hparse).
  destruct (_reset_ok c s Hn) as (s' & Hr & _ & _ & H). exists s'. split; [exact Hr|].
  by destruct H as (? & ? & ? & ? & ? & ? & _).
Qed.

Lemma constructor_empty_directory_starts_fresh :
  match __init__ optim_registry feature_model two_params two_class_data resume_kw ∅
          fs_empty_runs (λ n, n) with
  | Ok (c, s) =>
      epoch s = 0%Z ∧ best_val_acc s = 0%Q ∧ loss_history s = []
      ∧ train_acc_history s = [] ∧ val_acc_history s = []
  | Raise _ => False
  end.
Proof. vm_compute. repeat split. Qed.

(** C1.  A solver built for a single process has no pool.  When the loop of
    [train] has returned on such a solver, the end of [train] swaps the best
    snapshot into the model and then raises [AttributeError] at
    [self.pool.terminate()]. *)
Theorem train_without_pool_raises c s :
  pool s = None → is_ok (train_loop c s).2 = true →
  train c s
  = (set_params (best_params (train_loop c s).1) (train_loop c s).1, Raise AttributeError).
Proof.
  intros Hp Hok. pose proof (train_loop_pool_absent c s Hp) as Hp1.
  unfold train, pool_terminate, mbind, M_bind, bind, modify, get, raise.
  destruct (train_loop c s) as [s1 [r|e]]; [|done].
  cbn [fst snd] in *. fields. by rewrite Hp1.
Qed.

Lemma train_without_pool_raises_witness :
  train (config_of feature_model degenerate_kw) (fresh feature_model degenerate_kw ∅ empty_fs)
  = (set_params
       (best_params (train_loop (config_of feature_model degenerate_kw)
                       (fresh feature_model degenerate_kw ∅ empty_fs)).1)
       (train_loop (config_of feature_model degenerate_kw)
          (fresh feature_model degenerate_kw ∅ empty_fs)).1,
     Raise AttributeError).
Proof.
  apply train_without_pool_raises; vm_compute; reflexivity.
Defined.

(** The same on a run of one epoch with the default keywords. *)
Lemma train_single_process_raises :
  (train (config_of feature_model single_kw) (fresh feature_model single_kw ∅ empty_fs)).2
  = Raise AttributeError.
Proof. vm_compute. reflexivity. Qed.

(** The constructor creates the pool only for more than one process. *)
Lemma reset_single_process_no_pool c s :
  num_processes c = 1%Z → pool (_reset c s).1 = pool s.
Proof.
  intros Hn. unfold _reset. rewrite !run_modify, run_get.
  set (s0 := set_optim_configs ∅ _).
  pose proof (keeps_for_each (agree_on pool) (agree_on_refl _) (agree_on_trans _)
                (map fst (map_to_list (params s0)))
                (λ p, modify (λ s, set_optim_configs
                                     (<[p := copy_items (optim_config c)]> (optim_configs s)) s))
                ltac:(by intros p s') s0) as Hloop.
  unfold mbind, M_bind, bind.
  destruct (for_each _ _ s0) as [s1 [[]|e]]; [|exact Hloop].
  unfold agree_on in Hloop. simpl in Hloop.
  rewrite Hn. simpl. exact Hloop.
Qed.

(** C4.  The best accuracy starts at 0 and a snapshot is taken on a strict
    improvement only: with a model that gets every validation item wrong,
    training evaluates twice, both accuracies are 0, no snapshot is ever
    taken, and [train] leaves the model with an empty parameter store. *)
Theorem zero_accuracy_leaves_no_snapshot :
  let c := config_of contrary_model pooled_kw in
  let r := train c (fresh contrary_model pooled_kw ∅ empty_fs) in
  r.2 = Ok tt
  ∧ val_acc_history r.1 = [0 # 2; 0 # 2]%Q
  ∧ best_val_acc r.1 = 0%Q
  ∧ params r.1 = ∅.
Proof. vm_compute. repeat split. Qed.

(** C5.  [last_it] compares with [num_iterations + 1], which no iteration
    reaches.  On a run of one epoch and a half (three iterations of two per
    epoch, not verbose) the gate is shut on the final iteration, and only
    two evaluations take place. *)
Theorem final_iteration_not_evaluated :
  let c := config_of feature_model fractional_kw in
  let r := train_loop c (fresh feature_model fractional_kw ∅ empty_fs) in
  r.2 = Ok (2, 3)%Z
  ∧ gate c 2 3 2 = Ok false
  ∧ gate_as_specified c 2 3 2 = true
  ∧ length (loss_history r.1) = 3
  ∧ length (val_acc_history r.1) = 2.
Proof. vm_compute. repeat split. Qed.

(** Inside the loop [last_it] is always false. *)
Lemma last_it_never_holds n it : it ∈ xrange n → (it =? n + 1)%Z = false.
Proof.
  intros Hit. apply list_elem_of_In, in_map_iff in Hit as (i & <- & Hi).
  apply in_seq in Hi. apply Z.eqb_neq. lia.
Qed.

(** With a whole number of epochs the final iteration completes an epoch,
    so the gate of the code is the gate of the specification on every
    iteration of the run. *)
Lemma gate_agrees_on_whole_epochs c e ipe it :
  config_ok c → (1 ≤ ipe)%Z → it ∈ xrange (e * ipe) →
  gate c ipe (e * ipe) it = Ok (gate_as_specified c ipe (e * ipe) it).
Proof.
  intros Hc Hipe Hit. unfold gate, gate_as_specified.
  rewrite is_epoch_end_ok by done. cbn [result_bind].
  rewrite (last_it_never_holds _ _ Hit).
  assert ((if verbose c
           then result_bind (py_mod (it + 1) (print_every c)) (λ r, Ok (r =? 0)%Z)
           else Ok false)
          = Ok (verbose c && ((it + 1) mod print_every c =? 0)%Z)) as ->.
  { destruct (verbose c) eqn:Ev; [|done]. unfold py_mod.
    pose proof (print_every_pos c Hc Ev).
    by assert ((print_every c =? 0)%Z = false) as -> by (apply Z.eqb_neq; lia). }
  cbn [result_bind]. f_equal.
  destruct (it =? e * ipe - 1)%Z eqn:Efinal; [|by rewrite !orb_false_r].
  apply Z.eqb_eq in Efinal. subst it.
  replace (e * ipe - 1 + 1)%Z with (e * ipe)%Z by lia.
  rewrite Z.mod_mul by lia. simpl. by rewrite !orb_true_r.
Qed.

(** C9.  [_reset] copies the items of the solver-level config, not the
    values: an array-valued learning rate is one array shared by every
    parameter's config.  Decaying the learning rate of [W1] changes the one
    [W2] reads, and one epoch end decays it once per parameter. *)
Theorem shared_learning_rate_is_aliased :
  let s := fresh feature_model shared_lr_kw shared_lr_heap empty_fs in
  read_learning_rate s "W1" = Some [1 # 10]%Q
  ∧ read_learning_rate s "W2" = Some [1 # 10]%Q
  ∧ read_learning_rate (decay_learning_rate "W1" s).1 "W2" = Some [1 # 20]%Q
  ∧ read_learning_rate (decay_all s).1 "W1" = Some [1 # 40]%Q
  ∧ read_learning_rate (decay_all s).1 "W2" = Some [1 # 40]%Q.
Proof. vm_compute. repeat split. Qed.

(** The dictionaries themselves are separate: decaying one parameter's
    learning rate leaves every other parameter's dictionary as it was. *)
Lemma decay_keeps_other_dicts k k' s :
  k ≠ k' → optim_configs (decay_learning_rate k s).1 !! k' = optim_configs s !! k'.
Proof.
  intros Hne. unfold decay_learning_rate, dict_get. rewrite run_get.
  destruct (optim_configs s !! k) as [config|]; [|done]. rewrite run_lift.
  destruct (config !! "learning_rate"%string) as [[q|l]|]; [| done | done].
  rewrite run_lift. unfold modify. cbn [fst]. fields. by rewrite lookup_insert_ne.
Qed.

(** ** The concrete solvers meet the side conditions *)

Lemma feature_config_ok kw :
  kw_extra kw = [] → kw_update_rule kw = None → kw_batch_size kw = Some 4%Z →
  kw_verbose kw = Some false → (1 ≤ default 1 (kw_num_processes kw))%Z →
  config_ok (config_of feature_model kw).
Proof.
  intros Hextra Hrule Hbs Hverb Hn. unfold config_of, unpack.
  rewrite Hextra, Hrule. simpl. constructor; simpl; rewrite ?Hbs, ?Hverb; simpl; try done.
Qed.

Lemma feature_collaborators_ok kw :
  kw_extra kw = [] → kw_update_rule kw = None →
  kw_batch_augment_func kw = None → kw_custom_update_ld kw = None →
  collaborators_ok (config_of feature_model kw).
Proof.
  intros Hextra Hrule Haug Hld. unfold config_of, unpack. rewrite Hextra, Hrule. simpl.
  by apply feature_sgd_ok.
Qed.

Lemma fresh_single_ready : ready (fresh feature_model single_kw ∅ empty_fs).
Proof. constructor; [by vm_compute | intros H; by vm_compute in H]. Qed.

Lemma fresh_pooled_ready : ready (fresh feature_model pooled_kw ∅ empty_fs).
Proof. constructor; [by vm_compute | intros _; by vm_compute]. Qed.

(** C6.  On a configuration [train] can run on, with collaborators that keep
    their contracts and a whole number [e] of epochs, the loop runs
    [e * max(num_train // batch_size, 1)] iterations: it returns with that
    iteration count, the loss history has grown by as many entries and the
    epoch counter by [e], whatever the end of [train] then does. *)
Theorem train_runs_every_iteration c s e :
  config_ok c → collaborators_ok c → ready s →
  num_epochs c = inject_Z e → (0 ≤ e)%Z →
  let ipe := Z.max (Z.of_nat (length (X_train c)) / batch_size c) 1 in
  (train_loop c s).2 = Ok (ipe, (e * ipe)%Z)
  ∧ length (loss_history (train c s).1) = length (loss_history s) + Z.to_nat (e * ipe)
  ∧ epoch (train c s).1 = (epoch s + e)%Z.
Proof.
  intros Hc Hm Hr He Hpos ipe.
  destruct (train_loop_ok c s Hc Hm Hr)
    as (s1 & losses & ta & va & H1 & _ & Hl & Hll & _ & _ & _ & _ & Hep).
  fold ipe in H1, Hll, Hep.
  assert (Hn : num_iterations_of c ipe = (e * ipe)%Z).
  { unfold num_iterations_of. by rewrite He, py_int_inject. }
  rewrite Hn in H1, Hll, Hep.
  destruct (train_after_loop c s s1 _ H1) as (_ & Hl' & _ & _ & He' & _).
  rewrite H1, Hl', He', Hl, Hep, length_app, Hll. repeat split.
  assert (1 ≤ ipe)%Z by (unfold ipe; lia).
  rewrite Z2Nat.id by nia. by rewrite Z.div_mul by lia.
Qed.

(** The scenario of the specification: [batch_size=4], [num_epochs=1], eight
    training items. *)
Lemma train_runs_every_iteration_witness :
  (train_loop (config_of feature_model single_kw)
     (fresh feature_model single_kw ∅ empty_fs)).2 = Ok (2, 2)%Z
  ∧ length (loss_history (train (config_of feature_model single_kw)
                            (fresh feature_model single_kw ∅ empty_fs)).1) = 2
  ∧ epoch (train (config_of feature_model single_kw)
             (fresh feature_model single_kw ∅ empty_fs)).1 = 1%Z.
Proof.
  apply (train_runs_every_iteration (config_of feature_model single_kw)
           (fresh feature_model single_kw ∅ empty_fs) 1).
  - apply feature_config_ok; reflexivity || (simpl; lia).
  - apply feature_collaborators_ok; reflexivity.
  - apply fresh_single_ready.
  - reflexivity.
  - lia.
Defined.

(** C7.  On a configuration [train] can run on, with collaborators that keep
    their contracts, [train] only appends to the three histories: one loss
    per iteration of the loop, and one train accuracy and one val accuracy
    per iteration whose gate is open. *)
Theorem train_history_lengths c s :
  config_ok c → collaborators_ok c → ready s →
  ∃ ipe n losses ta va,
    (train_loop c s).2 = Ok (ipe, n)
    ∧ loss_history (train c s).1 = loss_history s ++ losses
    ∧ train_acc_history (train c s).1 = train_acc_history s ++ ta
    ∧ val_acc_history (train c s).1 = val_acc_history s ++ va
    ∧ length losses = Z.to_nat n
    ∧ length ta = gate_triggers c ipe n
    ∧ length va = gate_triggers c ipe n.
Proof.
  intros Hc Hm Hr.
  destruct (train_loop_ok c s Hc Hm Hr)
    as (s1 & losses & ta & va & H1 & _ & Hl & Hll & Hta & Hva & Hlta & Hlva & _).
  destruct (train_after_loop c s s1 _ H1) as (_ & Hl' & Hta' & Hva' & _ & _).
  eexists _, _, losses, ta, va. rewrite H1, Hl', Hta', Hva'.
  split; [reflexivity|]. by repeat split.
Qed.

Lemma train_history_lengths_witness :
  ∃ ipe n losses ta va,
    (train_loop (config_of feature_model pooled_kw)
       (fresh feature_model pooled_kw ∅ empty_fs)).2 = Ok (ipe, n)
    ∧ loss_history (train (config_of feature_model pooled_kw)
                      (fresh feature_model pooled_kw ∅ empty_fs)).1
      = loss_history (fresh feature_model pooled_kw ∅ empty_fs) ++ losses
    ∧ train_acc_history (train (config_of feature_model pooled_kw)
                           (fresh feature_model pooled_kw ∅ empty_fs)).1
      = train_acc_history (fresh feature_model pooled_kw ∅ empty_fs) ++ ta
    ∧ val_acc_history (train (config_of feature_model pooled_kw)
                         (fresh feature_model pooled_kw ∅ empty_fs)).1
      = val_acc_history (fresh feature_model pooled_kw ∅ empty_fs) ++ va
    ∧ length losses = Z.to_nat n
    ∧ length ta = gate_triggers (config_of feature_model pooled_kw) ipe n
    ∧ length va = gate_triggers (config_of feature_model pooled_kw) ipe n.
Proof.
  apply train_history_lengths.
  - apply feature_config_ok; reflexivity || (simpl; lia).
  - apply feature_collaborators_ok; reflexivity.
  - apply fresh_pooled_ready.
Defined.

(** C8.  In the parallel path of a step, when every shard's job returns and
    reports, for each parameter of the model, a gradient of the parameter's
    shape, the aggregated loss is the arithmetic mean of the shard losses
    and the aggregated gradient of every parameter is the elementwise
    arithmetic mean of the shards' gradients for it; the state is left as
    it was. *)
Theorem parallel_loss_averages c s X_batch y_batch X_batches y_batches results :
  pool s = Some PoolRun →
  array_split X_batch (num_processes c) = Ok X_batches →
  array_split y_batch (num_processes c) = Ok y_batches →
  result_mapM (λ job : list array * list Z, loss (model c) (params s) job.1 job.2)
              (combine X_batches y_batches) = Ok results →
  (∀ p w, params s !! p = Some w →
     Forall (λ r : Q * gmap string array, ∃ a, r.2 !! p = Some a ∧ length a = length w)
            results) →
  ∃ l g,
    parallel_loss c X_batch y_batch s = (s, Ok (l, g))
    ∧ length results = Z.to_nat (num_processes c)
    ∧ l == Qsum (map fst results) / inject_Z (Z.of_nat (length results))
    ∧ ∀ p w, params s !! p = Some w →
        ∃ a, g !! p = Some a ∧ length a = length w
          ∧ ∀ i, i < length w → nth i a 0%Q == elementwise_mean (shard_gradients p results) i.
Proof. apply parallel_loss_ok. Qed.

Lemma parallel_loss_averages_witness :
  ∃ l g,
    parallel_loss (config_of feature_model pooled_kw) batch_X batch_y
      (fresh feature_model pooled_kw ∅ empty_fs)
    = (fresh feature_model pooled_kw ∅ empty_fs, Ok (l, g))
    ∧ length shard_reports = Z.to_nat (num_processes (config_of feature_model pooled_kw))
    ∧ l == Qsum (map fst shard_reports) / inject_Z (Z.of_nat (length shard_reports))
    ∧ ∀ p w, params (fresh feature_model pooled_kw ∅ empty_fs) !! p = Some w →
        ∃ a, g !! p = Some a ∧ length a = length w
          ∧ ∀ i, i < length w →
              nth i a 0%Q == elementwise_mean (shard_gradients p shard_reports) i.
Proof.
  apply (parallel_loss_averages (config_of feature_model pooled_kw)
           (fresh feature_model pooled_kw ∅ empty_fs) batch_X batch_y shards_X shards_y
           shard_reports).
  - vm_compute. reflexivity.
  - vm_compute. reflexivity.
  - vm_compute. reflexivity.
  - vm_compute. reflexivity.
  - intros p w Hp. change (two_params !! p = Some w) in Hp.
    repeat constructor; exists (map (λ _, 1%Q) w); simpl; unfold unit_gradients;
      rewrite lookup_fmap, Hp; (split; [done | by rewrite length_map]).
Defined.

(** ** The string helpers on checkpoint names *)

Example split_check_12 : py_split_underscore "check_12" = ["check"; "12"]%string.
Proof. reflexivity. Qed.

Example int_of_padded : py_int_of_string " -12 " = Ok (-12)%Z.
Proof. reflexivity. Qed.

Example int_of_name : py_int_of_string "pkl" = Raise ValueError.
Proof. reflexivity. Qed.

Example str_of_epoch : py_str 12 = "12"%string ∧ py_str 0 = "0"%string.
Proof. split; reflexivity. Qed.

Example checkpoint_path :
  path_join3 "checkpoints" "check_3" "check_3.pkl" = "checkpoints/check_3/check_3.pkl"%string.
Proof. reflexivity. Qed.

(** ** Invariants of the training loop *)

Section Parts.

Context (R : Solver → Solver → Prop).
Context (R_refl : ∀ s, R s s).
Context (R_trans : ∀ s1 s2 s3, R s1 s2 → R s2 s3 → R s1 s3).
Context (c : Config).
Context (R_rng : ∀ v s, R s (set_rng v s)).
Context (R_pool_terminate : ∀ s, is_Some (pool s) → R s (set_pool (Some PoolTerminated) s)).
Context (R_loss_append : ∀ x s, R s (set_loss_history (loss_history s ++ [x]) s)).
Context (R_apply_updates : ∀ grads, keeps R (apply_updates c grads)).
Context (R_record : ∀ a b,
  keeps R (modify (λ s, set_train_acc_history (train_acc_history s ++ [a]) s);;
           modify (λ s, set_val_acc_history (val_acc_history s ++ [b]) s);;
           keep_best b)).
Context (R_end_epoch : keeps R (end_epoch c)).

Lemma parts__step : keeps R (_step c).
Proof.
  unfold _step. apply (keeps_bind R R_trans).
  - by apply keeps_compute_loss.
  - intros lg. apply (keeps_bind R R_trans); [|intros _; apply R_apply_updates].
    intros s. apply R_loss_append.
Qed.

Lemma parts_evaluate it : keeps R (evaluate c it).
Proof.
  unfold evaluate.
  apply (keeps_bind R R_trans); [by apply keeps_check_accuracy | intros r1].
  apply (keeps_bind R R_trans); [by apply keeps_check_accuracy | intros r2].
  destruct r1, r2; try by apply keeps_raise.
  apply (keeps_bind R R_trans); [|intros _; apply R_record].
  destruct (_ && _); [by apply keeps_raise | by apply keeps_ret].
Qed.

Lemma parts_train_iteration ipe n it : keeps R (train_iteration c ipe n it).
Proof.
  unfold train_iteration.
  apply (keeps_bind R R_trans); [apply parts__step | intros _].
  apply (keeps_bind R R_trans); [by apply keeps_lift | intros epoch_end].
  apply (keeps_bind R R_trans); [by apply keeps_lift | intros g].
  apply (keeps_bind R R_trans); [apply keeps_when; [done | apply parts_evaluate] | intros _].
  apply keeps_when; [done | exact R_end_epoch].
Qed.

Lemma parts_train_loop : keeps R (train_loop c).
Proof.
  unfold train_loop.
  apply (keeps_bind R R_trans); [by apply keeps_lift | intros ipe].
  apply (keeps_bind R R_trans); [|intros _; by apply keeps_ret].
  apply keeps_for_each; [done | done | intros it]. apply parts_train_iteration.
Qed.

End Parts.

Lemma names_kept_refl s : names_kept s s.
Proof. by split. Qed.

Lemma names_kept_trans s1 s2 s3 : names_kept s1 s2 → names_kept s2 s3 → names_kept s1 s3.
Proof. intros [] []. split; congruence. Qed.

Lemma names_kept_same s s' :
  params s' = params s → optim_configs s' = optim_configs s → names_kept s s'.
Proof. intros H1 H2. split; congruence. Qed.

Lemma dom_insert_present {V} (m : gmap string V) k v :
  is_Some (m !! k) → dom (<[k := v]> m) = dom m.
Proof.
  intros Hk. rewrite dom_insert_L. apply elem_of_dom in Hk.
  apply subseteq_union_1_L, singleton_subseteq_l, Hk.
Qed.

Lemma update_param_names c grads pw s :
  pw.1 ∈ dom (params s) → names_kept s (update_param c grads pw s).1.
Proof.
  intros Hp. unfold update_param, dict_get.
  destruct (grads !! pw.1) as [dw|]; [|apply names_kept_refl].
  rewrite run_lift, run_get.
  destruct (optim_configs s !! pw.1) as [config|] eqn:Ec; [|apply names_kept_refl].
  rewrite run_lift.
  destruct (update_rule c (heap s) pw.2 dw config) as [r|e]; [|apply names_kept_refl].
  rewrite run_lift, !run_modify. unfold modify. cbn [fst]. fields.
  split; fields; apply dom_insert_present; [by apply elem_of_dom | by rewrite Ec].
Qed.

Lemma update_loop_names c grads (l : list (string * array)) : ∀ s,
  (∀ pw, pw ∈ l → pw.1 ∈ dom (params s)) →
  names_kept s (for_each l (update_param c grads) s).1.
Proof.
  induction l as [|pw l IH]; intros s Hl; simpl.
  - apply names_kept_refl.
  - pose proof (update_param_names c grads pw s (Hl pw ltac:(left))) as H1.
    unfold mbind, M_bind, bind.
    destruct (update_param c grads pw s) as [s1 [[]|e]]; [|exact H1].
    cbn [fst] in H1. eapply names_kept_trans; [exact H1|]. apply IH.
    intros pw' Hpw'. destruct H1 as [-> _]. apply Hl. by right.
Qed.

Lemma apply_updates_names c grads : keeps names_kept (apply_updates c grads).
Proof.
  intros s. unfold apply_updates. rewrite run_get. apply update_loop_names.
  intros [p w] Hpw. apply elem_of_map_to_list in Hpw. apply elem_of_dom. eauto.
Qed.

Lemma decay_learning_rate_names k : keeps names_kept (decay_learning_rate k).
Proof.
  intros s. unfold decay_learning_rate, dict_get. rewrite run_get.
  destruct (optim_configs s !! k) as [config|] eqn:Ec; [|apply names_kept_refl].
  rewrite run_lift.
  destruct (config !! "learning_rate"%string) as [[q|l]|]; try apply names_kept_refl.
  - rewrite run_lift. unfold modify. cbn [fst]. split; fields; [done|].
    apply dom_insert_present. by rewrite Ec.
  - rewrite run_lift. by apply names_kept_same.
Qed.

Lemma end_epoch_names c : keeps names_kept (end_epoch c).
Proof.
  unfold end_epoch.
  apply (keeps_bind _ names_kept_trans); [by intros s; apply names_kept_same | intros _].
  apply (keeps_bind _ names_kept_trans); [|intros _].
  { apply (keeps_update_decay _ names_kept_refl names_kept_trans).
    intros v s. by apply names_kept_same. }
  apply (keeps_bind _ names_kept_trans); [|intros _].
  { unfold decay_all. apply (keeps_bind _ names_kept_trans); [apply keeps_get, names_kept_refl|].
    intros s. apply (keeps_for_each _ names_kept_refl names_kept_trans).
    apply decay_learning_rate_names. }
  apply (keeps_maybe_check_point _ names_kept_refl names_kept_trans).
  intros v s. by apply names_kept_same.
Qed.

Lemma record_names a b :
  keeps names_kept
    (modify (λ s, set_train_acc_history (train_acc_history s ++ [a]) s);;
     modify (λ s, set_val_acc_history (val_acc_history s ++ [b]) s);;
     keep_best b).
Proof.
  apply (keeps_bind _ names_kept_trans); [by intros s; apply names_kept_same | intros _].
  apply (keeps_bind _ names_kept_trans); [by intros s; apply names_kept_same | intros _].
  apply (keeps_keep_best _ names_kept_refl names_kept_trans);
    intros v s; by apply names_kept_same.
Qed.

(** X7.  Training never adds or removes a parameter: whatever the model,
    the update rule and the data do, and whether the loop returns or
    raises, the parameter store and the optimizer configs have afterwards
    exactly the names they had. *)
Theorem train_loop_keeps_names c s :
  dom (params (train_loop c s).1) = dom (params s)
  ∧ dom (optim_configs (train_loop c s).1) = dom (optim_configs s).
Proof.
  apply (parts_train_loop names_kept names_kept_refl names_kept_trans c).
  - intros v s'. by apply names_kept_same.
  - intros s' _. by apply names_kept_same.
  - intros x s'. by apply names_kept_same.
  - apply apply_updates_names.
  - apply record_names.
  - apply end_epoch_names.
Qed.

Lemma best_tracked_refl s : best_tracked s s.
Proof.
  exists []. rewrite app_nil_r. split; [done|]. split; [constructor|].
  split; [apply Qle_refl | by left].
Qed.

Lemma best_tracked_trans s1 s2 s3 :
  best_tracked s1 s2 → best_tracked s2 s3 → best_tracked s1 s3.
Proof.
  intros (va1 & H1 & F1 & L1 & A1) (va2 & H2 & F2 & L2 & A2).
  exists (va1 ++ va2). rewrite H2, H1, <- app_assoc. split; [done|]. split.
  - apply Forall_app. split; [|done].
    eapply Forall_impl; [exact F1|]. intros v Hv. by apply Qle_trans with (best_val_acc s2).
  - split; [by apply Qle_trans with (best_val_acc s2)|].
    destruct A2 as [A2|A2]; [rewrite A2|].
    + destruct A1 as [A1|A1]; [by left | right]. apply elem_of_app. by left.
    + right. apply elem_of_app. by right.
Qed.

Lemma best_tracked_same s s' :
  best_val_acc s' = best_val_acc s → val_acc_history s' = val_acc_history s →
  best_tracked s s'.
Proof.
  intros H1 H2. exists []. rewrite app_nil_r, H1. split; [done|]. split; [constructor|].
  split; [apply Qle_refl | by left].
Qed.

Lemma record_best_tracked a b :
  keeps best_tracked
    (modify (λ s, set_train_acc_history (train_acc_history s ++ [a]) s);;
     modify (λ s, set_val_acc_history (val_acc_history s ++ [b]) s);;
     keep_best b).
Proof.
  intros s. rewrite !run_modify.
  set (s2 := set_val_acc_history _ _).
  destruct (Qle_bool b (best_val_acc s2)) eqn:Hb.
  - rewrite (keep_best_otherwise b s2 Hb). exists [b]. subst s2. cbn [fst]. fields.
    split; [done|]. split; [|split; [apply Qle_refl | by left]].
    constructor; [|constructor]. by apply Qle_bool_iff.
  - rewrite (keep_best_improves b s2 Hb). exists [b]. subst s2. cbn [fst]. fields.
    split; [done|]. split; [constructor; [apply Qle_refl | constructor]|].
    split; [|right; by left].
    apply Qlt_le_weak, Qnot_le_lt. intros Hle. apply Qle_bool_iff in Hle. congruence.
Qed.

(** X8.  Through every run of the training loop, returning or raising, the
    best validation accuracy never decreases, bounds every validation
    accuracy recorded during the run, and is either the value it had before
    or one of the recorded accuracies. *)
Theorem train_loop_tracks_best c s :
  ∃ va, val_acc_history (train_loop c s).1 = val_acc_history s ++ va
    ∧ Forall (λ v, (v <= best_val_acc (train_loop c s).1)%Q) va
    ∧ (best_val_acc s <= best_val_acc (train_loop c s).1)%Q
    ∧ (best_val_acc (train_loop c s).1 = best_val_acc s
       ∨ best_val_acc (train_loop c s).1 ∈ va).
Proof.
  apply (parts_train_loop best_tracked best_tracked_refl best_tracked_trans c).
  - intros v s'. by apply best_tracked_same.
  - intros s' _. by apply best_tracked_same.
  - intros x s'. by apply best_tracked_same.
  - intros grads. apply (keeps_apply_updates _ best_tracked_refl best_tracked_trans);
      intros v s'; by apply best_tracked_same.
  - apply record_best_tracked.
  - apply (keeps_end_epoch _ best_tracked_refl best_tracked_trans);
      intros v s'; by apply best_tracked_same.
Qed.

(** ** Construction and resuming *)

Ltac keeps_with Rr Rt :=
  repeat lazymatch goal with
  | |- keeps _ (mret _) => apply keeps_mret; exact Rr
  | |- keeps _ (ret _) => apply keeps_ret; exact Rr
  | |- keeps _ (raise _) => apply keeps_raise; exact Rr
  | |- keeps _ (lift _) => apply keeps_lift; exact Rr
  | |- keeps _ get => apply keeps_get; exact Rr
  | |- keeps _ (modify _) => apply keeps_modify; intros ?
  | |- keeps _ (mbind _ _) => apply (keeps_bind _ Rt); [| intros ?]
  | |- keeps _ (when _ _) => apply (keeps_when _ Rr)
  | |- keeps _ (for_each _ _) => apply (keeps_for_each _ Rr Rt); intros ?
  | |- keeps _ (try_except _ _) => apply (keeps_try_except _ Rt); [| intros ?]
  | |- keeps _ (match ?x with _ => _ end) => destruct x
  | |- keeps _ (if ?x then _ else _) => destruct x
  end.

Lemma keeps__reset {X} (f : Solver → X) c :
  (∀ v s, f (set_epoch v s) = f s) →
  (∀ v s, f (set_best_val_acc v s) = f s) →
  (∀ v s, f (set_best_params v s) = f s) →
  (∀ v s, f (set_loss_history v s) = f s) →
  (∀ v s, f (set_train_acc_history v s) = f s) →
  (∀ v s, f (set_val_acc_history v s) = f s) →
  (∀ v s, f (set_optim_configs v s) = f s) →
  (∀ v s, f (set_multiprocessing v s) = f s) →
  (∀ v s, f (set_pool v s) = f s) →
  keeps (agree_on f) (_reset c).
Proof.
  intros. unfold _reset, mp_Pool.
  keeps_with (agree_on_refl f) (agree_on_trans f); unfold agree_on; auto.
Qed.

Lemma keeps_load_current_checkpoint {X} (f : Solver → X) c :
  (∀ v s, f (set_epoch v s) = f s) →
  (∀ v s, f (set_best_val_acc v s) = f s) →
  (∀ v s, f (set_best_params v s) = f s) →
  (∀ v s, f (set_loss_history v s) = f s) →
  (∀ v s, f (set_train_acc_history v s) = f s) →
  (∀ v s, f (set_val_acc_history v s) = f s) →
  (∀ v s, f (set_optim_configs v s) = f s) →
  (∀ v s, f (set_multiprocessing v s) = f s) →
  (∀ v s, f (set_pool v s) = f s) →
  keeps (agree_on f) (load_current_checkpoint c).
Proof.
  intros. unfold load_current_checkpoint.
  keeps_with (agree_on_refl f) (agree_on_trans f); unfold agree_on; auto.
  by apply keeps__reset.
Qed.

Lemma load_all_or_nothing_aux c s d entries :
  load_dir c = Some d → fs_dirs (fs s) !! d = Some entries →
  load_current_checkpoint c s = _reset c s
  ∨ ∃ path cp e a bp lh th vh,
      fs_files (fs s) !! path = Some cp
      ∧ cp_epoch cp = Some e ∧ cp_best_val_acc cp = Some a ∧ cp_best_params cp = Some bp
      ∧ cp_loss_history cp = Some lh ∧ cp_train_acc_history cp = Some th
      ∧ cp_val_acc_history cp = Some vh
      ∧ load_current_checkpoint c s = (restored e a bp lh th vh s, Ok tt).
Proof.
  intros Hd Hf. unfold load_current_checkpoint, os_listdir.
  rewrite run_get, Hd, Hf, run_lift. unfold try_except.
  destruct (result_mapM _ entries) as [nums|e0]; [|left; by rewrite run_lift_raise].
  rewrite run_lift.
  destruct (py_max nums) as [num|e0]; [|left; by rewrite run_lift_raise].
  rewrite run_lift. unfold joblib_load.
  destruct (fs_files (fs s) !! _) as [cp|] eqn:Ecp; [|left; by rewrite run_lift_raise].
  rewrite run_lift.
  destruct (cp_epoch cp) as [e|] eqn:E1; [|left; cbn [cp_get]; by rewrite run_lift_raise].
  cbn [cp_get]. rewrite run_lift, run_modify.
  destruct (cp_best_val_acc cp) as [a|] eqn:E2;
    [|left; cbn [cp_get]; rewrite run_lift_raise; by destruct s].
  cbn [cp_get]. rewrite run_lift, run_modify.
  destruct (cp_best_params cp) as [bp|] eqn:E3;
    [|left; cbn [cp_get]; rewrite run_lift_raise; by destruct s].
  cbn [cp_get]. rewrite run_lift, run_modify.
  destruct (cp_loss_history cp) as [lh|] eqn:E4;
    [|left; cbn [cp_get]; rewrite run_lift_raise; by destruct s].
  cbn [cp_get]. rewrite run_lift, run_modify.
  destruct (cp_train_acc_history cp) as [th|] eqn:E5;
    [|left; cbn [cp_get]; rewrite run_lift_raise; by destruct s].
  cbn [cp_get]. rewrite run_lift, run_modify.
  destruct (cp_val_acc_history cp) as [vh|] eqn:E6;
    [|left; cbn [cp_get]; rewrite run_lift_raise; by destruct s].
  cbn [cp_get]. rewrite run_lift.
  right. eexists. exists cp, e, a, bp, lh, th, vh. split; [exact Ecp|]. by repeat split.
Qed.

Lemma _reset_too_few_processes c s :
  (num_processes c < 1)%Z → (_reset c s).2 = Raise ValueError.
Proof.
  intros Hn. unfold _reset. rewrite !run_modify, run_get. fields.
  set (s0 := set_optim_configs ∅ _).
  destruct (config_loop_ok (copy_items (optim_config c)) (map fst (map_to_list (params s))) s0)
    as (oc & Hrun & _).
  erewrite bind_ok by exact Hrun. rewrite run_modify, run_get. fields.
  assert (negb (num_processes c - 1 =? 0)%Z = true) as ->.
  { apply negb_true_iff, Z.eqb_neq. lia. }
  unfold mp_Pool. by assert ((num_processes c <? 1)%Z = true) as -> by (apply Z.ltb_lt; lia).
Qed.

Lemma ready_restored e a bp lh th vh s : ready s → ready (restored e a bp lh th vh s).
Proof. intros [H1 H2]. by constructor. Qed.

Lemma start_ok c s0 :
  (1 ≤ num_processes c)%Z →
  (load_dir_set c = true → ∃ d, load_dir c = Some d ∧ is_Some (fs_dirs (fs s0) !! d)) →
  ∃ s, start c s0 = (s, Ok tt)
    ∧ ready s
    ∧ params s = params s0 ∧ lr_decay s = lr_decay s0
    ∧ ∀ p, p ∈ dom (params s0) → optim_configs s !! p = Some (optim_config c).
Proof.
  intros Hn Hdir. unfold start.
  destruct (_reset_ok c s0 Hn) as (s1 & H1 & Hr1 & Hp1 & _ & _ & _ & _ & _ & _ & Hoc1).
  erewrite bind_ok by exact H1.
  assert (Hlr1 : lr_decay s1 = lr_decay s0).
  { pose proof (keeps__reset lr_decay c ltac:(done) ltac:(done) ltac:(done) ltac:(done)
                  ltac:(done) ltac:(done) ltac:(done) ltac:(done) ltac:(done) s0) as H.
    unfold agree_on in H. by rewrite H1 in H. }
  assert (Hfs1 : fs s1 = fs s0).
  { pose proof (keeps__reset fs c ltac:(done) ltac:(done) ltac:(done) ltac:(done)
                  ltac:(done) ltac:(done) ltac:(done) ltac:(done) ltac:(done) s0) as H.
    unfold agree_on in H. by rewrite H1 in H. }
  destruct (load_dir_set c) eqn:Eset; cbn [when].
  - destruct (Hdir eq_refl) as (d & Hd & [entries He]). rewrite <- Hfs1 in He.
    destruct (load_all_or_nothing_aux c s1 d entries Hd He)
      as [Hl | (path & cp & e & a & bp & lh & th & vh & _ & _ & _ & _ & _ & _ & _ & Hl)];
      rewrite Hl.
    + destruct (_reset_ok c s1 Hn) as (s2 & H2 & Hr2 & Hp2 & _ & _ & _ & _ & _ & _ & Hoc2).
      pose proof (keeps__reset lr_decay c ltac:(done) ltac:(done) ltac:(done) ltac:(done)
                    ltac:(done) ltac:(done) ltac:(done) ltac:(done) ltac:(done) s1) as H.
      unfold agree_on in H. rewrite H2 in H. cbn [fst] in H.
      exists s2. split; [exact H2|]. split; [exact Hr2|].
      split; [congruence|]. split; [congruence|].
      intros p Hp. apply Hoc2. by rewrite Hp1.
    + eexists. split; [reflexivity|]. split; [by apply ready_restored|].
      unfold restored. fields. by repeat split.
  - exists s1. split; [reflexivity|]. split; [exact Hr1|]. by repeat split.
Qed.

(** What the constructor needs in order to return. *)
Lemma constructor_needs optim m ps data kw h f rnd :
  is_ok (__init__ optim m ps data kw h f rnd) = true →
  kw_extra kw = []
  ∧ is_Some (optim !! default "sgd"%string (kw_update_rule kw))
  ∧ (1 ≤ default 1 (kw_num_processes kw))%Z
  ∧ (∀ d, kw_load_dir kw = Some d → d ≠ ""%string → is_Some (fs_dirs f !! d)).
Proof.
  unfold __init__, unpack.
  destruct (kw_extra kw) as [|x extra]; cbn [length Nat.eqb negb]; [|done].
  destruct (optim !! default "sgd"%string (kw_update_rule kw)) as [rule|]; [|done].
  set (c := Build_Config _ _ _ _ _ _ _ _ _ _ _ _ _ _ _ _ _ _).
  set (s0 := blank ps kw h f).
  intros Hok. split; [done|]. split; [by eexists|].
  assert (Hn : (1 ≤ num_processes c)%Z).
  { destruct (Z_lt_le_dec (num_processes c) 1) as [Hlt|]; [|done].
    unfold start in Hok. pose proof (_reset_too_few_processes c s0 Hlt) as Hr.
    unfold mbind, M_bind, bind in Hok.
    destruct (_reset c s0) as [s1 [[]|e]]; simpl in Hr; [done|]. done. }
  split; [exact Hn|]. intros d Hd Hne.
  destruct (fs_dirs f !! d) as [entries|] eqn:Ef; [by eexists|]. exfalso.
  unfold start in Hok.
  destruct (_reset_ok c s0 Hn) as (s1 & H1 & _).
  erewrite bind_ok in Hok by exact H1.
  assert (Hfs1 : fs s1 = f).
  { pose proof (keeps__reset fs c ltac:(done) ltac:(done) ltac:(done) ltac:(done)
                  ltac:(done) ltac:(done) ltac:(done) ltac:(done) ltac:(done) s0) as H.
    unfold agree_on in H. by rewrite H1 in H. }
  assert (load_dir_set c = true) as Hset.
  { unfold load_dir_set. subst c. cbn [load_dir]. rewrite Hd.
    apply negb_true_iff, String.eqb_neq, Hne. }
  rewrite Hset in Hok. cbn [when] in Hok.
  unfold load_current_checkpoint, os_listdir in Hok.
  rewrite run_get in Hok. subst c. cbn [load_dir] in Hok.
  rewrite Hd, Hfs1, Ef in Hok. done.
Qed.

(** X1.  The constructor returns a solver exactly when every keyword is
    known, the update rule is registered, at least one process is asked
    for, and the resume directory, if one is given, can be listed. *)
Theorem constructor_returns_iff optim m ps data kw h f rnd :
  is_ok (__init__ optim m ps data kw h f rnd) = true
  ↔ kw_extra kw = []
    ∧ is_Some (optim !! default "sgd"%string (kw_update_rule kw))
    ∧ (1 ≤ default 1 (kw_num_processes kw))%Z
    ∧ (∀ d, kw_load_dir kw = Some d → d ≠ ""%string → is_Some (fs_dirs f !! d)).
Proof.
  split; [apply constructor_needs|].
  intros (Hextra & [rule Hrule] & Hn & Hdir). unfold __init__, unpack.
  rewrite Hextra, Hrule. cbn [length Nat.eqb negb].
  set (c := Build_Config _ _ _ _ _ _ _ _ _ _ _ _ _ _ _ _ _ _).
  destruct (start_ok c (blank ps kw h f)) as (s & Hs & _); [exact Hn | | by rewrite Hs].
  intros Hset. unfold load_dir_set in Hset. subst c. cbn [load_dir] in *.
  destruct (kw_load_dir kw) as [d|]; [|done].
  exists d. split; [done|]. apply Hdir; [done|].
  intros ->. done.
Qed.

(** X2.  A solver the constructor returns, resumed from a checkpoint or
    not, is ready to train and holds the parameters of the model it was
    given, the decay factor of its keywords and, for every parameter, the
    items of the solver-level optimizer config: a resumed run starts from
    the weights and the learning rates of a new one. *)
Theorem constructor_keeps_given_weights optim m ps data kw h f rnd c s :
  __init__ optim m ps data kw h f rnd = Ok (c, s) →
  ready s
  ∧ params s = ps
  ∧ lr_decay s = default 1%Q (kw_lr_decay kw)
  ∧ ∀ p, p ∈ dom ps → optim_configs s !! p = Some (optim_config c).
Proof.
  intros Hinit.
  assert (Hok : is_ok (__init__ optim m ps data kw h f rnd) = true) by by rewrite Hinit.
  apply constructor_needs in Hok as (Hextra & Hrule & Hn & Hdir).
  unfold __init__ in Hinit.
  destruct (unpack optim m data kw rnd) as [c0|e] eqn:Ec; [|done].
  assert (Hc0 : num_processes c0 = default 1%Z (kw_num_processes kw)
                ∧ load_dir c0 = kw_load_dir kw).
  { unfold unpack in Ec. rewrite Hextra in Ec. cbn [length Nat.eqb negb] in Ec.
    destruct (optim !! _); [|done]. injection Ec as <-. done. }
  destruct Hc0 as [Hn0 Hd0].
  destruct (start_ok c0 (blank ps kw h f)) as (s1 & Hs & Hr & Hp & Hlr & Hoc).
  { by rewrite Hn0. }
  { unfold load_dir_set. rewrite Hd0. destruct (kw_load_dir kw) as [d|]; [|done].
    intros Hne. exists d. split; [done|]. apply Hdir; [done|]. intros ->. done. }
  rewrite Hs in Hinit. injection Hinit as <- <-. done.
Qed.

Lemma constructor_keeps_given_weights_witness :
  match __init__ optim_registry feature_model two_params two_class_data resume_kw ∅
          fs_empty_runs (λ n, n) with
  | Ok (c, s) =>
      ready s
      ∧ params s = two_params
      ∧ lr_decay s = default 1%Q (kw_lr_decay resume_kw)
      ∧ ∀ p, p ∈ dom two_params → optim_configs s !! p = Some (optim_config c)
  | Raise _ => False
  end.
Proof.
  destruct (__init__ optim_registry feature_model two_params two_class_data resume_kw ∅
              fs_empty_runs (λ n, n)) as [[c s]|e] eqn:E.
  - exact (constructor_keeps_given_weights _ _ _ _ _ _ _ _ c s E).
  - assert (H : is_ok (__init__ optim_registry feature_model two_params two_class_data
                         resume_kw ∅ fs_empty_runs (λ n, n)) = true)
      by (vm_compute; reflexivity).
    rewrite E in H. discriminate H.
Defined.

(** X3.  When the resume directory can be listed, [load_current_checkpoint]
    returns, and leaves either the state with all six recorded attributes
    of one stored checkpoint restored, or exactly the state [_reset] gives:
    an entry that does not parse, a missing file or a checkpoint that lacks
    an attribute never leaves a half-restored state. *)
Theorem load_restores_all_or_resets c s d entries :
  (1 ≤ num_processes c)%Z →
  load_dir c = Some d → fs_dirs (fs s) !! d = Some entries →
  ∃ s', load_current_checkpoint c s = (s', Ok tt)
    ∧ (s' = (_reset c s).1
       ∨ ∃ path cp e a bp lh th vh,
           fs_files (fs s) !! path = Some cp
           ∧ cp_epoch cp = Some e ∧ cp_best_val_acc cp = Some a
           ∧ cp_best_params cp = Some bp ∧ cp_loss_history cp = Some lh
           ∧ cp_train_acc_history cp = Some th ∧ cp_val_acc_history cp = Some vh
           ∧ s' = restored e a bp lh th vh s).
Proof.
  intros Hn Hd Hf.
  destruct (load_all_or_nothing_aux c s d entries Hd Hf)
    as [Hl | (path & cp & e & a & bp & lh & th & vh & H)].
  - destruct (_reset_ok c s Hn) as (s' & Hr & _). exists s'. rewrite Hl, Hr.
    split; [done | by left].
  - destruct H as (H0 & H1 & H2 & H3 & H4 & H5 & H6 & Hl).
    eexists. split; [exact Hl|]. right. exists path, cp, e, a, bp, lh, th, vh.
    by repeat split.
Qed.

Lemma load_restores_all_or_resets_witness :
  let c := config_of feature_model resume_kw in
  let s := blank two_params resume_kw ∅ fs_empty_runs in
  ∃ s', load_current_checkpoint c s = (s', Ok tt)
    ∧ (s' = (_reset c s).1
       ∨ ∃ path cp e a bp lh th vh,
           fs_files (fs s) !! path = Some cp
           ∧ cp_epoch cp = Some e ∧ cp_best_val_acc cp = Some a
           ∧ cp_best_params cp = Some bp ∧ cp_loss_history cp = Some lh
           ∧ cp_train_acc_history cp = Some th ∧ cp_val_acc_history cp = Some vh
           ∧ s' = restored e a bp lh th vh s).
Proof.
  intros c s. apply (load_restores_all_or_resets c s "runs"%string []).
  - vm_compute. discriminate.
  - reflexivity.
  - reflexivity.
Defined.

(** ** Checkpoint names *)

Lemma string_app_cons a (s t : string) : String a s +:+ t = String a (s +:+ t).
Proof. reflexivity. Qed.

Lemma string_app_nil_r (s : string) : s +:+ "" = s.
Proof. induction s as [|a s IH]; [done | by rewrite string_app_cons, IH]. Qed.

Lemma string_app_assoc (a b c : string) : (a +:+ b) +:+ c = a +:+ (b +:+ c).
Proof. induction a as [|x a IH]; [done | by rewrite !string_app_cons, IH]. Qed.

Lemma string_length_app (a b : string) :
  String.length (a +:+ b) = String.length a + String.length b.
Proof. induction a as [|x a IH]; [done | rewrite string_app_cons; simpl; by rewrite IH]. Qed.

Lemma rev_app_rev_app s1 : ∀ s2 s3,
  String.rev_app (String.rev_app s1 s2) s3 = String.rev_app s2 (s1 +:+ s3).
Proof.
  induction s1 as [|a s1 IH]; intros s2 s3; [done|].
  rewrite string_app_cons. simpl. by rewrite IH.
Qed.

Lemma string_rev_involutive s : String.rev (String.rev s) = s.
Proof. unfold String.rev. rewrite rev_app_rev_app. simpl. apply string_app_nil_r. Qed.

Lemma rev_app_app s1 : ∀ s2, String.rev_app s1 s2 = String.rev s1 +:+ s2.
Proof.
  unfold String.rev. induction s1 as [|a s1 IH]; intros s2; simpl; [done|].
  rewrite (IH (String a s2)), (IH (String a "")), string_app_assoc. done.
Qed.

Lemma string_rev_app a b : String.rev (a +:+ b) = String.rev b +:+ String.rev a.
Proof.
  induction a as [|x a IH].
  - by rewrite string_app_nil_r.
  - rewrite string_app_cons. unfold String.rev at 1. simpl. rewrite rev_app_app, IH.
    unfold String.rev at 4. simpl. rewrite (rev_app_app a (String x "")).
    by rewrite string_app_assoc.
Qed.

Lemma all_chars_app p a b : all_chars p (a +:+ b) = all_chars p a && all_chars p b.
Proof.
  induction a as [|x a IH]; [done|]. rewrite string_app_cons. simpl.
  by rewrite IH, andb_assoc.
Qed.

Lemma all_chars_rev_app p s1 : ∀ s2,
  all_chars p (String.rev_app s1 s2) = all_chars p s1 && all_chars p s2.
Proof.
  induction s1 as [|a s1 IH]; intros s2; simpl; [done|].
  rewrite IH. simpl. by destruct (p a), (all_chars p s1).
Qed.

Lemma all_chars_rev p s : all_chars p (String.rev s) = all_chars p s.
Proof. unfold String.rev. rewrite all_chars_rev_app. simpl. by rewrite andb_true_r. Qed.

Lemma lstrip_id s : all_chars (λ c, negb (is_py_space c)) s = true → lstrip s = s.
Proof.
  destruct s as [|c s]; simpl; [done|]. intros H. apply andb_true_iff in H as [H _].
  by apply negb_true_iff in H as ->.
Qed.

(** [strip] leaves a string without blanks as it is. *)
Lemma py_strip_id s : all_chars (λ c, negb (is_py_space c)) s = true → py_strip s = s.
Proof.
  intros H. unfold py_strip. rewrite (lstrip_id s H).
  rewrite lstrip_id by by rewrite all_chars_rev. apply string_rev_involutive.
Qed.

Lemma all_chars_uint p d :
  passes_digits p = true → all_chars p (NilEmpty.string_of_uint d) = true.
Proof.
  unfold passes_digits. rewrite !andb_true_iff.
  intros [[[[[[[[[H0 H1] H2] H3] H4] H5] H6] H7] H8] H9].
  induction d; simpl; rewrite ?IHd; auto; by rewrite ?H0, ?H1, ?H2, ?H3, ?H4, ?H5, ?H6, ?H7, ?H8, ?H9.
Qed.

Lemma all_chars_py_str p z :
  passes_digits p = true → p "-"%char = true → all_chars p (py_str z) = true.
Proof.
  intros Hd Hm. unfold py_str.
  assert (Hu : ∀ d, all_chars p (NilZero.string_of_uint d) = true).
  { intros d. destruct d; try apply (all_chars_uint p _ Hd).
    simpl. unfold passes_digits in Hd. rewrite !andb_true_iff in Hd.
    destruct Hd as [[[[[[[[[-> _] _] _] _] _] _] _] _] _]. done. }
  destruct (Z.to_int z) as [d|d]; simpl; [apply Hu|]. by rewrite Hm, Hu.
Qed.

Lemma parse_digits_pos d : ∀ p,
  parse_digits (Z.pos p) (NilEmpty.string_of_uint d) = Some (Z.pos (Pos.of_uint_acc d p)).
Proof.
  induction d; intros p; cbn [NilEmpty.string_of_uint parse_digits Pos.of_uint_acc];
    [done | ..];
    match goal with |- context [digit_of ?c] =>
      let v := eval vm_compute in (digit_of c) in change (digit_of c) with v end;
    cbv iota beta;
    match goal with |- parse_digits ?a _ = Some (Z.pos (Pos.of_uint_acc _ ?q)) =>
      replace a with (Z.pos q) by lia end;
    apply IHd.
Qed.

Lemma parse_digits_uint d :
  parse_digits 0 (NilEmpty.string_of_uint d) = Some (Z.of_uint d).
Proof.
  unfold Z.of_uint.
  induction d; cbn [NilEmpty.string_of_uint parse_digits Pos.of_uint];
    [done | ..];
    match goal with |- context [digit_of ?c] =>
      let v := eval vm_compute in (digit_of c) in change (digit_of c) with v end;
    cbv iota beta;
    [exact IHd | ..];
    match goal with |- parse_digits ?a _ = _ =>
      let v := eval vm_compute in a in change a with v end;
    rewrite parse_digits_pos; reflexivity.
Qed.

Lemma parse_unsigned_uint d :
  d ≠ Decimal.Nil → parse_unsigned (NilEmpty.string_of_uint d) = Ok (Z.of_uint d).
Proof.
  intros Hd. unfold parse_unsigned. rewrite parse_digits_uint.
  by destruct d.
Qed.

(** [int(str(z)) == z]. *)
Lemma py_int_of_py_str z : py_int_of_string (py_str z) = Ok z.
Proof.
  unfold py_int_of_string. rewrite py_strip_id by by apply all_chars_py_str.
  unfold py_str. pose proof (DecimalZ.of_to z) as Hz.
  destruct z as [|p|p]; [reflexivity | |].
  - cbn [Z.to_int Z.of_int] in *. pose proof (DecimalPos.Unsigned.to_uint_nonnil p) as Hnil.
    rewrite <- Hz.
    destruct (Pos.to_uint p) eqn:E; try done;
      cbn [NilZero.string_of_int NilZero.string_of_uint NilEmpty.string_of_uint];
      match goal with |- _ = Ok (Z.of_uint ?d) =>
        rewrite <- (parse_unsigned_uint d) by done end; reflexivity.
  - cbn [Z.to_int Z.of_int] in *. pose proof (DecimalPos.Unsigned.to_uint_nonnil p) as Hnil.
    rewrite <- Hz. cbn [NilZero.string_of_int].
    assert (NilZero.string_of_uint (Pos.to_uint p) = NilEmpty.string_of_uint (Pos.to_uint p))
      as -> by by destruct (Pos.to_uint p).
    rewrite parse_unsigned_uint by done. reflexivity.
Qed.




(** ** Saving and loading a checkpoint *)




Lemma starts_with_slash_checkpoint_name e t :
  starts_with_slash (checkpoint_name e +:+ t) = false.
Proof. reflexivity. Qed.






(** ** Checkpoints of different epochs *)

Lemma py_str_inj e1 e2 : py_str e1 = py_str e2 → e1 = e2.
Proof.
  intros H. pose proof (py_int_of_py_str e1) as H1. rewrite H, py_int_of_py_str in H1.
  by injection H1.
Qed.

Lemma py_str_nonempty e : py_str e ≠ ""%string.
Proof.
  unfold py_str. destruct (Z.to_int e) as [d|d]; simpl; [|done]. by destruct d.
Qed.

Lemma ends_with_slash_app a b :
  all_chars not_slash b = true → b ≠ ""%string → ends_with_slash (a +:+ b) = false.
Proof.
  intros Hb Hne. unfold ends_with_slash. rewrite string_rev_app.
  rewrite <- (all_chars_rev not_slash b) in Hb.
  destruct (String.rev b) as [|ch t] eqn:E.
  - apply (f_equal String.rev) in E. rewrite string_rev_involutive in E. done.
  - rewrite string_app_cons. simpl in Hb. apply andb_true_iff in Hb as [Hc _].
    by destruct ch as [[] [] [] [] [] [] [] []].
Qed.

Lemma app_sep_inj a : ∀ b r1 r2,
  all_chars not_slash a = true → all_chars not_slash b = true →
  a +:+ String "/" r1 = b +:+ String "/" r2 → a = b.
Proof.
  induction a as [|x a IH]; intros [|y b] r1 r2 Ha Hb H; [done | | |].
  - rewrite string_app_cons in H. injection H as <- _. simpl in Hb. done.
  - rewrite string_app_cons in H. injection H as -> _. simpl in Ha. done.
  - rewrite !string_app_cons in H. injection H as -> H. simpl in Ha, Hb.
    apply andb_true_iff in Ha as [_ Ha]. apply andb_true_iff in Hb as [_ Hb].
    f_equal. by eapply IH.
Qed.

(** The path of the record of epoch [e]: the directory part, then the
    checkpoint's name twice. *)
Lemma checkpoint_path_shape root :
  ∃ prefix, ∀ e,
    path_join3 root (checkpoint_name e) (checkpoint_name e +:+ ".pkl")
    = prefix +:+ checkpoint_name e +:+ "/" +:+ checkpoint_name e +:+ ".pkl".
Proof.
  exists (if (root =? "")%string || ends_with_slash root then root else root +:+ "/").
  intros e'. unfold path_join3.
  assert (Hdir : path_join2 root (checkpoint_name e')
                 = (if (root =? "")%string || ends_with_slash root then root else root +:+ "/")
                   +:+ checkpoint_name e').
  { unfold path_join2. change (starts_with_slash (checkpoint_name e')) with false. cbv iota.
    destruct ((root =? "")%string || ends_with_slash root); [done|].
    by rewrite string_app_assoc. }
  rewrite Hdir. unfold path_join2 at 1.
  change (starts_with_slash (checkpoint_name e' +:+ ".pkl")) with false. cbv iota.
  assert (((_ +:+ checkpoint_name e' =? "")%string || ends_with_slash (_ +:+ checkpoint_name e'))
          = false) as ->; [|by rewrite !string_app_assoc].
  apply orb_false_iff. split.
  - apply String.eqb_neq. intros H. apply (f_equal String.length) in H.
    rewrite string_length_app in H. unfold checkpoint_name in H.
    rewrite string_length_app in H. simpl in H. lia.
  - apply ends_with_slash_app.
    + unfold checkpoint_name. rewrite all_chars_app. simpl.
      by apply all_chars_py_str.
    + unfold checkpoint_name. done.
Qed.

(** Checkpoints of different epochs are stored under different paths. *)
Lemma checkpoint_path_inj root e1 e2 :
  path_join3 root (checkpoint_name e1) (checkpoint_name e1 +:+ ".pkl")
  = path_join3 root (checkpoint_name e2) (checkpoint_name e2 +:+ ".pkl") →
  e1 = e2.
Proof.
  destruct (checkpoint_path_shape root) as [prefix Hshape].
  rewrite !Hshape. intros H. apply (inj (String.append prefix)) in H.
  unfold checkpoint_name in H. rewrite !string_app_assoc in H.
  apply (inj (String.append "check_")) in H.
  apply py_str_inj. eapply app_sep_inj; [| |exact H]; by apply all_chars_py_str.
Qed.

(** X5.  Saving the checkpoint of one epoch leaves the stored record of every
    other epoch as it was. *)
Theorem checkpoint_keeps_other_epochs c s e :
  e ≠ epoch s →
  fs_files (fs (make_check_point c s).1)
    !! path_join3 (path_checkpoints c) (checkpoint_name e) (checkpoint_name e +:+ ".pkl")
  = fs_files (fs s)
    !! path_join3 (path_checkpoints c) (checkpoint_name e) (checkpoint_name e +:+ ".pkl").
Proof.
  intros Hne. unfold make_check_point. rewrite run_get.
  fold (checkpoint_name (epoch s)).
  fold (path_join3 (path_checkpoints c) (checkpoint_name (epoch s))
          (checkpoint_name (epoch s) +:+ ".pkl")).
  destruct (negb _); rewrite ?run_modify, ?run_ret; unfold modify; cbn [fst]; fields;
    unfold joblib_dump, os_makedirs; cbn [fs_files];
    fold (path_join3 (path_checkpoints c) (checkpoint_name (epoch s))
            (checkpoint_name (epoch s) +:+ ".pkl"));
    apply lookup_insert_ne; intros H; by apply checkpoint_path_inj in H.
Qed.

Lemma checkpoint_keeps_other_epochs_witness :
  let c := config_of feature_model single_kw in
  let s := fresh feature_model single_kw ∅ empty_fs in
  fs_files (fs (make_check_point c s).1)
    !! path_join3 (path_checkpoints c) (checkpoint_name 3) (checkpoint_name 3 +:+ ".pkl")
  = fs_files (fs s)
    !! path_join3 (path_checkpoints c) (checkpoint_name 3) (checkpoint_name 3 +:+ ".pkl").
Proof.
  intros c s. apply (checkpoint_keeps_other_epochs c s 3). vm_compute. discriminate.
Defined.

Lemma maybe_check_point_off c :
  check_point_every c = 0%Z → keeps (agree_on fs) (maybe_check_point c).
Proof.
  intros H s. unfold maybe_check_point. rewrite run_get, H. apply agree_on_refl.
Qed.

(** X6.  With [check_point_every] left at 0 a run of [train], returning or
    raising, leaves the file system as it found it. *)
Theorem train_without_checkpoints_keeps_files c s :
  check_point_every c = 0%Z → fs (train c s).1 = fs s.
Proof.
  intros Hoff.
  pose proof (agree_on_refl fs) as Rr. pose proof (agree_on_trans fs) as Rt.
  assert (keeps (agree_on fs) (train c)) as H; [|exact (H s)].
  unfold train. apply (keeps_bind _ Rt); [|intros _].
  - apply (parts_train_loop _ Rr Rt c); try done.
    + intros grads. by apply (keeps_apply_updates _ Rr Rt).
    + intros a b.
      apply (keeps_bind _ Rt); [by intros s' | intros _].
      apply (keeps_bind _ Rt); [by intros s' | intros _].
      by apply (keeps_keep_best _ Rr Rt).
    + unfold end_epoch.
      apply (keeps_bind _ Rt); [by intros s' | intros _].
      apply (keeps_bind _ Rt); [by apply (keeps_update_decay _ Rr Rt) | intros _].
      apply (keeps_bind _ Rt); [by apply (keeps_decay_all _ Rr Rt) | intros _].
      by apply maybe_check_point_off.
  - apply (keeps_bind _ Rt); [by intros s' | intros _].
    apply (keeps_bind _ Rt); [by apply (keeps_pool_terminate _ Rr) | intros _].
    unfold pool_join. keeps_with Rr Rt.
Qed.

Lemma train_without_checkpoints_keeps_files_witness :
  fs (train (config_of feature_model pooled_kw) (fresh feature_model pooled_kw ∅ empty_fs)).1
  = fs (fresh feature_model pooled_kw ∅ empty_fs).
Proof. apply train_without_checkpoints_keeps_files. reflexivity. Defined.

(** ** Learning-rate decay *)

Lemma map_fst_keys {V} (m : gmap string V) k :
  k ∈ map fst (map_to_list m) ↔ k ∈ dom m.
Proof.
  rewrite list_elem_of_In, in_map_iff, elem_of_dom. split.
  - intros ([k' v] & <- & Hkv). apply list_elem_of_In, elem_of_map_to_list in Hkv. eauto.
  - intros [v Hv]. exists (k, v). split; [done|].
    by apply list_elem_of_In, elem_of_map_to_list.
Qed.

Lemma map_fst_keys_NoDup {V} (m : gmap string V) : NoDup (map fst (map_to_list m)).
Proof.
  assert (map fst (map_to_list m) = (map_to_list m).*1) as ->.
  { induction (map_to_list m) as [|x l IH]; simpl; [done | by rewrite IH]. }
  apply NoDup_fst_map_to_list.
Qed.

Lemma decay_learning_rate_float k config s :
  optim_configs s !! k = Some config → has_float_lr config = true →
  decay_learning_rate k s
  = (set_optim_configs (<[k := decayed (lr_decay s) config]> (optim_configs s)) s, Ok tt).
Proof.
  intros Hk Hf. unfold decay_learning_rate, dict_get, has_float_lr, decayed in *.
  rewrite run_get, Hk, run_lift.
  destruct (config !! "learning_rate"%string) as [[q|l]|]; try done.
Qed.

Lemma decay_loop_floats l : ∀ s,
  NoDup l →
  (∀ k, k ∈ l → ∃ config, optim_configs s !! k = Some config ∧ has_float_lr config = true) →
  ∃ oc, for_each l decay_learning_rate s = (set_optim_configs oc s, Ok tt)
    ∧ (∀ k, k ∉ l → oc !! k = optim_configs s !! k)
    ∧ (∀ k config, k ∈ l → optim_configs s !! k = Some config →
         oc !! k = Some (decayed (lr_decay s) config)).
Proof.
  induction l as [|k0 l IH]; intros s Hnd Hl; simpl.
  - exists (optim_configs s). split; [by destruct s|]. split; [done|].
    intros k config Hk. by apply elem_of_nil in Hk.
  - apply NoDup_cons in Hnd as [Hk0 Hnd].
    destruct (Hl k0 ltac:(left)) as (config0 & Hc0 & Hf0).
    erewrite bind_ok by by apply decay_learning_rate_float.
    set (s1 := set_optim_configs _ s).
    destruct (IH s1 Hnd) as (oc & Hrun & Hout & Hin).
    { intros k Hk. destruct (Hl k ltac:(by right)) as (config & Hc & Hf).
      exists config. split; [|done]. subst s1. fields.
      rewrite lookup_insert_ne; [done|]. by intros ->. }
    exists oc. split; [rewrite Hrun; by destruct s|]. subst s1. fields. split.
    + intros k Hk. apply not_elem_of_cons in Hk as [Hne Hk].
      by rewrite (Hout k Hk), lookup_insert_ne.
    + intros k config Hk Hc. destruct (decide (k = k0)) as [->|Hne].
      * rewrite (Hout k0 Hk0), lookup_insert_eq. congruence.
      * apply elem_of_cons in Hk as [?|Hk]; [done|]. apply Hin; [done|].
        by rewrite lookup_insert_ne.
Qed.

(** X13.  With float learning rates, the end of an epoch adds one to the
    epoch counter, takes the decay factor from the custom schedule at the
    new epoch when there is one, and multiplies the learning rate of every
    parameter by the decay factor exactly once; nothing else in the configs
    changes. *)
Theorem end_epoch_decays_once c s d :
  float_learning_rates s →
  match custom_update_ld c with
  | Some f => f (epoch s + 1)%Z = Ok d
  | None => d = lr_decay s
  end →
  ∃ s', end_epoch c s = (s', Ok tt)
    ∧ epoch s' = (epoch s + 1)%Z
    ∧ lr_decay s' = d
    ∧ optim_configs s' = decayed d <$> optim_configs s.
Proof.
  intros Hfl Hd. unfold end_epoch. rewrite run_modify.
  set (s1 := set_epoch (epoch s + 1) s).
  assert (Hud : update_decay c s1 = (set_lr_decay d s1, Ok tt)).
  { unfold update_decay. destruct (custom_update_ld c) as [f|].
    - rewrite run_get. subst s1. fields. by rewrite Hd, run_lift.
    - subst d. by destruct s. }
  erewrite bind_ok by exact Hud.
  set (s2 := set_lr_decay d s1).
  destruct (decay_loop_floats (map fst (map_to_list (optim_configs s2))) s2)
    as (oc & Hrun & Hout & Hin).
  { apply map_fst_keys_NoDup. }
  { intros k Hk. apply map_fst_keys, elem_of_dom in Hk as [config Hc].
    exists config. split; [done|]. by apply (Hfl k config). }
  assert (Hda : decay_all s2 = (set_optim_configs oc s2, Ok tt)).
  { unfold decay_all. by rewrite run_get. }
  erewrite bind_ok by exact Hda.
  destruct (maybe_check_point_ok c (set_optim_configs oc s2)) as [F HF]. rewrite HF.
  eexists. split; [reflexivity|]. subst s2 s1. fields. split; [done|]. split; [done|].
  apply map_eq. intros k. rewrite lookup_fmap.
  destruct (optim_configs s !! k) as [config|] eqn:Hc; simpl.
  - apply Hin; [|done]. apply map_fst_keys, elem_of_dom. eauto.
  - rewrite Hout; [done|]. rewrite map_fst_keys, elem_of_dom. fields. rewrite Hc.
    by intros [? ?].
Qed.

Lemma end_epoch_decays_once_witness :
  let c := config_of feature_model float_lr_kw in
  let s := fresh feature_model float_lr_kw ∅ empty_fs in
  ∃ s', end_epoch c s = (s', Ok tt)
    ∧ epoch s' = (epoch s + 1)%Z
    ∧ lr_decay s' = lr_decay s
    ∧ optim_configs s' = decayed (lr_decay s) <$> optim_configs s.
Proof.
  intros c s. apply (end_epoch_decays_once c s (lr_decay s)).
  - apply (bool_decide_unpack _). vm_compute. exact I.
  - reflexivity.
Defined.

Lemma decay_loop_missing l : ∀ s,
  (∀ k, k ∈ l → k ∈ dom (optim_configs s)) →
  (∃ k config, k ∈ l ∧ optim_configs s !! k = Some config
     ∧ config !! "learning_rate"%string = None) →
  (for_each l decay_learning_rate s).2 = Raise KeyError.
Proof.
  induction l as [|k0 l IH]; intros s Hdom (k & config & Hk & Hc & Hlr).
  - by apply elem_of_nil in Hk.
  - simpl. pose proof (Hdom k0 ltac:(left)) as Hk0.
    apply elem_of_dom in Hk0 as [config0 Hc0].
    unfold mbind, M_bind, bind. unfold decay_learning_rate at 1, dict_get.
    rewrite run_get, Hc0, run_lift.
    destruct (config0 !! "learning_rate"%string) as [lr|] eqn:Hlr0; [|done].
    assert (Hne : k ≠ k0) by (intros ->; congruence).
    apply elem_of_cons in Hk as [?|Hk]; [done|].
    rewrite run_lift. destruct lr as [q|a]; unfold modify; cbn [fst snd]; apply IH.
    + intros k' Hk'. fields. rewrite dom_insert_L. apply elem_of_union. right.
      apply Hdom. by right.
    + exists k, config. fields. by rewrite lookup_insert_ne.
    + intros k' Hk'. fields. apply Hdom. by right.
    + exists k, config. by fields.
Qed.

(** X14.  When the config of some parameter holds no learning rate, the decay
    at the end of an epoch raises [KeyError]. *)
Theorem decay_without_learning_rate_raises s k config :
  optim_configs s !! k = Some config → config !! "learning_rate"%string = None →
  (decay_all s).2 = Raise KeyError.
Proof.
  intros Hc Hlr. unfold decay_all. rewrite run_get. apply decay_loop_missing.
  - intros k' Hk'. by apply map_fst_keys.
  - exists k, config. split; [|done]. apply map_fst_keys, elem_of_dom. eauto.
Qed.

Lemma decay_without_learning_rate_raises_witness :
  (decay_all (fresh feature_model single_kw ∅ empty_fs)).2 = Raise KeyError.
Proof.
  apply (decay_without_learning_rate_raises _ "W1"%string ∅); reflexivity.
Defined.

(** ** Predictions and accuracy *)

Lemma concat_chunks {A} sizes : ∀ l : list A,
  length l ≤ list_sum sizes → concat (chunks l sizes) = l.
Proof.
  induction sizes as [|k sizes IH]; intros l Hl; simpl in *.
  - destruct l; [done | simpl in Hl; lia].
  - rewrite IH; [apply take_drop|]. rewrite length_drop. lia.
Qed.

Lemma list_sum_repeat k n : list_sum (repeat k n) = n * k.
Proof. induction n as [|n IH]; simpl; [done | by rewrite IH]. Qed.

(** [np.array_split] cuts the list into consecutive pieces. *)
Lemma array_split_concat {A} (l : list A) n parts :
  array_split l n = Ok parts → concat parts = l.
Proof.
  unfold array_split. destruct (n <=? 0)%Z eqn:E; [done|]. apply Z.leb_gt in E.
  intros [= <-]. apply concat_chunks.
  rewrite list_sum_app, !list_sum_repeat.
  set (len := Z.of_nat (length l)).
  pose proof (Z.mod_pos_bound len n E) as Hm.
  pose proof (Z.div_pos len n ltac:(lia) E) as Hq.
  pose proof (Z.div_mod len n ltac:(lia)) as Hdm.
  apply Nat2Z.inj_le. rewrite Nat2Z.inj_add, !Nat2Z.inj_mul, !Z2Nat.id by lia.
  fold len. nia.
Qed.

Lemma take_add_drop {A} a b (l : list A) : take a l ++ take b (drop a l) = take (a + b) l.
Proof.
  revert l. induction a as [|a IH]; intros l; simpl; [done|].
  destruct l as [|x l]; simpl; [by rewrite take_nil | by rewrite IH].
Qed.

(** The batches [X[i*bs:(i+1)*bs]] for [i] below [k] make up the first
    [k*bs] items. *)
Lemma concat_slices {A} (X : list A) (bs : Z) k :
  (0 < bs)%Z →
  concat (map (λ i, py_slice X (i * bs) ((i + 1) * bs)) (map Z.of_nat (seq 0 k)))
  = take (k * Z.to_nat bs) X.
Proof.
  intros Hbs. induction k as [|k IH].
  - done.
  - rewrite seq_S, !map_app, concat_app, IH. simpl. rewrite app_nil_r.
    unfold py_slice.
    replace (Z.to_nat ((Z.of_nat k + 1) * bs) - Z.to_nat (Z.of_nat k * bs))
      with (Z.to_nat bs) by nia.
    replace (Z.to_nat (Z.of_nat k * bs)) with (k * Z.to_nat bs) by nia.
    rewrite take_add_drop. f_equal. lia.
Qed.

Lemma collect_map {A B} (l : list A) (body : A → M (list B)) (F : A → list B) s :
  (∀ x, body x s = (s, Ok (F x))) → collect l body s = (s, Ok (concat (map F l))).
Proof.
  intros Hb. induction l as [|x l IH]; simpl; [done|].
  erewrite bind_ok by apply Hb. erewrite bind_ok by exact IH. reflexivity.
Qed.

Lemma concat_map_map {A B} (f : A → B) (ls : list (list A)) :
  concat (map (map f) ls) = map f (concat ls).
Proof. induction ls as [|l ls IH]; simpl; [done | by rewrite IH, map_app]. Qed.

Section Pointwise.

Context (c : Config) (s : Solver) (g : array → array) (f : array → Z).
Context (Hscores : ∀ X, loss_scores (model c) (params s) X = Ok (map g X)).
Context (Hargmax : ∀ x, np_argmax (g x) = Ok (f x)).
Context (Hn : (1 ≤ num_processes c)%Z).
Context (Hpool : pool_ready s).

Lemma argmax_rows X : np_argmax_axis1 (map g X) = Ok (map f X).
Proof.
  unfold np_argmax_axis1. rewrite result_mapM_map. apply result_mapM_ok.
  apply Forall_forall. intros x _. apply Hargmax.
Qed.

(** One chunk: the arrays of predictions, laid end to end, are the
    predictions for the items of the chunk in order, in both paths. *)
Lemma predict_chunk_pointwise chunk :
  ∃ ps, predict_chunk c chunk s = (s, Ok ps) ∧ concat ps = map f chunk ∧ ps ≠ [].
Proof.
  unfold predict_chunk. rewrite run_get.
  destruct (multiprocessing s) eqn:Emp; cbn [negb].
  - destruct (array_split_ok chunk (num_processes c) Hn) as (parts & Hparts & Hlen).
    rewrite Hparts, run_lift. exists (map (map f) parts). split; [|split].
    + apply try_except_ok.
      erewrite bind_ok.
      2:{ apply pool_map_ok; [by apply Hpool|].
          apply (result_mapM_ok _ (map g)). apply Forall_forall. intros x _. apply Hscores. }
      unfold lift. rewrite result_mapM_map.
      rewrite (result_mapM_ok _ (map f)); [done|].
      apply Forall_forall. intros x _. apply argmax_rows.
    + rewrite concat_map_map. f_equal. by eapply array_split_concat.
    + intros Hnil. apply (f_equal length) in Hnil. rewrite length_map, Hlen in Hnil.
      simpl in Hnil. lia.
  - rewrite Hscores, run_lift, argmax_rows, run_lift. exists [map f chunk].
    split; [done|]. split; [simpl; by rewrite app_nil_r | done].
Qed.

Lemma predictions_pointwise X bs :
  X ≠ [] → (0 < bs)%Z →
  predictions c (Z.of_nat (length X)) X bs s = (s, Ok (map f X)).
Proof.
  intros HX Hbs. unfold predictions, py_floordiv, py_mod.
  assert ((bs =? 0)%Z = false) as -> by (apply Z.eqb_neq; lia).
  rewrite !run_lift.
  set (N := Z.of_nat (length X)).
  set (nb := if negb (N mod bs =? 0)%Z then (N / bs + 1)%Z else (N / bs)%Z).
  assert (HN : (0 < N)%Z) by (subst N; destruct X; [done | simpl; lia]).
  set (F := λ i, match (predict_chunk c (py_slice X (i * bs) ((i + 1) * bs)) s).2 with
                 | Ok ps => ps
                 | Raise _ => []
                 end).
  assert (HF : ∀ i, predict_chunk c (py_slice X (i * bs) ((i + 1) * bs)) s = (s, Ok (F i))
                    ∧ concat (F i) = map f (py_slice X (i * bs) ((i + 1) * bs))
                    ∧ F i ≠ []).
  { intros i. subst F. cbv beta.
    destruct (predict_chunk_pointwise (py_slice X (i * bs) ((i + 1) * bs)))
      as (ps & -> & Hc & Hne). done. }
  erewrite bind_ok by (apply (collect_map _ _ F); intros i; apply HF).
  assert (Hnb : (1 ≤ nb)%Z ∧ (N ≤ nb * bs)%Z).
  { subst nb. pose proof (Z.div_pos N bs ltac:(lia) Hbs).
    pose proof (Z.div_mod N bs ltac:(lia)). pose proof (Z.mod_pos_bound N bs Hbs).
    destruct (N mod bs =? 0)%Z eqn:E; simpl; [apply Z.eqb_eq in E|]; nia. }
  unfold np_hstack, lift.
  destruct (concat (map F (xrange nb))) as [|p ps] eqn:Ec.
  { exfalso. unfold xrange in Ec. destruct (Z.to_nat nb) eqn:En; [lia|].
    simpl in Ec. apply app_eq_nil in Ec as [Ec _]. by apply (HF 0%Z). }
  rewrite <- Ec. f_equal. f_equal.
  assert (∀ l, concat (concat (map F l))
               = map f (concat (map (λ i, py_slice X (i * bs) ((i + 1) * bs)) l))) as ->.
  { induction l as [|i l IH]; simpl; [done|].
    destruct (HF i) as (_ & Hcat & _). by rewrite concat_app, Hcat, IH, map_app. }
  unfold xrange. rewrite concat_slices by done. f_equal.
  apply take_ge. subst N. nia.
Qed.

End Pointwise.

(** Without subsampling, [check_accuracy] on a model that scores every item
    on its own computes the predictions for the items in order. *)
Lemma check_accuracy_pointwise c s g f X y num_samples bs rp :
  (∀ X', loss_scores (model c) (params s) X' = Ok (map g X')) →
  (∀ x, np_argmax (g x) = Ok (f x)) →
  (1 ≤ num_processes c)%Z → pool_ready s →
  X ≠ [] → (0 < bs)%Z →
  (∀ ns, num_samples = Some ns → (Z.of_nat (length X) ≤ ns)%Z) →
  check_accuracy c X y num_samples bs rp s
  = (s, Ok (if rp then Preds (map f X) else Acc (accuracy_of (map f X) y))).
Proof.
  intros Hscores Hargmax Hn Hpool HX Hbs Hns. unfold check_accuracy.
  assert (labels_contract y rp = true) as ->.
  { unfold labels_contract. by destruct (is_None y && rp). }
  rewrite run_ret.
  assert (Hsub : subsample c X y num_samples s = (s, Ok (Z.of_nat (length X), X, y))).
  { unfold subsample. destruct num_samples as [ns|]; [|done].
    assert ((Z.of_nat (length X) >? ns)%Z = false) as ->; [|done].
    specialize (Hns ns eq_refl). rewrite Z.gtb_ltb. apply Z.ltb_ge. lia. }
  erewrite bind_ok by exact Hsub. cbn [fst snd].
  erewrite bind_ok by by apply (predictions_pointwise c s g f).
  by destruct rp.
Qed.

(** X17.  Asked for the predictions of a model that scores every item on its
    own, [check_accuracy] returns one prediction per item, in the order of
    the items, whatever the batch size and whether the work is done in one
    process or split over a pool. *)
Theorem check_accuracy_predicts_in_order c s g f X y bs :
  (∀ X', loss_scores (model c) (params s) X' = Ok (map g X')) →
  (∀ x, np_argmax (g x) = Ok (f x)) →
  (1 ≤ num_processes c)%Z → pool_ready s →
  X ≠ [] → (0 < bs)%Z →
  check_accuracy c X y None bs true s = (s, Ok (Preds (map f X))).
Proof.
  intros Hscores Hargmax Hn Hpool HX Hbs.
  by apply (check_accuracy_pointwise c s g f X y None bs true).
Qed.

Lemma feature_argmax x : ∃ k, np_argmax (feature_scores x) = Ok k.
Proof. destruct x; simpl; eauto. Qed.

Lemma check_accuracy_predicts_in_order_witness :
  let c := config_of feature_model pooled_kw in
  let s := fresh feature_model pooled_kw ∅ empty_fs in
  check_accuracy c (X_train c) None None 3 true s
  = (s, Ok (Preds (map feature_class (X_train c)))).
Proof.
  intros c s.
  apply (check_accuracy_predicts_in_order c s feature_scores feature_class).
  - intros X'. reflexivity.
  - intros x. unfold feature_class. by destruct (feature_argmax x) as [k ->].
  - vm_compute. discriminate.
  - intros _. vm_compute. reflexivity.
  - discriminate.
  - lia.
Defined.

Lemma count_eq_all (a b : list Z) : Forall2 eq a b → count_eq a b = length b.
Proof.
  unfold count_eq. induction 1 as [|x y a b Hxy _ IH]; [done|].
  cbn [combine]. rewrite filter_cons_True by by apply bool_decide_pack.
  cbn [length]. by rewrite IH.
Qed.

Lemma count_eq_none (a b : list Z) : Forall2 (λ x y, x ≠ y) a b → count_eq a b = 0.
Proof.
  unfold count_eq. induction 1 as [|x y a b Hxy _ IH]; [done|].
  cbn [combine]. rewrite filter_cons_False; [done|].
  intros H. by apply bool_decide_unpack in H.
Qed.

(** X18.  With a label per item and no subsampling, the accuracy
    [check_accuracy] returns for a model that scores every item on its own
    is the number of items whose prediction is the label over the number
    of items: 1 when every prediction is right and 0 when none is. *)
Theorem check_accuracy_counts_hits c s g f X yy bs :
  (∀ X', loss_scores (model c) (params s) X' = Ok (map g X')) →
  (∀ x, np_argmax (g x) = Ok (f x)) →
  (1 ≤ num_processes c)%Z → pool_ready s →
  X ≠ [] → (0 < bs)%Z → length yy = length X →
  ∃ q, check_accuracy c X (Some yy) None bs false s = (s, Ok (Acc q))
    ∧ q = (inject_Z (Z.of_nat (count_eq (map f X) yy)) / inject_Z (Z.of_nat (length X)))%Q
    ∧ (Forall2 (λ x t, f x = t) X yy → q == 1)
    ∧ (Forall2 (λ x t, f x ≠ t) X yy → q == 0).
Proof.
  intros Hscores Hargmax Hn Hpool HX Hbs Hlen.
  rewrite (check_accuracy_pointwise c s g f X (Some yy) None bs false) by done.
  eexists. split; [reflexivity|]. unfold accuracy_of.
  rewrite length_map, <- Hlen, Nat.eqb_refl.
  assert (HN : ¬ inject_Z (Z.of_nat (length yy)) == 0).
  { rewrite Hlen. destruct X; [done|]. simpl length. unfold inject_Z, Qeq. simpl. lia. }
  split; [done|]. split.
  - intros Hall. rewrite count_eq_all; [by apply Qmult_inv_r|].
    apply (Forall2_fmap_l f (@eq Z)). exact Hall.
  - intros Hnone. rewrite count_eq_none; [unfold Qdiv; by rewrite Qmult_0_l|].
    apply (Forall2_fmap_l f (λ x y : Z, x ≠ y)). exact Hnone.
Qed.

Lemma check_accuracy_counts_hits_witness :
  let c := config_of feature_model single_kw in
  let s := fresh feature_model single_kw ∅ empty_fs in
  ∃ q, check_accuracy c (X_val c) (Some (y_val c)) None 100 false s = (s, Ok (Acc q))
    ∧ q = (inject_Z (Z.of_nat (count_eq (map feature_class (X_val c)) (y_val c)))
           / inject_Z (Z.of_nat (length (X_val c))))%Q
    ∧ (Forall2 (λ x t, feature_class x = t) (X_val c) (y_val c) → q == 1)
    ∧ (Forall2 (λ x t, feature_class x ≠ t) (X_val c) (y_val c) → q == 0).
Proof.
  intros c s.
  apply (check_accuracy_counts_hits c s feature_scores feature_class).
  - intros X'. reflexivity.
  - intros x. unfold feature_class. by destruct (feature_argmax x) as [k ->].
  - vm_compute. discriminate.
  - intros H. vm_compute in H. discriminate.
  - discriminate.
  - lia.
  - reflexivity.
Defined.

(** ** Steps, the pool and the loss history *)

(** X19.  On an empty dataset [check_accuracy] raises [ValueError] and leaves
    the state as it was: there is no batch to predict on, and [np.hstack]
    refuses the empty list of predictions. *)
Theorem check_accuracy_empty_dataset_raises c y num_samples bs return_preds s :
  bs ≠ 0%Z →
  check_accuracy c [] y num_samples bs return_preds s = (s, Raise ValueError).
Proof.
  intros Hbs. unfold check_accuracy.
  assert (labels_contract y return_preds = true) as ->.
  { unfold labels_contract. by destruct (is_None y && return_preds). }
  rewrite run_ret. unfold subsample. change (Z.of_nat (length (@nil array))) with 0%Z.
  cbv zeta.
  assert (Hp : predictions c 0 [] bs s = (s, Raise ValueError)).
  { unfold predictions, py_floordiv, py_mod.
    assert ((bs =? 0)%Z = false) as -> by by apply Z.eqb_neq.
    rewrite !run_lift. rewrite Z.mod_0_l, Z.div_0_l by done. reflexivity. }
  assert (Hpred : ∀ z : option (list Z),
            (predictions c 0 [] bs ≫= λ y_pred,
               if return_preds then ret (Preds y_pred)
               else ret (Acc (accuracy_of y_pred z))) s = (s, Raise ValueError)).
  { intros z. unfold mbind, M_bind, bind. by rewrite Hp. }
  destruct num_samples as [ns|]; [|rewrite run_ret; apply Hpred].
  destruct (0 >? ns)%Z eqn:E; [|rewrite run_ret; apply Hpred].
  unfold np_random_choice. reflexivity.
Qed.

Lemma check_accuracy_empty_dataset_raises_witness :
  check_accuracy (config_of feature_model single_kw) [] (Some []) None 100 false
    (fresh feature_model single_kw ∅ empty_fs)
  = (fresh feature_model single_kw ∅ empty_fs, Raise ValueError).
Proof. apply check_accuracy_empty_dataset_raises. lia. Defined.

Lemma train_loop_multiprocessing c s : multiprocessing (train_loop c s).1 = multiprocessing s.
Proof.
  apply (keeps_train_loop (agree_on multiprocessing) (agree_on_refl _) (agree_on_trans _) c);
    done.
Qed.

(** X11.  On a solver that uses a pool, on a configuration [train] can run on
    and with collaborators that keep their contracts, [train] returns; the
    model then holds the best snapshot and the pool is terminated. *)
Theorem train_with_pool_completes c s :
  config_ok c → collaborators_ok c → ready s → multiprocessing s = true →
  ∃ s', train c s = (s', Ok tt)
    ∧ params s' = best_params s'
    ∧ pool s' = Some PoolTerminated.
Proof.
  intros Hc Hm Hr Hmp.
  destruct (train_loop_ok c s Hc Hm Hr) as (s1 & losses & ta & va & H1 & [_ Hp1] & _).
  pose proof (train_loop_multiprocessing c s) as Hmp1. rewrite H1 in Hmp1. cbn [fst] in Hmp1.
  rewrite Hmp in Hmp1. specialize (Hp1 Hmp1).
  unfold train. erewrite bind_ok by exact H1.
  unfold pool_terminate, pool_join, mbind, M_bind, bind, modify, get, raise, ret. fields.
  rewrite Hp1. fields. eexists. split; [reflexivity|]. by fields.
Qed.

Lemma train_with_pool_completes_witness :
  ∃ s', train (config_of feature_model pooled_kw) (fresh feature_model pooled_kw ∅ empty_fs)
        = (s', Ok tt)
    ∧ params s' = best_params s'
    ∧ pool s' = Some PoolTerminated.
Proof.
  apply train_with_pool_completes.
  - apply feature_config_ok; reflexivity || (simpl; lia).
  - apply feature_collaborators_ok; reflexivity.
  - apply fresh_pooled_ready.
  - reflexivity.
Defined.

(** On a terminated pool the parallel path of a step raises
    [AssertionError]. *)
Lemma compute_loss_terminated c s :
  config_ok c → collaborators_ok c →
  multiprocessing s = true → pool s = Some PoolTerminated →
  ∃ k, compute_loss c s = (set_rng k s, Raise AssertionError).
Proof.
  intros Hc Hm Hmp Hpool. unfold compute_loss.
  assert (HN : (0 < Z.of_nat (length (X_train c)))%Z).
  { pose proof (train_nonempty c Hc). destruct (X_train c); [done | simpl; lia]. }
  destruct (np_random_choice_ok c (Z.of_nat (length (X_train c))) (batch_size c) s)
    as (mask & Hmask & Hr); [lia | pose proof (batch_size_pos c Hc); lia |].
  erewrite bind_ok by exact Hmask.
  destruct (np_take_ok (X_train c) mask Hr) as [Xb HXb]. rewrite HXb, run_lift.
  destruct (np_take_ok (y_train c) mask) as [yb Hyb]; [by rewrite (train_labelled c Hc)|].
  rewrite Hyb, run_lift.
  set (s1 := set_rng (rng s + Z.to_nat (batch_size c)) s).
  assert (∃ Xa, (match batch_augment_func c with
                 | Some f => lift (f Xb)
                 | None => ret Xb
                 end) s1 = (s1, Ok Xa)) as [Xa HXa].
  { destruct (batch_augment_func c) as [f|] eqn:E; [|by eexists].
    destruct (augment_ok c Hm f E Xb) as [Xa HXa]. exists Xa. unfold lift. by rewrite HXa. }
  erewrite bind_ok by exact HXa. rewrite run_get.
  assert (multiprocessing s1 = true) as -> by done. cbn [negb].
  exists (rng s + Z.to_nat (batch_size c)). fold s1.
  unfold parallel_loss. rewrite run_get.
  assert (pool s1 = Some PoolTerminated) as Hp1 by done. rewrite Hp1, run_ret.
  destruct (array_split_ok Xa (num_processes c) (num_processes_pos c Hc)) as (Xs & HXs & HlX).
  destruct (array_split_ok yb (num_processes c) (num_processes_pos c Hc)) as (ys & Hys & Hly).
  rewrite HXs, run_lift, Hys, run_lift.
  unfold try_except.
  rewrite (job_args_ok Xs ys (Z.to_nat (num_processes c)) HlX Hly).
  unfold pool_map, pool_terminate, pool_join, mbind, M_bind, bind, modify, get, raise, ret, lift.
  fields. rewrite Hp1. fields. cbn [pool set_pool]. subst s1.
  destruct s; cbn in *. by rewrite Hpool.
Qed.

Lemma bind_raise {A B} (m : M A) (k : A → M B) s s1 e :
  m s = (s1, Raise e) → (m ≫= k) s = (s1, Raise e).
Proof. intros H. unfold mbind, M_bind, bind. by rewrite H. Qed.

(** X12.  [train] leaves the pool terminated and nothing creates it again: a
    further call of [train] on the same solver, with at least one iteration
    to run, raises [AssertionError] in its first step and records
    nothing. *)
Theorem train_on_terminated_pool_raises c s :
  config_ok c → collaborators_ok c →
  multiprocessing s = true → pool s = Some PoolTerminated →
  (1 ≤ num_iterations_of c (Z.max (Z.of_nat (length (X_train c)) / batch_size c) 1))%Z →
  (train c s).2 = Raise AssertionError
  ∧ loss_history (train c s).1 = loss_history s
  ∧ params (train c s).1 = params s.
Proof.
  intros Hc Hm Hmp Hpool Hn.
  destruct (compute_loss_terminated c s Hc Hm Hmp Hpool) as [k Hk].
  assert (Hloop : train_loop c s = (set_rng k s, Raise AssertionError)).
  { unfold train_loop, iterations_per_epoch_of, py_floordiv.
    pose proof (batch_size_pos c Hc) as Hbs.
    assert ((batch_size c =? 0)%Z = false) as -> by (apply Z.eqb_neq; lia).
    cbn [result_bind]. rewrite run_lift.
    set (ipe := Z.max _ 1) in *. set (n := num_iterations_of c ipe) in *.
    unfold xrange. destruct (Z.to_nat n) as [|m] eqn:En; [lia|].
    cbn [seq map for_each]. apply bind_raise, bind_raise.
    unfold train_iteration, _step. by apply bind_raise, bind_raise. }
  unfold train. erewrite bind_raise by exact Hloop. done.
Qed.

Lemma train_on_terminated_pool_raises_witness :
  let c := config_of feature_model pooled_kw in
  let s := (train c (fresh feature_model pooled_kw ∅ empty_fs)).1 in
  (train c s).2 = Raise AssertionError
  ∧ loss_history (train c s).1 = loss_history s
  ∧ params (train c s).1 = params s.
Proof.
  intros c s. apply train_on_terminated_pool_raises.
  - apply feature_config_ok; reflexivity || (simpl; lia).
  - apply feature_collaborators_ok; reflexivity.
  - vm_compute. reflexivity.
  - vm_compute. reflexivity.
  - vm_compute. discriminate.
Defined.

Lemma np_index_nth {A} (l : list A) d i :
  (0 ≤ i < Z.of_nat (length l))%Z → np_index l i = Ok (nth (Z.to_nat i) l d).
Proof.
  intros Hi. unfold np_index.
  assert ((i <? 0)%Z = false) as -> by (apply Z.ltb_ge; lia).
  assert (((0 <=? i) && (i <? Z.of_nat (length l)))%Z = true) as ->.
  { apply andb_true_iff. split; [apply Z.leb_le | apply Z.ltb_lt]; lia. }
  destruct (nth_error l (Z.to_nat i)) eqn:E.
  - by rewrite (nth_error_nth _ _ d E).
  - apply nth_error_None in E. lia.
Qed.

Lemma np_take_nth {A} (l : list A) d mask :
  Forall (λ i, (0 ≤ i < Z.of_nat (length l))%Z) mask →
  np_take l mask = Ok (map (λ i, nth (Z.to_nat i) l d) mask).
Proof.
  intros H. unfold np_take. apply result_mapM_ok.
  eapply Forall_impl; [exact H|]. intros i Hi. by apply np_index_nth.
Qed.

(** The single path of a step: the model is asked for the loss on the items
    of one mask and on the labels of the same mask. *)
Lemma compute_loss_single c s :
  (0 < batch_size c)%Z → X_train c ≠ [] → length (y_train c) = length (X_train c) →
  batch_augment_func c = None → multiprocessing s = false →
  ∃ mask,
    length mask = Z.to_nat (batch_size c)
    ∧ Forall (λ i, (0 ≤ i < Z.of_nat (length (X_train c)))%Z) mask
    ∧ compute_loss c s
      = (set_rng (rng s + Z.to_nat (batch_size c)) s,
         loss (model c) (params s)
           (map (λ i, nth (Z.to_nat i) (X_train c) []) mask)
           (map (λ i, nth (Z.to_nat i) (y_train c) 0%Z) mask)).
Proof.
  intros Hbs HX Hy Haug Hmp. unfold compute_loss.
  assert (HN : (0 < Z.of_nat (length (X_train c)))%Z).
  { destruct (X_train c); [done | simpl; lia]. }
  set (mask := map (λ i, (Z.of_nat (rand c (rng s + i)) mod Z.of_nat (length (X_train c)))%Z)
                 (seq 0 (Z.to_nat (batch_size c)))).
  assert (Hmask : np_random_choice c (Z.of_nat (length (X_train c))) (batch_size c) s
                  = (set_rng (rng s + Z.to_nat (batch_size c)) s, Ok mask)).
  { unfold np_random_choice.
    assert (((Z.of_nat (length (X_train c)) <=? 0) || (batch_size c <? 0))%Z = false) as ->.
    { apply orb_false_iff. split; [apply Z.leb_gt | apply Z.ltb_ge]; lia. }
    by rewrite run_get, run_modify. }
  assert (Hr : Forall (λ i, (0 ≤ i < Z.of_nat (length (X_train c)))%Z) mask).
  { apply Forall_map, Forall_forall. intros i _. simpl. apply Z.mod_pos_bound. lia. }
  exists mask. split; [subst mask; by rewrite length_map, length_seq|]. split; [done|].
  erewrite bind_ok by exact Hmask.
  rewrite (np_take_nth (X_train c) [] mask Hr), run_lift.
  rewrite (np_take_nth (y_train c) 0%Z mask) by by rewrite Hy.
  rewrite run_lift, Haug, run_ret, run_get. fields. by rewrite Hmp.
Qed.

(** X15.  In the single-process path a step draws [batch_size] positions of
    the training set, with replacement, and hands the model the items at
    these positions together with the labels at the same positions. *)
Theorem minibatch_pairs_items_with_labels c s :
  (0 < batch_size c)%Z → X_train c ≠ [] → length (y_train c) = length (X_train c) →
  batch_augment_func c = None → multiprocessing s = false →
  ∃ mask,
    length mask = Z.to_nat (batch_size c)
    ∧ Forall (λ i, (0 ≤ i < Z.of_nat (length (X_train c)))%Z) mask
    ∧ compute_loss c s
      = (set_rng (rng s + Z.to_nat (batch_size c)) s,
         loss (model c) (params s)
           (map (λ i, nth (Z.to_nat i) (X_train c) []) mask)
           (map (λ i, nth (Z.to_nat i) (y_train c) 0%Z) mask)).
Proof. apply compute_loss_single. Qed.

Lemma minibatch_pairs_items_with_labels_witness :
  let c := config_of feature_model single_kw in
  let s := fresh feature_model single_kw ∅ empty_fs in
  ∃ mask,
    length mask = Z.to_nat (batch_size c)
    ∧ Forall (λ i, (0 ≤ i < Z.of_nat (length (X_train c)))%Z) mask
    ∧ compute_loss c s
      = (set_rng (rng s + Z.to_nat (batch_size c)) s,
         loss (model c) (params s)
           (map (λ i, nth (Z.to_nat i) (X_train c) []) mask)
           (map (λ i, nth (Z.to_nat i) (y_train c) 0%Z) mask)).
Proof.
  intros c s. apply minibatch_pairs_items_with_labels.
  - vm_compute. reflexivity.
  - discriminate.
  - reflexivity.
  - reflexivity.
  - reflexivity.
Defined.




(** ** Evaluations per run *)

Lemma gate_open_quiet c ipe n it :
  verbose c = false → (1 ≤ ipe)%Z → (0 ≤ it < n)%Z →
  gate_open c ipe n it = (it =? 0)%Z || ((it + 1) mod ipe =? 0)%Z.
Proof.
  intros Hv Hipe Hit. unfold gate_open, gate. rewrite is_epoch_end_ok by done.
  cbn [result_bind]. rewrite Hv. cbn [result_bind].
  assert ((it =? n + 1)%Z = false) as -> by (apply Z.eqb_neq; lia).
  rewrite !orb_false_r. by destruct (_ || _).
Qed.

(** Not verbose: among the first [m] iterations the gate is open on the
    first one and on those that complete an epoch. *)
Lemma quiet_gate_count c ipe n m :
  verbose c = false → (1 ≤ ipe)%Z → (Z.of_nat m ≤ n)%Z →
  Z.of_nat (length (filter (λ it, gate_open c ipe n it = true) (xrange (Z.of_nat m))))
  = (Z.of_nat m / ipe
     + if (Z.of_nat m =? 0)%Z || (ipe =? 1)%Z then 0 else 1)%Z.
Proof.
  intros Hv Hipe. induction m as [|m IH]; intros Hm.
  - simpl. by rewrite Z.div_0_l by lia.
  - rewrite xrange_S, filter_app, length_app, Nat2Z.inj_add, IH by lia.
    rewrite Nat2Z.inj_succ, <- Z.add_1_r, (div_succ (Z.of_nat m) ipe) by lia.
    rewrite filter_cons, filter_nil.
    rewrite (gate_open_quiet c ipe n (Z.of_nat m)) by (done || lia).
    assert ((Z.of_nat m + 1 =? 0)%Z = false) as -> by (apply Z.eqb_neq; lia).
    cbn [orb].
    destruct (Z.of_nat m =? 0)%Z eqn:E0; cbn [orb].
    + apply Z.eqb_eq in E0. rewrite E0. cbn [Z.add].
      destruct (decide (true = true)); [|done]. simpl length.
      destruct (ipe =? 1)%Z eqn:E1.
      * apply Z.eqb_eq in E1. subst ipe. rewrite Z.mod_1_r.
        destruct (decide (0 = 0)%Z); [lia | done].
      * apply Z.eqb_neq in E1. rewrite Z.mod_1_l by lia.
        destruct (decide (1 = 0)%Z); [lia|]. rewrite Z.div_0_l by lia. lia.
    + destruct (decide (((Z.of_nat m + 1) mod ipe)%Z = 0%Z)) as [Hz|Hz].
      * apply Z.eqb_eq in Hz as ->. destruct (decide (true = true)); [|done].
        simpl length. destruct (ipe =? 1)%Z; lia.
      * apply Z.eqb_neq in Hz as ->. destruct (decide (false = true)); [done|].
        simpl length. destruct (ipe =? 1)%Z; lia.
Qed.

(** X10.  Not verbose, on a run of [e ≥ 1] whole epochs, [train] evaluates
    the model once per epoch, and once more on the very first iteration
    when an epoch has more than one iteration: the validation history
    grows by [e] entries when there is one iteration per epoch, and by
    [e + 1] entries otherwise. *)
Theorem evaluations_per_run c s e :
  config_ok c → collaborators_ok c → ready s →
  verbose c = false → num_epochs c = inject_Z e → (1 ≤ e)%Z →
  let ipe := Z.max (Z.of_nat (length (X_train c)) / batch_size c) 1 in
  length (val_acc_history (train c s).1)
  = length (val_acc_history s) + Z.to_nat e + (if (ipe =? 1)%Z then 0 else 1)
  ∧ length (train_acc_history (train c s).1)
    = length (train_acc_history s) + Z.to_nat e + (if (ipe =? 1)%Z then 0 else 1).
Proof.
  intros Hc Hm Hr Hv He Hpos ipe.
  destruct (train_loop_ok c s Hc Hm Hr)
    as (s1 & losses & ta & va & H1 & _ & _ & _ & Hta & Hva & Hlta & Hlva & _).
  fold ipe in H1, Hlta, Hlva.
  assert (Hn : num_iterations_of c ipe = (e * ipe)%Z).
  { unfold num_iterations_of. by rewrite He, py_int_inject. }
  rewrite Hn in H1, Hlta, Hlva.
  destruct (train_after_loop c s s1 _ H1) as (_ & _ & Hta' & Hva' & _).
  assert (Hipe : (1 ≤ ipe)%Z) by (unfold ipe; lia).
  assert (Hcount : gate_triggers c ipe (e * ipe)
                   = Z.to_nat e + (if (ipe =? 1)%Z then 0 else 1)).
  { unfold gate_triggers. apply Nat2Z.inj.
    pose proof (quiet_gate_count c ipe (e * ipe) (Z.to_nat (e * ipe)) Hv Hipe) as Hq.
    rewrite Z2Nat.id in Hq by nia. rewrite Hq by lia.
    rewrite Z.div_mul by lia.
    assert ((e * ipe =? 0)%Z = false) as -> by (apply Z.eqb_neq; nia).
    cbn [orb]. rewrite Nat2Z.inj_add, Z2Nat.id by lia.
    destruct (ipe =? 1)%Z; lia. }
  rewrite Hta', Hva', Hta, Hva, !length_app, Hlta, Hlva, Hcount. split; lia.
Qed.

Lemma evaluations_per_run_witness :
  let c := config_of feature_model pooled_kw in
  let s := fresh feature_model pooled_kw ∅ empty_fs in
  length (val_acc_history (train c s).1) = length (val_acc_history s) + Z.to_nat 1 + 1
  ∧ length (train_acc_history (train c s).1)
    = length (train_acc_history s) + Z.to_nat 1 + 1.
Proof.
  intros c s. apply (evaluations_per_run c s 1).
  - apply feature_config_ok; reflexivity || (simpl; lia).
  - apply feature_collaborators_ok; reflexivity.
  - apply fresh_pooled_ready.
  - reflexivity.
  - reflexivity.
  - lia.
Defined.

(** ** Shards and subsamples *)

Lemma pairs_fst {A B} (a : list A) : ∀ b : list B,
  length a = length b → map fst (combine a b) = a.
Proof.
  induction a as [|x a IH]; intros [|y b] H; simpl in *; try done.
  f_equal. apply IH. lia.
Qed.

Lemma pairs_snd {A B} (a : list A) : ∀ b : list B,
  length a = length b → map snd (combine a b) = b.
Proof.
  induction a as [|x a IH]; intros [|y b] H; simpl in *; try done.
  f_equal. apply IH. lia.
Qed.

Lemma chunks_same_lengths {A B} sizes : ∀ (X : list A) (y : list B),
  length y = length X →
  Forall (λ job : list A * list B, length job.1 = length job.2)
         (combine (chunks X sizes) (chunks y sizes)).
Proof.
  induction sizes as [|k sizes IH]; intros X y H; simpl; [constructor|].
  constructor.
  - simpl. rewrite !length_take. lia.
  - apply IH. rewrite !length_drop. lia.
Qed.

(** X21.  The parallel path of a step cuts the minibatch and its labels at the
    same positions into one job per process: the jobs' items laid end to
    end are the minibatch, their labels laid end to end are its labels,
    and every job holds as many labels as items.  When every job returns,
    the step returns the aggregate of the results and leaves the state as
    it was; when a job raises, the pool is terminated and the error is
    raised again. *)
Theorem parallel_jobs_partition_batch c s X_batch y_batch :
  pool s = Some PoolRun → (1 ≤ num_processes c)%Z → length y_batch = length X_batch →
  ∃ jobs : list (list array * list Z),
    length jobs = Z.to_nat (num_processes c)
    ∧ concat (map fst jobs) = X_batch
    ∧ concat (map snd jobs) = y_batch
    ∧ Forall (λ job, length job.1 = length job.2) jobs
    ∧ (∀ results,
         result_mapM (λ job : list array * list Z, loss (model c) (params s) job.1 job.2) jobs
         = Ok results →
         parallel_loss c X_batch y_batch s = (s, aggregate (params s) results))
    ∧ (∀ e,
         result_mapM (λ job : list array * list Z, loss (model c) (params s) job.1 job.2) jobs
         = Raise e →
         parallel_loss c X_batch y_batch s = (set_pool (Some PoolTerminated) s, Raise e)).
Proof.
  intros Hpool Hn Hlen.
  destruct (array_split_ok X_batch (num_processes c) Hn) as (Xs & HXs & HlX).
  destruct (array_split_ok y_batch (num_processes c) Hn) as (ys & Hys & Hly).
  assert (Hrun : ∀ r,
            result_mapM (λ job : list array * list Z, loss (model c) (params s) job.1 job.2)
                        (combine Xs ys) = r →
            parallel_loss c X_batch y_batch s
            = match r with
              | Ok results => (s, aggregate (params s) results)
              | Raise e => (set_pool (Some PoolTerminated) s, Raise e)
              end).
  { intros r Hr. unfold parallel_loss.
    rewrite run_get, Hpool, run_ret, HXs, run_lift, Hys, run_lift.
    unfold try_except.
    rewrite (job_args_ok _ _ _ HlX Hly).
    unfold pool_map, pool_terminate, pool_join, mbind, M_bind, bind, modify, get, raise,
      ret, lift.
    fields. rewrite Hpool, Hr. destruct r as [results|e]; [done|].
    fields. by rewrite Hpool. }
  exists (combine Xs ys). split; [rewrite length_combine; lia|].
  split; [rewrite pairs_fst by lia; by eapply array_split_concat|].
  split; [rewrite pairs_snd by lia; by eapply array_split_concat|].
  split.
  - unfold array_split in HXs, Hys. destruct (num_processes c <=? 0)%Z; [done|].
    injection HXs as <-. injection Hys as <-. rewrite Hlen.
    by apply chunks_same_lengths.
  - split; [intros results Hr | intros e Hr]; by rewrite (Hrun _ Hr).
Qed.

Lemma parallel_jobs_partition_batch_witness :
  let c := config_of feature_model pooled_kw in
  let s := fresh feature_model pooled_kw ∅ empty_fs in
  ∃ jobs : list (list array * list Z),
    length jobs = Z.to_nat (num_processes c)
    ∧ concat (map fst jobs) = batch_X
    ∧ concat (map snd jobs) = batch_y
    ∧ Forall (λ job, length job.1 = length job.2) jobs
    ∧ (∀ results,
         result_mapM (λ job : list array * list Z, loss (model c) (params s) job.1 job.2) jobs
         = Ok results →
         parallel_loss c batch_X batch_y s = (s, aggregate (params s) results))
    ∧ (∀ e,
         result_mapM (λ job : list array * list Z, loss (model c) (params s) job.1 job.2) jobs
         = Raise e →
         parallel_loss c batch_X batch_y s = (set_pool (Some PoolTerminated) s, Raise e)).
Proof.
  intros c s. apply parallel_jobs_partition_batch.
  - vm_compute. reflexivity.
  - vm_compute. discriminate.
  - reflexivity.
Defined.

(** X20.  With subsampling ([num_samples] below the number of items) and a
    model that scores every item on its own, [check_accuracy] draws
    [num_samples] positions, with replacement, and returns the fraction of
    these positions at which the prediction for the item is the label at
    the same position. *)
Theorem check_accuracy_subsamples_pairs c s g f X yy ns bs :
  (∀ X', loss_scores (model c) (params s) X' = Ok (map g X')) →
  (∀ x, np_argmax (g x) = Ok (f x)) →
  (1 ≤ num_processes c)%Z → pool_ready s →
  (0 < bs)%Z → length yy = length X → (1 ≤ ns < Z.of_nat (length X))%Z →
  ∃ mask,
    length mask = Z.to_nat ns
    ∧ Forall (λ i, (0 ≤ i < Z.of_nat (length X))%Z) mask
    ∧ check_accuracy c X (Some yy) (Some ns) bs false s
      = (set_rng (rng s + Z.to_nat ns) s,
         Ok (Acc (inject_Z (Z.of_nat
                    (count_eq (map (λ i, f (nth (Z.to_nat i) X [])) mask)
                              (map (λ i, nth (Z.to_nat i) yy 0%Z) mask)))
                  / inject_Z ns))).
Proof.
  intros Hscores Hargmax Hn Hpool Hbs Hlen Hns. unfold check_accuracy.
  change (labels_contract (Some yy) false) with true. cbv iota. rewrite run_ret.
  set (N := Z.of_nat (length X)) in *.
  set (mask := map (λ i, (Z.of_nat (rand c (rng s + i)) mod N)%Z) (seq 0 (Z.to_nat ns))).
  set (s1 := set_rng (rng s + Z.to_nat ns) s).
  assert (Hr : Forall (λ i, (0 ≤ i < N)%Z) mask).
  { apply Forall_map, Forall_forall. intros i _. simpl. apply Z.mod_pos_bound. lia. }
  assert (Hlm : length mask = Z.to_nat ns) by (subst mask; by rewrite length_map, length_seq).
  assert (Hsub : subsample c X (Some yy) (Some ns) s
                 = (s1, Ok (ns, map (λ i, nth (Z.to_nat i) X []) mask,
                            Some (map (λ i, nth (Z.to_nat i) yy 0%Z) mask)))).
  { assert (Hrc : np_random_choice c N ns s = (s1, Ok mask)).
    { unfold np_random_choice.
      assert (((N <=? 0) || (ns <? 0))%Z = false) as ->.
      { apply orb_false_iff. split; [apply Z.leb_gt | apply Z.ltb_ge]; lia. }
      by rewrite run_get, run_modify. }
    unfold subsample. cbv zeta. fold N.
    assert ((N >? ns)%Z = true) as -> by (rewrite Z.gtb_ltb; apply Z.ltb_lt; lia).
    erewrite bind_ok by exact Hrc.
    rewrite (np_take_nth X [] mask Hr), run_lift.
    rewrite bind_assoc.
    rewrite (np_take_nth yy 0%Z mask) by by rewrite Hlen.
    rewrite run_lift. reflexivity. }
  exists mask. split; [done|]. split; [done|].
  erewrite bind_ok by exact Hsub. cbn [fst snd].
  set (X' := map (λ i, nth (Z.to_nat i) X []) mask).
  assert (HX' : X' ≠ []).
  { intros HX'. apply (f_equal length) in HX'. subst X'. rewrite length_map, Hlm in HX'.
    simpl in HX'. lia. }
  assert (Hns' : ns = Z.of_nat (length X')).
  { subst X'. rewrite length_map, Hlm. lia. }
  rewrite Hns' at 1.
  erewrite bind_ok by by apply (predictions_pointwise c s1 g f).
  cbv beta iota. unfold ret. do 3 f_equal. unfold accuracy_of.
  subst X'. rewrite !length_map, Nat.eqb_refl, map_map, Hlm, Z2Nat.id by lia. done.
Qed.

Lemma check_accuracy_subsamples_pairs_witness :
  let c := config_of feature_model single_kw in
  let s := fresh feature_model single_kw ∅ empty_fs in
  ∃ mask,
    length mask = Z.to_nat 3
    ∧ Forall (λ i, (0 ≤ i < Z.of_nat (length (X_train c)))%Z) mask
    ∧ check_accuracy c (X_train c) (Some (y_train c)) (Some 3%Z) 100 false s
      = (set_rng (rng s + Z.to_nat 3) s,
         Ok (Acc (inject_Z (Z.of_nat
                    (count_eq (map (λ i, feature_class (nth (Z.to_nat i) (X_train c) [])) mask)
                              (map (λ i, nth (Z.to_nat i) (y_train c) 0%Z) mask)))
                  / inject_Z 3))).
Proof.
  intros c s.
  apply (check_accuracy_subsamples_pairs c s feature_scores feature_class).
  - intros X'. reflexivity.
  - intros x. unfold feature_class. by destruct (feature_argmax x) as [k ->].
  - vm_compute. discriminate.
  - intros H. vm_compute in H. discriminate.
  - lia.
  - reflexivity.
  - split; [lia | vm_compute; reflexivity].
Defined.
